(** * A satirical CO2 purchase calculator, verified against its specification

    The program under study is the single file [app.py]: a table-driven
    emission estimate ([estimate_emission]), a seed derived from the form
    fields and the current minute ([deterministic_seed]), two text selectors
    driven by a seeded [random.Random] ([choose_feedback], [choose_tip]) and
    two display formatters ([format_kg], [format_tonnes]); the form calls
    them when it is submitted ([Form.submitted]).

    The embedding keeps the data the program computes with:
    - a Python [float] is a binary64 number, here a primitive [float] whose
      operations are the IEEE-754 ones (specified by [SpecFloat]);
    - a Python [int] is a [Z]; converting one to a [float] rounds to nearest
      even and raises [OverflowError] beyond the binary64 range;
    - a Python [str] is a [string] holding its UTF-8 bytes; a surrogate
      code point (U+D800 to U+DFFF), which a Python [str] can hold and UTF-8
      cannot, is held as the three bytes the same scheme gives it ([0xED],
      a byte in [0xA0..0xBF], a continuation byte), so that
      [.encode("utf-8")] returns the bytes held, or raises
      [UnicodeEncodeError] when such a triple is among them;
    - [str(n)] of an [int] is its decimal text, or [ValueError] when that
      text has more than the 4300 digits CPython converts by default;
    - a [dict] used as a lookup table is a [gmap];
    - [random.Random] is the Mersenne Twister MT19937 seeded by
      [init_by_array], and [hashlib.sha256] is SHA-256, both written out. *)

From Stdlib Require Import ZArith List String Ascii Floats Lia Bool.
From stdpp Require Import gmap strings pretty.

#[local] Set Warnings "-inexact-float".

(** ** Outcomes of a Python call *)

(** The exceptions this program can meet. *)
Inductive exn : Type :=
  | OverflowError        (* int too large to convert to float *)
  | KeyError             (* d[k] with k absent *)
  | IndexError           (* choice from an empty sequence *)
  | ValueError           (* str of an int of more than 4300 digits *)
  | UnicodeEncodeError.  (* encoding a str that holds a surrogate *)

(** A call returns a value, raises, or (for the one unbounded loop of the
    program, the rejection loop of [random.Random._randbelow]) is still
    running when the supply of loop iterations given to the model ends. *)
Inductive outcome (A : Type) : Type :=
  | Ret (a : A)
  | Raise (e : exn)
  | OutOfFuel.
Arguments Ret {A} a.
Arguments Raise {A} e.
Arguments OutOfFuel {A}.

#[export] Instance outcome_ret : MRet outcome := fun _ a => Ret a.
#[export] Instance outcome_bind : MBind outcome := fun _ _ f m =>
  match m with
  | Ret a => f a
  | Raise e => Raise e
  | OutOfFuel => OutOfFuel
  end.

Definition returns {A} (m : outcome A) : Prop := exists a, m = Ret a.

(** Two runs agree when, if both return, they return the same value. *)
Definition agree {A} (m1 m2 : outcome A) : Prop :=
  forall a b, m1 = Ret a -> m2 = Ret b -> a = b.

(** The second run returns whatever the first one returns. *)
Definition carries {A} (m1 m2 : outcome A) : Prop :=
  forall a, m1 = Ret a -> m2 = Ret a.

(** A run that raises no exception: it returns, or is still drawing. *)
Definition no_raise {A} (m : outcome A) : Prop := forall e, m <> Raise e.

(** ** Python's numbers *)

Module Py.

(** [float(n)] for an [int]: correctly rounded (nearest, ties to even);
    CPython raises [OverflowError] when the rounded value does not fit. *)
Definition float_of_int (n : Z) : outcome float :=
  match binary_normalize prec emax n 0 false with
  | S754_infinity _ => Raise OverflowError
  | sf => Ret (SF2Prim sf)
  end.

(** Truth value of a float: [x != 0.0] (so a NaN is true). *)
Definition float_bool (x : float) : bool := negb (PrimFloat.eqb x 0).

(** The builtin [max(a, b)]: the first argument is kept unless the second
    compares strictly greater. *)
Definition max (a b : float) : float :=
  if PrimFloat.ltb a b then b else a.

(** [d[k]] and [d.get(k, dflt)]. *)
Definition getitem {V} (d : gmap string V) (k : string) : outcome V :=
  match d !! k with
  | Some v => Ret v
  | None => Raise KeyError
  end.

Definition get {V} (d : gmap string V) (k : string) (dflt : V) : V :=
  match d !! k with
  | Some v => v
  | None => dflt
  end.

End Py.

(** ** [random.Random]: the Mersenne Twister MT19937 *)

Module MT19937.
Local Open Scope Z_scope.

Definition N : nat := 624.
Definition M : nat := 397.
Definition MATRIX_A : Z := 0x9908b0df.
Definition UPPER_MASK : Z := 0x80000000.
Definition LOWER_MASK : Z := 0x7fffffff.

(** Arithmetic on [uint32_t] wraps modulo 2^32. *)
Definition u32 (x : Z) : Z := x mod 2 ^ 32.

(** The generator object: the 624-word array and the read index. *)
Record state : Type := { mt : list Z; index : nat }.

(** [init_genrand(s)]: [mt[0] = s], then
    [mt[i] = 1812433253 * (mt[i-1] ^ (mt[i-1] >> 30)) + i]. *)
Fixpoint init_genrand_from (prev : Z) (i : nat) (n : nat) : list Z :=
  match n with
  | O => []
  | S n' =>
      let v := u32 (1812433253 * Z.lxor prev (Z.shiftr prev 30) + Z.of_nat i) in
      v :: init_genrand_from v (S i) n'
  end.

Definition init_genrand (s : Z) : list Z :=
  let s0 := u32 s in s0 :: init_genrand_from s0 1 (N - 1).

(** One step of either loop of [init_by_array]: update [mt[i]], advance
    [i], and wrap it to 1 after copying [mt[N-1]] into [mt[0]]. *)
Definition advance (i : nat) (a : list Z) : nat * list Z :=
  let i := S i in
  if (N <=? i)%nat then (1%nat, <[0%nat := a !!! (N - 1)%nat]> a) else (i, a).

Fixpoint key_loop (k : nat) (key : list Z) (i j : nat) (a : list Z)
    : nat * list Z :=
  match k with
  | O => (i, a)
  | S k' =>
      let prev := a !!! (i - 1)%nat in
      let v := u32 (Z.lxor (a !!! i) (u32 (Z.lxor prev (Z.shiftr prev 30) * 1664525))
                    + key !!! j + Z.of_nat j) in
      let '(i, a) := advance i (<[i := v]> a) in
      let j := S j in
      let j := if (length key <=? j)%nat then 0%nat else j in
      key_loop k' key i j a
  end.

Fixpoint mix_loop (k : nat) (i : nat) (a : list Z) : nat * list Z :=
  match k with
  | O => (i, a)
  | S k' =>
      let prev := a !!! (i - 1)%nat in
      let v := u32 (Z.lxor (a !!! i) (u32 (Z.lxor prev (Z.shiftr prev 30) * 1566083941))
                    - Z.of_nat i) in
      let '(i, a) := advance i (<[i := v]> a) in
      mix_loop k' i a
  end.

Definition init_by_array (key : list Z) : state :=
  let a := init_genrand 19650218 in
  let '(i, a) := key_loop (Nat.max N (length key)) key 1 0 a in
  let '(_, a) := mix_loop (N - 1) i a in
  {| mt := <[0%nat := 0x80000000]> a; index := N |}.

(** The 32-bit words of a non-negative int, least significant first; the
    int 0 has the one word 0. *)
Definition key_of_int (n : Z) : list Z :=
  let words := if n =? 0 then 1%nat else Z.to_nat (Z.log2 n / 32 + 1) in
  map (fun i => Z.land (Z.shiftr n (32 * Z.of_nat i)) 0xffffffff) (seq 0 words).

(** [random.Random(a)] for an int [a]: seeded from [abs(a)]. *)
Definition Random (a : Z) : state := init_by_array (key_of_int (Z.abs a)).

(** Regenerating the array, in place and in index order. *)
Definition twist (a : list Z) (kk : nat) : list Z :=
  let y := Z.lor (Z.land (a !!! kk) UPPER_MASK)
                 (Z.land (a !!! ((kk + 1) mod N)%nat) LOWER_MASK) in
  let v := Z.lxor (Z.lxor (a !!! ((kk + M) mod N)%nat) (Z.shiftr y 1))
                  (if Z.testbit y 0 then MATRIX_A else 0) in
  <[kk := v]> a.

Definition regenerate (a : list Z) : list Z := fold_left twist (seq 0 N) a.

Definition temper (y : Z) : Z :=
  let y := Z.lxor y (Z.shiftr y 11) in
  let y := Z.lxor y (Z.land (u32 (Z.shiftl y 7)) 0x9d2c5680) in
  let y := Z.lxor y (Z.land (u32 (Z.shiftl y 15)) 0xefc60000) in
  Z.lxor y (Z.shiftr y 18).

Definition genrand_uint32 (s : state) : Z * state :=
  let '(a, i) := if (N <=? index s)%nat then (regenerate (mt s), 0%nat)
                 else (mt s, index s) in
  (temper (a !!! i), {| mt := a; index := S i |}).

(** [getrandbits(k)]: for [k <= 32] the top [k] bits of one word; beyond,
    whole words from the least significant up, the last one cut. *)
Fixpoint getrandbits_words (words : nat) (k : Z) (shift : Z) (acc : Z)
    (s : state) : Z * state :=
  match words with
  | O => (acc, s)
  | S w =>
      let '(r, s) := genrand_uint32 s in
      let r := if k <? 32 then Z.shiftr r (32 - k) else r in
      getrandbits_words w (k - 32) (shift + 32) (Z.lor acc (Z.shiftl r shift)) s
  end.

Definition getrandbits (k : Z) (s : state) : Z * state :=
  if k =? 0 then (0, s)
  else if k <=? 32 then
    let '(r, s) := genrand_uint32 s in (Z.shiftr r (32 - k), s)
  else getrandbits_words (Z.to_nat ((k - 1) / 32 + 1)) k 0 0 s.

Definition bit_length (n : Z) : Z := if n =? 0 then 0 else Z.log2 (Z.abs n) + 1.

(** [_randbelow(n)]: draw [n.bit_length()] bits until the value is below
    [n].  [fuel] bounds the number of redraws. *)
Fixpoint randbelow_loop (fuel : nat) (n k r : Z) (s : state)
    : outcome (Z * state) :=
  if r <? n then Ret (r, s)
  else match fuel with
       | O => OutOfFuel
       | S fuel' => let '(r, s) := getrandbits k s in randbelow_loop fuel' n k r s
       end.

Definition randbelow (fuel : nat) (n : Z) (s : state) : outcome (Z * state) :=
  let k := bit_length n in
  let '(r, s) := getrandbits k s in
  randbelow_loop fuel n k r s.

(** [choice(seq)] *)
Definition choice {A} (fuel : nat) (l : list A) (s : state)
    : outcome (A * state) :=
  if (length l =? 0)%nat then Raise IndexError
  else
    '(i, s) ← randbelow fuel (Z.of_nat (length l)) s;
    match l !! Z.to_nat i with
    | Some x => Ret (x, s)
    | None => Raise IndexError
    end.

End MT19937.

(** ** [hashlib.sha256] *)

Module SHA256.
Local Open Scope Z_scope.

Definition w32 (x : Z) : Z := x mod 2 ^ 32.
Definition rotr (n x : Z) : Z := Z.lor (Z.shiftr x n) (w32 (Z.shiftl x (32 - n))).
Definition Ch (x y z : Z) : Z :=
  Z.lxor (Z.land x y) (Z.land (Z.lxor x 0xffffffff) z).
Definition Maj (x y z : Z) : Z :=
  Z.lxor (Z.lxor (Z.land x y) (Z.land x z)) (Z.land y z).
Definition Sigma0 (x : Z) : Z := Z.lxor (Z.lxor (rotr 2 x) (rotr 13 x)) (rotr 22 x).
Definition Sigma1 (x : Z) : Z := Z.lxor (Z.lxor (rotr 6 x) (rotr 11 x)) (rotr 25 x).
Definition sigma0 (x : Z) : Z := Z.lxor (Z.lxor (rotr 7 x) (rotr 18 x)) (Z.shiftr x 3).
Definition sigma1 (x : Z) : Z := Z.lxor (Z.lxor (rotr 17 x) (rotr 19 x)) (Z.shiftr x 10).

(** The constants of FIPS 180-4: the first 32 bits of the fractional parts
    of the cube roots of the first 64 primes, and of the square roots of the
    first 8 primes for the initial hash value. *)
Definition is_prime (p : Z) : bool :=
  forallb (fun d => negb (p mod d =? 0)) (map Z.of_nat (seq 2 (Z.to_nat p - 2))).
Definition primes : list Z :=
  filter (fun p => is_prime p) (map Z.of_nat (seq 2 310)).
Definition cube_root (n : Z) : Z :=
  fold_left (fun r i => let r' := r + 2 ^ Z.of_nat i in
                        if r' * r' * r' <=? n then r' else r)
            (rev (seq 0 40)) 0.
Definition K : list Z :=
  Eval vm_compute in map (fun p => w32 (cube_root (p * 2 ^ 96))) primes.
Definition H0 : list Z :=
  Eval vm_compute in map (fun p => w32 (Z.sqrt (p * 2 ^ 64))) (take 8 primes).

(** Big-endian bytes of a word, and back. *)
Definition be_bytes (n : nat) (x : Z) : list Z :=
  map (fun i => Z.land (Z.shiftr x (8 * Z.of_nat i)) 0xff) (rev (seq 0 n)).
Definition be_word (bs : list Z) : Z :=
  fold_left (fun acc b => acc * 256 + b) bs 0.

(** Padding: a 1 bit, zeros up to 56 modulo 64 bytes, the bit length. *)
Definition pad (msg : list Z) : list Z :=
  let len := Z.of_nat (length msg) in
  msg ++ [0x80] ++ repeat 0 (Z.to_nat ((55 - len) mod 64)) ++ be_bytes 8 (8 * len).

Fixpoint chunks (count size : nat) (l : list Z) : list (list Z) :=
  match count with
  | O => []
  | S c => take size l :: chunks c size (drop size l)
  end.

(** The message schedule, extended from 16 to 64 words. *)
Fixpoint schedule (n : nat) (w : list Z) : list Z :=
  match n with
  | O => w
  | S n' =>
      let t := length w in
      let x := w32 (sigma1 (w !!! (t - 2)%nat) + w !!! (t - 7)%nat
                    + sigma0 (w !!! (t - 15)%nat) + w !!! (t - 16)%nat) in
      schedule n' (w ++ [x])
  end.

Definition round (v : list Z) (kw : Z * Z) : list Z :=
  match v with
  | [a; b; c; d; e; f; g; h] =>
      let t1 := h + Sigma1 e + Ch e f g + fst kw + snd kw in
      let t2 := Sigma0 a + Maj a b c in
      [w32 (t1 + t2); a; b; c; w32 (d + t1); e; f; g]
  | _ => v
  end.

Definition compress (h : list Z) (block : list Z) : list Z :=
  let w := schedule 48 (map be_word (chunks 16 4 block)) in
  let v := fold_left round (combine K w) h in
  map (fun p => w32 (fst p + snd p)) (combine h v).

Definition digest (msg : list Z) : list Z :=
  let p := pad msg in
  let h := fold_left compress (chunks (length p / 64) 64 p) H0 in
  concat (map (be_bytes 4) h).

Definition hex_digit (d : Z) : ascii :=
  ascii_of_nat (Z.to_nat (if d <? 10 then 48 + d else 87 + d)).

Definition hexdigest (msg : list Z) : string :=
  string_of_list_ascii
    (concat (map (fun b => [hex_digit (b / 16); hex_digit (b mod 16)]) (digest msg))).

End SHA256.

(** ** Strings, bytes and text conversions *)

Module Str.
Local Open Scope Z_scope.

(** The bytes a string holds. *)
Definition encode (s : string) : list Z :=
  map (fun c => Z.of_nat (nat_of_ascii c)) (list_ascii_of_string s).

(** The bytes hold a surrogate code point: [0xED] followed by a byte in
    [0xA0..0xBF] (in the UTF-8 of the other code points, [0xED] is followed
    by a byte in [0x80..0x9F]). *)
Fixpoint has_surrogate (bs : list Z) : bool :=
  match bs with
  | [] => false
  | b :: rest =>
      match rest with
      | b' :: _ => (b =? 237) && (160 <=? b') && (b' <=? 191)
      | [] => false
      end
      || has_surrogate rest
  end.

(** [s.encode("utf-8")]: the bytes held, unless a surrogate is among the
    code points ("surrogates not allowed"). *)
Definition encode_utf8 (s : string) : outcome (list Z) :=
  if has_surrogate (encode s) then Raise UnicodeEncodeError else Ret (encode s).

(** [int(s, 16)] on a string of hexadecimal digits. *)
Definition hex_value (c : ascii) : Z :=
  let n := Z.of_nat (nat_of_ascii c) in
  if (48 <=? n) && (n <=? 57) then n - 48
  else if (97 <=? n) && (n <=? 102) then n - 87
  else if (65 <=? n) && (n <=? 70) then n - 55
  else 0.
Definition int_of_hex (s : string) : Z :=
  fold_left (fun acc c => acc * 16 + hex_value c) (list_ascii_of_string s) 0.

(** The decimal text of an int. *)
Definition of_int (n : Z) : string := pretty n.

(** [str(n)] for an int: CPython refuses to convert an int whose decimal
    text has more than [sys.int_info.default_max_str_digits] digits (the sign
    is not counted), a limit the program leaves at its default. *)
Definition max_str_digits : Z := 4300.

Definition str_of_int (n : Z) : outcome string :=
  if max_str_digits <? Z.of_nat (String.length (of_int (Z.abs n)))
  then Raise ValueError
  else Ret (of_int n).

(** A decimal field zero-padded on the left to [width] characters. *)
Definition zfill (width : nat) (s : string) : string :=
  string_of_list_ascii (repeat "0"%char (width - String.length s)) +:+ s.

(** [sep.join(parts)] *)
Fixpoint join (sep : string) (parts : list string) : string :=
  match parts with
  | [] => ""
  | [p] => p
  | p :: rest => p +:+ sep +:+ join sep rest
  end.

(** [s.replace(old, new)]: every non-overlapping occurrence, left to
    right ([old] non-empty). *)
Fixpoint strip_prefix (p s : string) : option string :=
  match p, s with
  | EmptyString, _ => Some s
  | String a p', String b s' => if Ascii.eqb a b then strip_prefix p' s' else None
  | String _ _, EmptyString => None
  end.

Fixpoint replace_go (skip : nat) (old new s : string) : string :=
  match s with
  | EmptyString => EmptyString
  | String c s' =>
      match skip with
      | S k => replace_go k old new s'
      | O =>
          match strip_prefix old s with
          | Some _ => new +:+ replace_go (String.length old - 1) old new s'
          | None => String c (replace_go 0 old new s')
          end
      end
  end.

Definition replace (old new s : string) : string := replace_go 0 old new s.

End Str.

(** ** Formatting a float with a fixed number of decimals *)

Module Fmt.
Local Open Scope Z_scope.

(** The integer nearest to [num / den], ties to the even one. *)
Definition round_half_even (num den : Z) : Z :=
  let q := num / den in
  match 2 * (num mod den) ?= den with
  | Lt => q
  | Gt => q + 1
  | Eq => if Z.even q then q else q + 1
  end.

(** The last [d] decimal digits of [n], most significant first. *)
Fixpoint frac_digits (d : nat) (n : Z) : string :=
  match d with
  | O => ""
  | S d' =>
      frac_digits d' (n / 10)
      +:+ String (ascii_of_nat (Z.to_nat (48 + n mod 10))) ""
  end.

(** [n / 10^d] written with exactly [d] decimals. *)
Definition decimal (d : nat) (n : Z) : string :=
  pretty (n / 10 ^ Z.of_nat d) +:+
  (if (d =? 0)%nat then "" else "." +:+ frac_digits d n).

(** [format(x, ".{d}f")]: the exact binary value, correctly rounded to
    [d] decimals; the sign is kept even when the digits are all zero. *)
Definition fixed (d : nat) (x : float) : string :=
  match Prim2SF x with
  | S754_nan => "nan"
  | S754_infinity s => if s then "-inf" else "inf"
  | S754_zero s => (if s then "-" else "") +:+ decimal d 0
  | S754_finite s m e =>
      let n := round_half_even (Z.pos m * 10 ^ Z.of_nat d * 2 ^ Z.max e 0)
                               (2 ^ Z.max (- e) 0) in
      (if s then "-" else "") +:+ decimal d n
  end.

End Fmt.

(** ** The clock *)

(** What [datetime.utcnow()] returns. *)
Record datetime : Type := {
  year : Z; month : Z; day : Z;
  hour : Z; minute : Z; second : Z; microsecond : Z
}.

(** [t.strftime("%Y%m%d%H%M")] *)
Definition strftime_YmdHM (t : datetime) : string :=
  Str.of_int (year t) +:+ Str.zfill 2 (Str.of_int (month t))
  +:+ Str.zfill 2 (Str.of_int (day t)) +:+ Str.zfill 2 (Str.of_int (hour t))
  +:+ Str.zfill 2 (Str.of_int (minute t)).

(** ** The program's tables *)

Open Scope string_scope.

Definition EMISSION_FACTORS : gmap string float :=
  list_to_map
    [ ("Electronics (phone, laptop)", 0.30%float);
      ("Clothing (fast fashion)", 0.18%float);
      ("Clothing (sustainable)", 0.10%float);
      ("Groceries / Food (average)", 0.22%float);
      ("Groceries / Plant-based", 0.15%float);
      ("Groceries / Animal-based", 0.35%float);
      ("Flight / Travel booking (ticket)", 0.55%float);
      ("Furniture / Home goods", 0.28%float);
      ("Cosmetics / Personal care", 0.12%float);
      ("Packaged goods", 0.14%float);
      ("Books / Media", 0.09%float);
      ("Sporting goods / Outdoor", 0.20%float);
      ("Services / Subscriptions", 0.04%float);
      ("Misc / Other", 0.16%float) ].

Definition DISTANCE_MULTIPLIERS : gmap string float :=
  list_to_map
    [ ("Local (same city)", 1.00%float);
      ("National (within country)", 1.10%float);
      ("International (overseas)", 1.40%float) ].

(** [KG_TO_TONNES = 1/1000]: true division of two ints, correctly rounded. *)
Definition KG_TO_TONNES : float := (1 / 1000)%float.

(** ** Core calculation *)

Definition estimate_emission (category : string) (price_usd : float)
    (quantity : Z) (distance_level : string) (weight_kg : option float)
    (shipping_speed : string) : outcome float :=
  fallback ← Py.getitem EMISSION_FACTORS "Misc / Other";
  let factor := Py.get EMISSION_FACTORS category fallback in
  q ← Py.float_of_int quantity;
  let base := (price_usd * factor * q)%float in
  let multiplier := Py.get DISTANCE_MULTIPLIERS distance_level 1.0%float in
  let result := (base * multiplier)%float in
  (* shipping speed penalty *)
  let result :=
    if String.eqb shipping_speed "Express / Overnight" then (result * 1.15)%float
    else if String.eqb shipping_speed "Two-day" then (result * 1.07)%float
    else result in
  (* weight influence: [if weight_kg and weight_kg > 0] *)
  let result :=
    match weight_kg with
    | Some w =>
        if Py.float_bool w && PrimFloat.ltb 0 w
        then (result + PrimFloat.sqrt w * 1.5)%float
        else result
    | None => result
    end in
  mret (Py.max result 0.0%float).


(** ** Message templates *)

Definition FEEDBACK_TEMPLATES : list string :=
  [ "Oh look — you bought {item}. The planet is so thrilled.";
    "Congrats on acquiring {item}! Earth will remember... briefly.";
    "Nice choice: {item}. Your carbon footprint applauds you silently.";
    "You ordered {item}. If guilt were measurable, it'd be in tonnes.";
    "One small purchase for you, one medium sigh from the atmosphere.";
    "You just added {item} to cart. The clouds sent a thank-you card (unsigned)." ].

(** A tip template: the [categories] entry of its condition ([None] for
    an unconditional tip) and its text. *)
Definition TIPS_TEMPLATES : list (option (list string) * string) :=
  [ (None, "Try second-hand or refurbished for {category}. Vintage has personality and smaller emissions.");
    (None, "Repair before replace — local repair cafes do miracles for {category}.");
    (Some ["Flight / Travel booking (ticket)"],
     "If it's a flight: consider trains, or bundle trips and fly less often to cut emissions.");
    (Some ["Electronics (phone, laptop)"],
     "For electronics: keep it 3–5 years longer, and recycle responsibly when done.");
    (Some ["Clothing (fast fashion)"; "Clothing (sustainable)"],
     "Choose natural fibers or properly certified sustainable brands for long-term wear.");
    (Some ["Groceries / Animal-based"],
     "Swap one animal-based meal a week for plant-based — small change, real impact.");
    (Some ["Furniture / Home goods"],
     "For furniture, buy solid and locally-made — heavy items travel the world already.");
    (Some ["Packaged goods"],
     "Avoid single-use packaging: bring your own container or buy in bulk.");
    (None, "Turn off fast shipping — slower delivery reduces freight emissions.");
    (None, "If you're feeling guilty, opt for high-quality and fewer items; it outlives the trend cycles.");
    (None, "Check the brand's transparency reports — transparency often means better practices.") ].

Definition PUNCHLINES : list string :=
  [ "(Future you owes present you an explanation.)";
    "(Your carbon spreadsheet has been updated.)";
    "(Mood: fashionable, atmosphere: not so much.)";
    "(This tip brought to you with minimal irony.)";
    "(Do one small thing — then another tomorrow.)" ].

Definition SARCASTIC_SUFFIXES : list string :=
  [ "(Your carbon ledger has been updated.)";
    "(No refunds accepted from atmosphere.)";
    "(Sustainability: now available as an optional extra.)";
    "(Ask again in 5–10 business years.)";
    "(This message brought to you by fossil fuels.)" ].

(** ** Utility functions *)

(** The values the form passes to [deterministic_seed]. *)
Inductive pyval : Type :=
  | PyStr (s : string)
  | PyInt (n : Z)
  | PyFloat (x : float).

Section Seed.

(** [repr] of a float (the shortest decimal string that reads back as the
    same float) belongs to the Python runtime; the seed only feeds its
    result to the hash. *)
Variable float_repr : float -> string.

(** [str(v)] *)
Definition str (v : pyval) : outcome string :=
  match v with
  | PyStr s => Ret s
  | PyInt n => Str.str_of_int n
  | PyFloat x => Ret (float_repr x)
  end.

(** ["|".join(map(str, parts))]: the parts are converted from left to
    right, and the first conversion that raises ends the call. *)
Definition join_parts (parts : list pyval) : outcome string :=
  texts ← mapM str parts;
  mret (Str.join "|" texts).

(** [deterministic_seed], applied to the list of its arguments, with the
    clock reading made explicit. *)
Definition deterministic_seed (now : datetime) (parts : list pyval) : outcome Z :=
  base ← join_parts parts;
  let minute := strftime_YmdHM now in
  bytes ← Str.encode_utf8 (base +:+ minute);
  mret (Str.int_of_hex (SHA256.hexdigest bytes) mod 2 ^ 32)%Z.

End Seed.

Definition format_kg (kg : float) : string :=
  if PrimFloat.ltb kg 1 then Fmt.fixed 0 (kg * 1000)%float +:+ " g CO2e"
  else Fmt.fixed 2 kg +:+ " kg CO2e".

Definition format_tonnes (kg : float) : string :=
  let t := (kg * KG_TO_TONNES)%float in
  Fmt.fixed 3 t +:+ " t CO2e".

(** ** Message generation *)

(** [tmpl.format(item=item_name)]: the templates hold no brace other than
    those of the [{item}] field, which is replaced by the text as it is. *)
Definition format_item (tmpl item_name : string) : string :=
  Str.replace "{item}" item_name tmpl.

Definition intensity (kg_co2 : float) : string :=
  if PrimFloat.ltb kg_co2 0.5 then "mild"
  else if PrimFloat.ltb kg_co2 5 then "noticeable"
  else if PrimFloat.ltb kg_co2 50 then "strong"
  else "epic".

Definition intensity_map : gmap string (list string) :=
  list_to_map
    [ ("mild", ["Barely a ripple."; "You could buy this daily and still be forgettable."]);
      ("noticeable", ["A proper puff of CO2."; "You just made a small but measurable dent."]);
      ("strong", ["That's the kind of purchase museums will catalog."; "Atmosphere: concerned."]);
      ("epic", ["Monumental. The clouds sent flowers.";
                "You unlocked a carbon achievement: 'The Tower'."]) ].

Definition choose_feedback (fuel : nat) (item_name category : string)
    (kg_co2 : float) (seed_val : Z) : outcome string :=
  let r := MT19937.Random seed_val in
  '(tmpl, r) ← MT19937.choice fuel FEEDBACK_TEMPLATES r;
  '(suffix, r) ← MT19937.choice fuel SARCASTIC_SUFFIXES r;
  pool ← Py.getitem intensity_map (intensity kg_co2);
  '(line, r) ← MT19937.choice fuel pool r;
  mret (format_item tmpl item_name +:+ " " +:+ line +:+ " " +:+ suffix).

(** [category in cats] *)
Definition str_in (x : string) (l : list string) : bool := existsb (String.eqb x) l.

(** The conditional suggestions of [choose_tip], appended in program order. *)
Definition tip_extras (distance : string) (weight_kg : option float)
    (shipping_speed : string) : list string :=
  let extras : list string := [] in
  let extras :=
    if String.eqb shipping_speed "Express / Overnight"
    then (extras ++ ["Skip express shipping next time — it's pricey for the planet."])%list
    else extras in
  let extras :=
    match weight_kg with
    | Some w =>
        if Py.float_bool w && PrimFloat.ltb 10 w
        then (extras ++ ["For heavy items, prefer consolidated shipping or local pickup."])%list
        else extras
    | None => extras
    end in
  if String.eqb distance "International (overseas)"
  then (extras ++ ["Check if a local equivalent exists to avoid long-haul transport."])%list
  else extras.

Definition tip_candidates (category : string) : list string :=
  let candidates :=
    map snd (List.filter (fun ct => match fst ct with
                                    | None => true
                                    | Some cats => str_in category cats
                                    end) TIPS_TEMPLATES) in
  match candidates with
  | [] => map snd TIPS_TEMPLATES
  | _ => candidates
  end.

Definition choose_tip (fuel : nat) (category distance : string)
    (weight_kg : option float) (shipping_speed : string) (seed_val : Z)
    : outcome string :=
  let r := MT19937.Random (seed_val + 7) in
  let candidates := tip_candidates category in
  '(tip, r) ← MT19937.choice fuel candidates r;
  let tip := Str.replace "{category}" category tip in
  let extras := tip_extras distance weight_kg shipping_speed in
  '(punch, r) ← MT19937.choice fuel PUNCHLINES r;
  let tip :=
    match extras with
    | [] => tip
    | _ => tip +:+ " " +:+ Str.join " " (take 2 extras)
    end in
  mret (tip +:+ " " +:+ punch).

(** ** The specification's statements, as definitions

    What the specification says the functions compute, written from its
    words, to be compared with the functions above. *)

(** The emission factor of a category, the one of "Misc / Other" when the
    category is unknown. *)
Definition category_factor (category : string) : float :=
  default (default 0%float (EMISSION_FACTORS !! "Misc / Other"))
          (EMISSION_FACTORS !! category).

Definition distance_multiplier (distance_level : string) : float :=
  default 1.0%float (DISTANCE_MULTIPLIERS !! distance_level).

(** 1.15 for Express, 1.07 for Two-day and 1.00 for Standard. *)
Definition speed_multiplier (shipping_speed : string) : float :=
  if String.eqb shipping_speed "Express / Overnight" then 1.15%float
  else if String.eqb shipping_speed "Two-day" then 1.07%float
  else 1.00%float.

(** [sqrt(weightKg) * 1.5] when the weight is present and [> 0], 0 otherwise. *)
Definition weight_term (weight_kg : option float) : float :=
  match weight_kg with
  | Some w => if PrimFloat.ltb 0 w then (PrimFloat.sqrt w * 1.5)%float else 0%float
  | None => 0%float
  end.

(** The larger of 0 and [x]. *)
Definition max0 (x : float) : float := if PrimFloat.ltb x 0 then 0%float else x.

(** The formula of the specification, on the quantity as a float. *)
Definition estimate_formula (category : string) (price_usd q : float)
    (distance_level : string) (weight_kg : option float)
    (shipping_speed : string) : float :=
  max0 (price_usd * category_factor category * q
        * distance_multiplier distance_level * speed_multiplier shipping_speed
        + weight_term weight_kg)%float.

(** The ints that convert to a float: those that round to less than
    [2^1024]. *)
Definition float_range : Z := (2 ^ 1024 - 2 ^ 970)%Z.

(** A weight as the form gives it: absent, or not negative. *)
Definition valid_weight (weight_kg : option float) : Prop :=
  match weight_kg with
  | Some w => PrimFloat.leb 0 w = true
  | None => True
  end.

(** An absent weight counts as zero. *)
Definition weight_value (weight_kg : option float) : float :=
  match weight_kg with
  | Some w => w
  | None => 0%float
  end.

(** The steps of [estimate_emission] after the distance multiplier, named. *)
Definition speed_step (shipping_speed : string) (result : float) : float :=
  if String.eqb shipping_speed "Express / Overnight" then (result * 1.15)%float
  else if String.eqb shipping_speed "Two-day" then (result * 1.07)%float
  else result.

Definition weight_step (weight_kg : option float) (result : float) : float :=
  match weight_kg with
  | Some w =>
      if Py.float_bool w && PrimFloat.ltb 0 w
      then (result + PrimFloat.sqrt w * 1.5)%float
      else result
  | None => result
  end.

(** The intensity bands of the specification. *)
Inductive band : Type := Mild | Noticeable | Strong | Epic.

Definition band_name (b : band) : string :=
  match b with
  | Mild => "mild"
  | Noticeable => "noticeable"
  | Strong => "strong"
  | Epic => "epic"
  end.

(** The pool of remarks of the band a value falls in. *)
Definition intensity_pool (kg_co2 : float) : list string :=
  default [] (intensity_map !! intensity kg_co2).

(** The string form of a field: the text itself, the decimal text of an
    int, the [repr] of a float. *)
Definition string_form (float_repr : float -> string) (v : pyval) : string :=
  match v with
  | PyStr s => s
  | PyInt n => Str.of_int n
  | PyFloat x => float_repr x
  end.

(** The fields whose ints have at most 4300 digits. *)
Definition within_str_digits (parts : list pyval) : Prop :=
  forall n, In (PyInt n) parts -> (Z.abs n < 10 ^ Str.max_str_digits)%Z.

(** The clock readings that fall in the same minute. *)
Definition same_minute (t t' : datetime) : Prop :=
  year t = year t' /\ month t = month t' /\ day t = day t'
  /\ hour t = hour t' /\ minute t = minute t'.

(** The three conditional clauses of a tip, in the priority order of the
    specification, and the first two of those whose condition holds. *)
Definition first_two_qualifying (express heavy international : bool) : list string :=
  take 2
    (map snd
       (List.filter fst
          [ (express, "Skip express shipping next time — it's pricey for the planet.");
            (heavy, "For heavy items, prefer consolidated shipping or local pickup.");
            (international, "Check if a local equivalent exists to avoid long-haul transport.") ])).

(** [choose_feedback] with its draws in the order of the specification's
    closing paragraph: template, then intensity line, then suffix. *)
Definition choose_feedback_in_stated_order (fuel : nat) (item_name category : string)
    (kg_co2 : float) (seed_val : Z) : outcome string :=
  let r := MT19937.Random seed_val in
  '(tmpl, r) ← MT19937.choice fuel FEEDBACK_TEMPLATES r;
  pool ← Py.getitem intensity_map (intensity kg_co2);
  '(line, r) ← MT19937.choice fuel pool r;
  '(suffix, r) ← MT19937.choice fuel SARCASTIC_SUFFIXES r;
  mret (format_item tmpl item_name +:+ " " +:+ line +:+ " " +:+ suffix).

(** The label the form passes to [choose_feedback]: [item_name or category]. *)
Definition feedback_label (item_name category : string) : string :=
  match item_name with
  | "" => category
  | _ => item_name
  end.

(** ** Reading binary64 numbers: order, rounding, values

    The definitions the statements about floating-point results are written
    with.  [SpecFloat] gives the operations; what follows names the order,
    the result of rounding and the value of a number. *)

Module FloatSpec.
Local Open Scope Z_scope.

(** A non-NaN number is placed by three integers compared in order: its
    class (the sign, with the infinities outside), then exponent and
    mantissa, both counted downwards for a negative number. *)
Definition key (x : spec_float) : option (Z * Z * Z) :=
  match x with
  | S754_nan => None
  | S754_infinity true => Some (-2, 0, 0)
  | S754_finite true m e => Some (-1, - e, - Z.pos m)
  | S754_zero _ => Some (0, 0, 0)
  | S754_finite false m e => Some (1, e, Z.pos m)
  | S754_infinity false => Some (2, 0, 0)
  end.

Definition lex (k k' : Z * Z * Z) : comparison :=
  let '(a, b, c) := k in
  let '(a', b', c') := k' in
  match a ?= a' with
  | Eq => match b ?= b' with Eq => c ?= c' | r => r end
  | r => r
  end.

Definition lex_lt (k k' : Z * Z * Z) : Prop :=
  let '(a, b, c) := k in
  let '(a', b', c') := k' in
  a < a' \/ (a = a' /\ (b < b' \/ (b = b' /\ c < c'))).

Definition lex_le (k k' : Z * Z * Z) : Prop :=
  let '(a, b, c) := k in
  let '(a', b', c') := k' in
  a < a' \/ (a = a' /\ (b < b' \/ (b = b' /\ c <= c'))).

(** [x <= y] and [x < y] on specification floats, as propositions. *)
Definition sf_le (x y : spec_float) : Prop :=
  exists k k', key x = Some k /\ key y = Some k' /\ lex_le k k'.
Definition sf_lt (x y : spec_float) : Prop :=
  exists k k', key x = Some k /\ key y = Some k' /\ lex_lt k k'.

Definition digits (m : positive) : Z := Z.pos (digits2_pos m).

(** Where [rem / b] lies in the unit interval. *)
Definition loc_of (rem b : Z) : location :=
  if rem =? 0 then loc_Exact else loc_Inexact (2 * rem ?= b).

(** A shift record that stands for [M / 2^K]. *)
Definition stands (M K : Z) (r : shr_record) : Prop :=
  shr_m r = M / 2 ^ K /\ loc_of_shr_record r = loc_of (M mod 2 ^ K) (2 ^ K).

(** The exponent that [binary_round] gives to [m * 2^e]. *)
Definition expo (m : positive) (e : Z) : Z := fexp prec emax (digits m + e).

(** The mantissa: [m * 2^e / 2^expo], rounded to nearest even. *)
Definition mant (m : positive) (e : Z) : Z :=
  let E := expo m e in
  Fmt.round_half_even (Z.pos m * 2 ^ Z.max (e - E) 0) (2 ^ Z.max (E - e) 0).

(** A mantissa of at most 53 digits (or [2^53], after a carry) at an
    exponent, as a number. *)
Definition pack (s : bool) (q E : Z) : spec_float :=
  match q with
  | Z0 => S754_zero s
  | Zpos p =>
      if q <? 2 ^ 53
      then (if E <=? 971 then S754_finite s p E else S754_infinity s)
      else (if E + 1 <=? 971 then S754_finite s (2 ^ 52)%positive (E + 1)
            else S754_infinity s)
  | Zneg _ => S754_nan
  end.

Definition nonneg (x : spec_float) : Prop := sf_le (S754_zero false) x.

(** Zero or a positive finite number. *)
Definition finz (x : spec_float) : Prop :=
  match x with
  | S754_zero _ | S754_finite false _ _ => True
  | _ => False
  end.

Definition pos_finite (x : spec_float) : Prop :=
  match x with
  | S754_finite false _ _ => True
  | _ => False
  end.

(** The value of a finite non-negative number, counted in units of
    [2^-1074], the smallest positive binary64 number. *)
Definition ival (x : spec_float) : Z :=
  match x with
  | S754_finite false m e => Z.pos m * 2 ^ (e + 1074)
  | _ => 0
  end.

(** The exponent and the mantissa that [SFsqrt] gives to the root of
    [m * 2^e]. *)
Definition sqrt_expo (m : positive) (e : Z) : Z :=
  fexp prec emax (Z.div2 (digits m + e + 1)).

Definition sqrt_mant (m : positive) (e : Z) : Z :=
  let M := Z.pos m * 2 ^ (e - 2 * sqrt_expo m e) in
  let q := Z.sqrt M in
  if q <? M - q * q then q + 1 else q.

(** The order and the classes above, on primitive floats. *)
Definition fle (x y : float) : Prop := PrimFloat.leb x y = true.
Definition flt (x y : float) : Prop := PrimFloat.ltb x y = true.

(** Non-negative: [0 <= x] (so not a NaN). *)
Definition nn (x : float) : Prop := PrimFloat.leb 0 x = true.

(** Positive and finite. *)
Definition posfin (x : float) : Prop := pos_finite (Prim2SF x).

(** The same number: equal, or equal as numbers ([-0.0] and [0.0]). *)
Definition same_number (x y : float) : Prop := x = y \/ PrimFloat.eqb x y = true.

End FloatSpec.

(** ** Further notions used to state properties of the code *)

(** A finite number that is printed without a sign: [0.0] or positive. *)
Definition unsigned_finite (x : spec_float) : Prop :=
  match x with
  | S754_zero false | S754_finite false _ _ => True
  | _ => False
  end.

(** The integer whose digits [format(x, ".{d}f")] prints for such a number:
    its value times [10^d], rounded to nearest, ties to even. *)
Definition shown (d : nat) (x : spec_float) : Z :=
  (Fmt.round_half_even (FloatSpec.ival x * 10 ^ Z.of_nat d) (2 ^ 1074))%Z.

(** A clock reading as [datetime.utcnow()] gives it today: a year of four
    digits and the other fields in their ranges. *)
Definition valid_clock (t : datetime) : Prop :=
  (1000 <= year t <= 9999 /\ 1 <= month t <= 12 /\ 1 <= day t <= 31
   /\ 0 <= hour t <= 23 /\ 0 <= minute t <= 59)%Z.

(** The place of a band in the order mild, noticeable, strong, epic. *)
Definition band_rank (b : band) : nat :=
  match b with
  | Mild => 0
  | Noticeable => 1
  | Strong => 2
  | Epic => 3
  end.

(** ** The form *)

(** The constants of the three comparisons. *)
Definition CAR_KG_PER_KM : float := 0.192%float.
Definition TREE_ABSORPTION_KG_PER_YEAR : float := 21.77%float.
Definition PHONE_CHARGE_KG : float := 0.000015%float.

Module Form.

(** What one submission computes (the branch [if submitted:]) before it
    writes to the page: the seed, the estimate, the estimate after the
    pretended offset, and the two texts. *)
Record report : Type := {
  seed_val : Z;
  kg : float;
  kg_after : float;
  feedback : string;
  tip : string
}.

Definition submitted (float_repr : float -> string) (now : datetime) (fuel : nat)
    (item_name category : string) (price : float) (quantity : Z) (weight : float)
    (distance shipping_speed : string) (donate_offset : bool) : outcome report :=
  seed_val ←
    deterministic_seed float_repr now
      [PyStr item_name; PyStr category; PyFloat price; PyInt quantity;
       PyFloat weight; PyStr distance; PyStr shipping_speed];
  kg ← estimate_emission category price quantity distance
         (if PrimFloat.ltb 0 weight then Some weight else None) shipping_speed;
  (* pretend donation reduces 10% *)
  let kg_after := if donate_offset then (kg * 0.90)%float else kg in
  feedback ← choose_feedback fuel (feedback_label item_name category) category
               kg_after seed_val;
  tip ← choose_tip fuel category distance (Some weight) shipping_speed seed_val;
  mret {| seed_val := seed_val; kg := kg; kg_after := kg_after;
          feedback := feedback; tip := tip |}.

(** The numbers of the three comparisons written under the estimate. *)
Definition car_km (kg_after : float) : float :=
  if PrimFloat.ltb 0 CAR_KG_PER_KM then (kg_after / CAR_KG_PER_KM)%float else 0%float.

Definition tree_years (kg_after : float) : float :=
  (kg_after / TREE_ABSORPTION_KG_PER_YEAR)%float.

Definition phone_charges (kg_after : float) : float :=
  (kg_after / PHONE_CHARGE_KG)%float.

(** The session's history: [history.insert(0, entry)] at each submission,
    and the slice [history[:7]] that is listed. *)
Definition history_insert {A} (history : list A) (entry : A) : list A :=
  entry :: history.

Definition history_listed {A} (history : list A) : list A := take 7 history.

End Form.

(** A shift record that stands for the quotient [N / D]. *)
Definition stands_for (N D : Z) (r : shr_record) : Prop :=
  shr_m r = (N / D)%Z
  /\ loc_of_shr_record r = FloatSpec.loc_of (N mod D)%Z D.

(** * Properties *)

(** ** The order of binary64 numbers *)

Module FloatOrder.
Import FloatSpec.
Local Open Scope Z_scope.

Lemma SFcompare_key (x y : spec_float) :
  SFcompare x y =
  match key x, key y with
  | Some k, Some k' => Some (lex k k')
  | _, _ => None
  end.
Proof.
  destruct x as [[] | [] | | [] mx ex], y as [[] | [] | | [] my ey];
    cbn -[Z.compare]; try reflexivity.
  rewrite Z.compare_refl, !Z.compare_opp, (Z.compare_antisym ex ey).
  destruct (ex ?= ey); cbn; try reflexivity.
  rewrite Pos.compare_cont_spec, (Pos.compare_antisym mx my).
  now destruct (mx ?= my)%positive.
Qed.

Lemma lex_Lt k k' : lex k k' = Lt <-> lex_lt k k'.
Proof.
  destruct k as [[a b] c], k' as [[a' b'] c']. cbn -[Z.compare].
  destruct (Z.compare_spec a a'), (Z.compare_spec b b'), (Z.compare_spec c c');
    split; intros; try discriminate; try reflexivity; lia.
Qed.

Lemma lex_not_Gt k k' : lex k k' <> Gt <-> lex_le k k'.
Proof.
  destruct k as [[a b] c], k' as [[a' b'] c']. cbn -[Z.compare].
  destruct (Z.compare_spec a a'), (Z.compare_spec b b'), (Z.compare_spec c c');
    split; intros; try congruence; try lia.
Qed.

Lemma SFleb_le x y : SFleb x y = true <-> sf_le x y.
Proof.
  unfold SFleb, sf_le. rewrite SFcompare_key.
  destruct (key x) as [k|], (key y) as [k'|]; split;
    try discriminate; try (intros (? & ? & ? & ? & ?); discriminate).
  - intros H. exists k, k'. repeat split. apply lex_not_Gt.
    destruct (lex k k'); congruence.
  - intros (? & ? & [= <-] & [= <-] & H). apply lex_not_Gt in H.
    destruct (lex k k'); congruence.
Qed.

Lemma SFltb_lt x y : SFltb x y = true <-> sf_lt x y.
Proof.
  unfold SFltb, sf_lt. rewrite SFcompare_key.
  destruct (key x) as [k|], (key y) as [k'|]; split;
    try discriminate; try (intros (? & ? & ? & ? & ?); discriminate).
  - intros H. exists k, k'. repeat split. apply lex_Lt.
    destruct (lex k k'); congruence.
  - intros (? & ? & [= <-] & [= <-] & H). apply lex_Lt in H. now rewrite H.
Qed.

Lemma SFeqb_key x y :
  SFeqb x y = true <-> exists k, key x = Some k /\ key y = Some k.
Proof.
  unfold SFeqb. rewrite SFcompare_key.
  destruct (key x) as [[[a b] c]|], (key y) as [[[a' b'] c']|]; split;
    try discriminate; try (intros (? & ? & ?); discriminate).
  - cbn -[Z.compare].
    destruct (Z.compare_spec a a'), (Z.compare_spec b b'), (Z.compare_spec c c');
      try discriminate. subst. eauto.
  - intros (k & H1 & H2). rewrite <- H2 in H1. injection H1 as -> -> ->.
    cbn -[Z.compare]. now rewrite !Z.compare_refl.
Qed.

Lemma le_trans x y z : sf_le x y -> sf_le y z -> sf_le x z.
Proof.
  intros (k1 & k2 & H1 & H2 & H) (k2' & k3 & H2' & H3 & H').
  rewrite H2 in H2'. injection H2' as <-.
  exists k1, k3. repeat split; try assumption.
  destruct k1 as [[]], k2 as [[]], k3 as [[]]. cbn in *. lia.
Qed.

Lemma lt_le_trans x y z : sf_lt x y -> sf_le y z -> sf_lt x z.
Proof.
  intros (k1 & k2 & H1 & H2 & H) (k2' & k3 & H2' & H3 & H').
  rewrite H2 in H2'. injection H2' as <-.
  exists k1, k3. repeat split; try assumption.
  destruct k1 as [[]], k2 as [[]], k3 as [[]]. cbn in *. lia.
Qed.

Lemma le_lt_trans x y z : sf_le x y -> sf_lt y z -> sf_lt x z.
Proof.
  intros (k1 & k2 & H1 & H2 & H) (k2' & k3 & H2' & H3 & H').
  rewrite H2 in H2'. injection H2' as <-.
  exists k1, k3. repeat split; try assumption.
  destruct k1 as [[]], k2 as [[]], k3 as [[]]. cbn in *. lia.
Qed.

Lemma lt_not_le x y : sf_lt x y -> ~ sf_le y x.
Proof.
  intros (k1 & k2 & H1 & H2 & H) (k2' & k1' & H2' & H1' & H').
  rewrite H2 in H2'. rewrite H1 in H1'. injection H2' as <-. injection H1' as <-.
  destruct k1 as [[]], k2 as [[]]. cbn in *. lia.
Qed.

Lemma le_refl x : x <> S754_nan -> sf_le x x.
Proof.
  intros H. destruct (key x) as [[[a b] c]|] eqn:E.
  - exists (a, b, c), (a, b, c). repeat split; trivial. cbn. lia.
  - destruct x as [ | [] | | []]; try discriminate. congruence.
Qed.

(** The same on primitive floats. *)
Lemma leb_le (x y : float) : PrimFloat.leb x y = true <-> sf_le (Prim2SF x) (Prim2SF y).
Proof. rewrite leb_spec. apply SFleb_le. Qed.

Lemma ltb_lt (x y : float) : PrimFloat.ltb x y = true <-> sf_lt (Prim2SF x) (Prim2SF y).
Proof. rewrite ltb_spec. apply SFltb_lt. Qed.

Lemma ltb_false_of_leb (x y : float) :
  PrimFloat.leb x y = true -> PrimFloat.ltb y x = false.
Proof.
  intros H%leb_le. destruct (PrimFloat.ltb y x) eqn:E; trivial.
  apply ltb_lt in E. now apply lt_not_le in E.
Qed.

End FloatOrder.

(** ** Rounding to nearest even *)

Module Rounding.
Import FloatSpec FloatOrder.
Local Open Scope Z_scope.

Lemma digits_bounds (m : positive) :
  2 ^ (digits m - 1) <= Z.pos m < 2 ^ digits m.
Proof.
  unfold digits. induction m as [p IH | p IH | ]; cbn [digits2_pos].
  - rewrite Pos2Z.inj_succ, (Pos2Z.inj_xI p).
    replace (Z.succ (Z.pos (digits2_pos p)) - 1) with (Z.succ (Z.pos (digits2_pos p) - 1)) by lia.
    rewrite !Z.pow_succ_r by lia. lia.
  - rewrite Pos2Z.inj_succ, (Pos2Z.inj_xO p).
    replace (Z.succ (Z.pos (digits2_pos p)) - 1) with (Z.succ (Z.pos (digits2_pos p) - 1)) by lia.
    rewrite !Z.pow_succ_r by lia. lia.
  - cbn. lia.
Qed.

Lemma digits_pos (m : positive) : 1 <= digits m.
Proof. unfold digits. lia. Qed.

(** The number of digits is determined by the bounds. *)
Lemma digits_unique (m : positive) (d : Z) :
  2 ^ (d - 1) <= Z.pos m < 2 ^ d -> digits m = d.
Proof.
  intros [Hl Hu]. pose proof (digits_bounds m) as [Hl' Hu'].
  pose proof (digits_pos m).
  assert (0 < d). { destruct (Z.ltb_spec 0 d); trivial.
    rewrite Z.pow_neg_r in Hl by lia.
    assert (2 ^ d <= 2 ^ 0) by (destruct (Z.ltb_spec d 0);
      [rewrite Z.pow_neg_r by lia; cbn; lia | apply Z.pow_le_mono_r; lia]).
    cbn in *. lia. }
  destruct (Z.lt_trichotomy (digits m) d) as [Hlt | [Heq | Hgt]]; trivial.
  - assert (2 ^ digits m <= 2 ^ (d - 1)) by (apply Z.pow_le_mono_r; lia). lia.
  - assert (2 ^ d <= 2 ^ (digits m - 1)) by (apply Z.pow_le_mono_r; lia). lia.
Qed.

Lemma iter_pos_nat {A} (f : A -> A) (p : positive) (x : A) :
  SpecFloat.iter_pos f p x = Nat.iter (Pos.to_nat p) f x.
Proof.
  revert x. induction p as [p IH | p IH | ]; intros x; cbn [SpecFloat.iter_pos].
  - rewrite !IH, Pos2Nat.inj_xI.
    replace (S (2 * Pos.to_nat p)) with (Pos.to_nat p + (Pos.to_nat p + 1))%nat by lia.
    now rewrite !Nat.iter_add.
  - rewrite !IH, Pos2Nat.inj_xO.
    replace (2 * Pos.to_nat p)%nat with (Pos.to_nat p + Pos.to_nat p)%nat by lia.
    now rewrite Nat.iter_add.
  - reflexivity.
Qed.

Lemma round_loc_of (a b : Z) :
  0 < b ->
  round_nearest_even (a / b) (loc_of (a mod b) b) = Fmt.round_half_even a b.
Proof.
  intros Hb. unfold loc_of, Fmt.round_half_even.
  destruct (Z.eqb_spec (a mod b) 0) as [-> | Hne]; cbn [round_nearest_even].
  - cbn. now destruct b.
  - now destruct (2 * (a mod b) ?= b).
Qed.

Lemma shr_1_nonneg (m : Z) (rb sb : bool) :
  0 <= m ->
  shr_1 (Build_shr_record m rb sb) = Build_shr_record (m / 2) (Z.odd m) (rb || sb).
Proof.
  intros Hm. destruct m as [ | [p | p | ] | p]; try lia; cbn [shr_1 Z.odd].
  - reflexivity.
  - f_equal. rewrite (Pos2Z.inj_xI p). apply (Z.div_unique _ _ _ 1); lia.
  - f_equal. rewrite (Pos2Z.inj_xO p). apply (Z.div_unique _ _ _ 0); lia.
  - reflexivity.
Qed.

Lemma stands_step (M K : Z) (r : shr_record) :
  0 <= M -> 0 <= K -> stands M K r -> stands M (K + 1) (shr_1 r).
Proof.
  intros HM HK [Hm Hloc]. destruct r as [m rb sb]. cbn [shr_m] in Hm.
  assert (Hb : 0 < 2 ^ K) by (apply Z.pow_pos_nonneg; lia).
  assert (Hm0 : 0 <= m) by (subst m; apply Z.div_pos; lia).
  rewrite shr_1_nonneg by assumption.
  pose proof (Z.div_mod M (2 ^ K) ltac:(lia)) as HMd.
  pose proof (Z.mod_pos_bound M (2 ^ K) Hb) as Hrem.
  pose proof (Z.div_mod m 2 ltac:(lia)) as Hmd.
  pose proof (Z.mod_pos_bound m 2 ltac:(lia)) as Hbit.
  rewrite <- Hm in HMd.
  set (rem := M mod 2 ^ K) in *. set (b := 2 ^ K) in *.
  assert (Hpow : 2 ^ (K + 1) = 2 * b) by (unfold b; rewrite Z.pow_add_r by lia; lia).
  assert (Hq : M / 2 ^ (K + 1) = m / 2).
  { rewrite Hpow. symmetry. apply (Z.div_unique _ _ _ (rem + b * (m mod 2))); nia. }
  assert (Hr : M mod 2 ^ (K + 1) = rem + b * (m mod 2)).
  { rewrite Hpow. symmetry. apply (Z.mod_unique _ _ (m / 2)); nia. }
  split; cbn [shr_m]; [now rewrite Hq | ].
  rewrite Hr, Hpow.
  assert (Hs : (rb || sb) = negb (rem =? 0)).
  { unfold loc_of in Hloc. destruct (rem =? 0), rb, sb; cbn in *; congruence. }
  rewrite Hs, Zmod_odd. unfold loc_of.
  destruct (Z.odd m), (Z.eqb_spec rem 0) as [H0 | H0]; cbn [negb loc_of_shr_record];
    match goal with
    | |- context [?x =? 0] => destruct (Z.eqb_spec x 0); try lia
    end;
    try reflexivity;
    match goal with
    | |- context [?x ?= ?y] => destruct (Z.compare_spec x y); try lia
    end; reflexivity.
Qed.

Lemma stands_iter (M : Z) (k : nat) :
  0 <= M ->
  stands M (Z.of_nat k) (Nat.iter k shr_1 (Build_shr_record M false false)).
Proof.
  intros HM. induction k as [ | k IH].
  - cbn. split; cbn.
    + now rewrite Z.div_1_r.
    + now rewrite Z.mod_1_r.
  - rewrite Nat2Z.inj_succ, <- Z.add_1_r. cbn [Nat.iter].
    apply stands_step; trivial. lia.
Qed.

(** Shifting an exact integer right by [K] digits and rounding the
    result to nearest even is rounding [M / 2^K]. *)
Lemma shr_exact (M e K : Z) :
  0 <= M -> 0 <= K ->
  let r := shr (Build_shr_record M false false) e K in
  snd r = e + K /\
  round_nearest_even (shr_m (fst r)) (loc_of_shr_record (fst r))
  = Fmt.round_half_even M (2 ^ K).
Proof.
  intros HM HK. destruct K as [ | p | p]; try lia; cbn [shr fst snd].
  - split; [lia | ]. cbn. unfold Fmt.round_half_even.
    rewrite Z.mod_1_r, Z.div_1_r. reflexivity.
  - split; [reflexivity | ].
    rewrite iter_pos_nat.
    destruct (stands_iter M (Pos.to_nat p) HM) as [Hm Hloc].
    rewrite positive_nat_Z in Hm, Hloc.
    rewrite Hm, Hloc. apply round_loc_of. now apply Z.pow_pos_nonneg.
Qed.

Lemma fexp_eq (x : Z) : fexp prec emax x = Z.max (x - 53) (-1074).
Proof. reflexivity. Qed.

Lemma digits_Zdigits2 (m : positive) : Zdigits2 (Z.pos m) = digits m.
Proof. reflexivity. Qed.

Lemma digits_le (m : positive) (n : Z) : Z.pos m < 2 ^ n -> digits m <= n.
Proof.
  intros H. pose proof (digits_bounds m) as [Hl _]. pose proof (digits_pos m).
  destruct (Z.leb_spec (digits m) n); trivial.
  assert (0 <= n).
  { destruct (Z.leb_spec 0 n); trivial. rewrite Z.pow_neg_r in H; lia. }
  assert (2 ^ n <= 2 ^ (digits m - 1)) by (apply Z.pow_le_mono_r; lia). lia.
Qed.

(** The second normalisation of [binary_round_aux]. *)
Lemma renormalise (s : bool) (q E : Z) :
  0 <= q <= 2 ^ 53 -> -1074 <= E ->
  (let '(mrs, e) := shr_fexp prec emax q E loc_Exact in
   match shr_m mrs with
   | Z0 => S754_zero s
   | Zpos m => if e <=? emax - prec then S754_finite s m e else S754_infinity s
   | Zneg _ => S754_nan
   end) = pack s q E.
Proof.
  intros Hq HE. unfold shr_fexp. cbn [shr_record_of_loc].
  destruct q as [ | p | p]; try lia.
  - cbn [Zdigits2]. rewrite fexp_eq.
    destruct (Z.max (0 + E - 53) (-1074) - E) eqn:Hn; try lia; reflexivity.
  - rewrite digits_Zdigits2, fexp_eq. unfold pack.
    destruct (Z.ltb_spec (Z.pos p) (2 ^ 53)) as [Hlt | Hge].
    + apply digits_le in Hlt. pose proof (digits_pos p).
      destruct (Z.max (digits p + E - 53) (-1074) - E) eqn:Hn; try lia; reflexivity.
    + assert (Hd : digits p = 54) by (apply digits_unique; cbn; lia).
      rewrite Hd. replace (Z.max (54 + E - 53) (-1074) - E) with 1 by lia.
      assert (Hp : p = (2 ^ 53)%positive) by lia. rewrite Hp.
      reflexivity.
Qed.

Lemma div_pow2_bound (m : positive) (K n : Z) :
  0 <= K -> 0 <= n -> digits m <= K + n -> Z.pos m / 2 ^ K < 2 ^ n.
Proof.
  intros HK Hn Hd. pose proof (digits_bounds m) as [_ Hu].
  apply Z.div_lt_upper_bound; [now apply Z.pow_pos_nonneg | ].
  rewrite <- Z.pow_add_r by lia.
  eapply Z.lt_le_trans; [exact Hu | ]. apply Z.pow_le_mono_r; lia.
Qed.

Lemma round_half_even_bounds (a b : Z) :
  0 < b -> a / b <= Fmt.round_half_even a b <= a / b + 1.
Proof.
  intros Hb. unfold Fmt.round_half_even.
  destruct (2 * (a mod b) ?= b); [destruct (Z.even (a / b)) | | ]; lia.
Qed.

Lemma round_half_even_exact (a b : Z) :
  0 < b -> Fmt.round_half_even (a * b) b = a.
Proof.
  intros Hb. unfold Fmt.round_half_even.
  rewrite Z.mod_mul, Z.div_mul by lia.
  destruct (Z.compare_spec (2 * 0) b); lia.
Qed.

Lemma binary_round_aux_exact (s : bool) (m : positive) (e : Z) :
  e <= expo m e ->
  binary_round_aux prec emax s (Z.pos m) e loc_Exact
  = pack s (Fmt.round_half_even (Z.pos m) (2 ^ (expo m e - e))) (expo m e).
Proof.
  intros HK. unfold binary_round_aux, shr_fexp at 1. cbn [shr_record_of_loc].
  rewrite digits_Zdigits2. fold (expo m e).
  pose proof (shr_exact (Z.pos m) e (expo m e - e) ltac:(lia) ltac:(lia)) as H.
  cbv zeta in H.
  destruct (shr {| shr_m := Z.pos m; shr_r := false; shr_s := false |} e (expo m e - e))
    as [r e'].
  cbn [fst snd] in H. destruct H as [-> ->].
  replace (e + (expo m e - e)) with (expo m e) by lia.
  apply renormalise.
  - assert (0 < 2 ^ (expo m e - e)) by (apply Z.pow_pos_nonneg; lia).
    pose proof (round_half_even_bounds (Z.pos m) (2 ^ (expo m e - e)) ltac:(lia)).
    assert (Z.pos m / 2 ^ (expo m e - e) < 2 ^ 53).
    { apply div_pow2_bound; try lia. unfold expo in *. rewrite fexp_eq in *. lia. }
    assert (0 <= Z.pos m / 2 ^ (expo m e - e)) by (apply Z.div_pos; lia).
    lia.
  - unfold expo. rewrite fexp_eq. lia.
Qed.

Lemma digits_shift (m : positive) (j : positive) :
  digits (Pos.iter xO m j) = digits m + Z.pos j
  /\ Z.pos (Pos.iter xO m j) = Z.pos m * 2 ^ Z.pos j.
Proof.
  assert (Hv : Z.pos (Pos.iter xO m j) = Z.pos m * 2 ^ Z.pos j).
  { change (Pos.iter xO m j) with (shift_pos j m).
    rewrite shift_pos_correct, Z.pow_pos_fold. lia. }
  split; trivial.
  apply digits_unique. rewrite Hv.
  pose proof (digits_bounds m) as [Hl Hu]. pose proof (digits_pos m).
  replace (digits m + Z.pos j - 1) with ((digits m - 1) + Z.pos j) by lia.
  rewrite !Z.pow_add_r by lia.
  assert (0 < 2 ^ Z.pos j) by (apply Z.pow_pos_nonneg; lia). nia.
Qed.

Lemma shl_align_le (m : positive) (e e' : Z) :
  e <= e' -> shl_align m e e' = (m, e).
Proof. intros H. unfold shl_align. destruct (e' - e) eqn:E; trivial; lia. Qed.

Lemma shl_align_gt (m : positive) (e e' : Z) :
  e' < e -> shl_align m e e' = (Pos.iter xO m (Z.to_pos (e - e')), e').
Proof.
  intros H. unfold shl_align. destruct (e' - e) as [ | p | p] eqn:E; try lia.
  do 2 f_equal. lia.
Qed.

Theorem binary_round_spec (s : bool) (m : positive) (e : Z) :
  binary_round prec emax s m e = pack s (mant m e) (expo m e).
Proof.
  unfold binary_round, mant. fold (digits m). fold (expo m e).
  destruct (Z.leb_spec e (expo m e)) as [Hle | Hgt].
  - rewrite shl_align_le, binary_round_aux_exact by lia.
    replace (Z.max (e - expo m e) 0) with 0 by lia.
    replace (Z.max (expo m e - e) 0) with (expo m e - e) by lia.
    now rewrite Z.mul_1_r.
  - rewrite shl_align_gt by lia.
    destruct (digits_shift m (Z.to_pos (e - expo m e))) as [Hd Hv].
    rewrite Z2Pos.id in Hd, Hv by lia.
    assert (HE : expo (Pos.iter xO m (Z.to_pos (e - expo m e))) (expo m e) = expo m e).
    { unfold expo at 1. rewrite Hd. unfold expo. f_equal. lia. }
    rewrite binary_round_aux_exact by lia.
    rewrite HE, Z.sub_diag, Hv.
    replace (Z.max (e - expo m e) 0) with (e - expo m e) by lia.
    now replace (Z.max (expo m e - e) 0) with 0 by lia.
Qed.

(** *** Rounding is monotone *)
Lemma round_half_even_ratio (a b a' b' : Z) :
  0 < b -> 0 < b' -> a * b' = a' * b ->
  Fmt.round_half_even a b = Fmt.round_half_even a' b'.
Proof.
  intros Hb Hb' H. unfold Fmt.round_half_even.
  pose proof (Z.div_mod a b ltac:(lia)) as Ha.
  pose proof (Z.mod_pos_bound a b Hb) as Hr.
  assert (Hq : a' / b' = a / b).
  { symmetry. apply (Z.div_unique _ _ _ (a' - b' * (a / b))); [ | lia].
    left. nia. }
  pose proof (Z.div_mod a' b' ltac:(lia)) as Ha'.
  rewrite Hq in *.
  assert (Hrr : (a mod b) * b' = (a' mod b') * b) by nia.
  destruct (Z.compare_spec (2 * (a mod b)) b), (Z.compare_spec (2 * (a' mod b')) b');
    try reflexivity; nia.
Qed.

Lemma round_half_even_mono_num (a a' b : Z) :
  0 < b -> a <= a' -> Fmt.round_half_even a b <= Fmt.round_half_even a' b.
Proof.
  intros Hb H.
  pose proof (Z.div_le_mono a a' b Hb H) as Hq.
  pose proof (round_half_even_bounds a b Hb).
  pose proof (round_half_even_bounds a' b Hb).
  destruct (Z.eq_dec (a / b) (a' / b)) as [Heq | Hne]; [ | lia].
  pose proof (Z.div_mod a b ltac:(lia)). pose proof (Z.div_mod a' b ltac:(lia)).
  unfold Fmt.round_half_even. rewrite <- Heq.
  destruct (Z.compare_spec (2 * (a mod b)) b), (Z.compare_spec (2 * (a' mod b)) b),
    (Z.even (a / b)); nia.
Qed.

Lemma mant_scaled (m : positive) (e c : Z) :
  c <= e -> c <= expo m e ->
  mant m e = Fmt.round_half_even (Z.pos m * 2 ^ (e - c)) (2 ^ (expo m e - c)).
Proof.
  intros Hc HE. unfold mant. cbv zeta.
  apply round_half_even_ratio; try (apply Z.pow_pos_nonneg; lia).
  rewrite <- !Z.mul_assoc, <- !Z.pow_add_r by lia.
  do 2 f_equal. lia.
Qed.

Lemma expo_ge (m : positive) (e : Z) : -1074 <= expo m e.
Proof. unfold expo. rewrite fexp_eq. lia. Qed.

Lemma mant_range (m : positive) (e : Z) : 0 <= mant m e <= 2 ^ 53.
Proof.
  pose proof (digits_bounds m) as [Hl Hu]. pose proof (digits_pos m).
  set (c := Z.min e (expo m e)).
  rewrite (mant_scaled m e c) by lia.
  assert (Hb : 0 < 2 ^ (expo m e - c)) by (apply Z.pow_pos_nonneg; lia).
  assert (Ha : 0 < 2 ^ (e - c)) by (apply Z.pow_pos_nonneg; lia).
  pose proof (round_half_even_bounds (Z.pos m * 2 ^ (e - c)) (2 ^ (expo m e - c)) Hb).
  assert (0 <= Z.pos m * 2 ^ (e - c) / 2 ^ (expo m e - c)) by (apply Z.div_pos; nia).
  assert (Z.pos m * 2 ^ (e - c) / 2 ^ (expo m e - c) < 2 ^ 53); [ | lia].
  apply Z.div_lt_upper_bound; trivial.
  rewrite <- Z.pow_add_r by lia.
  assert (2 ^ digits m * 2 ^ (e - c) <= 2 ^ (expo m e - c + 53)).
  { rewrite <- Z.pow_add_r by lia. apply Z.pow_le_mono_r; [lia | ].
    unfold expo. rewrite fexp_eq. lia. }
  nia.
Qed.

Lemma mant_normal (m : positive) (e : Z) :
  -1074 < expo m e -> 2 ^ 52 <= mant m e.
Proof.
  intros HE. pose proof (digits_bounds m) as [Hl Hu]. pose proof (digits_pos m).
  set (c := Z.min e (expo m e)).
  rewrite (mant_scaled m e c) by lia.
  assert (Hb : 0 < 2 ^ (expo m e - c)) by (apply Z.pow_pos_nonneg; lia).
  assert (Ha : 0 < 2 ^ (e - c)) by (apply Z.pow_pos_nonneg; lia).
  pose proof (round_half_even_bounds (Z.pos m * 2 ^ (e - c)) (2 ^ (expo m e - c)) Hb).
  assert (2 ^ 52 <= Z.pos m * 2 ^ (e - c) / 2 ^ (expo m e - c)); [ | lia].
  apply Z.div_le_lower_bound; trivial.
  rewrite <- Z.pow_add_r by lia.
  assert (2 ^ (expo m e - c + 52) = 2 ^ (digits m - 1) * 2 ^ (e - c)).
  { rewrite <- Z.pow_add_r by lia. f_equal.
    unfold expo in *. rewrite fexp_eq in *. lia. }
  nia.
Qed.

Lemma pack_mono (q1 E1 q2 E2 : Z) :
  0 <= q1 <= 2 ^ 53 -> 0 <= q2 <= 2 ^ 53 -> E1 <= E2 ->
  (E1 = E2 -> q1 <= q2) -> (E1 < E2 -> 2 ^ 52 <= q2) ->
  sf_le (pack false q1 E1) (pack false q2 E2).
Proof.
  intros H1 H2 HE Hsame Hless. unfold pack, sf_le.
  destruct q1 as [ | p1 | p1], q2 as [ | p2 | p2]; try lia;
    repeat match goal with
           | |- context [?a <? ?b] => destruct (Z.ltb_spec a b)
           | |- context [?a <=? ?b] => destruct (Z.leb_spec a b)
           end;
    cbn [key]; eexists _, _; (split; [reflexivity | split; [reflexivity | ]]);
    cbn [lex_le]; change (Z.pos (2 ^ 52)) with (2 ^ 52); try lia.
Qed.

(** The value [m * 2^e] seen at a scale [c] below the exponent. *)
Theorem binary_round_mono (m1 m2 : positive) (e1 e2 c : Z) :
  c <= e1 -> c <= e2 ->
  Z.pos m1 * 2 ^ (e1 - c) <= Z.pos m2 * 2 ^ (e2 - c) ->
  sf_le (binary_round prec emax false m1 e1) (binary_round prec emax false m2 e2).
Proof.
  intros Hc1 Hc2 H. rewrite !binary_round_spec.
  pose proof (digits_bounds m1) as [Hl1 Hu1]. pose proof (digits_pos m1).
  pose proof (digits_bounds m2) as [Hl2 Hu2]. pose proof (digits_pos m2).
  assert (Hmag : digits m1 + e1 <= digits m2 + e2).
  { assert (2 ^ (digits m1 - 1 + (e1 - c)) < 2 ^ (digits m2 + (e2 - c))).
    { rewrite !Z.pow_add_r by lia.
      assert (0 < 2 ^ (e1 - c)) by (apply Z.pow_pos_nonneg; lia).
      assert (0 < 2 ^ (e2 - c)) by (apply Z.pow_pos_nonneg; lia). nia. }
    apply Z.pow_lt_mono_r_iff in H2; lia. }
  assert (HE : expo m1 e1 <= expo m2 e2) by (unfold expo; rewrite !fexp_eq; lia).
  pose proof (expo_ge m1 e1).
  apply pack_mono; try apply mant_range; trivial.
  - intros Heq.
    set (c' := Z.min c (expo m1 e1)).
    rewrite (mant_scaled m1 e1 c'), (mant_scaled m2 e2 c') by lia.
    rewrite <- Heq. apply round_half_even_mono_num; [apply Z.pow_pos_nonneg; lia | ].
    replace (e1 - c') with ((e1 - c) + (c - c')) by lia.
    replace (e2 - c') with ((e2 - c) + (c - c')) by lia.
    rewrite !Z.pow_add_r, !Z.mul_assoc by lia.
    apply Z.mul_le_mono_nonneg_r; [apply Z.pow_nonneg; lia | exact H].
  - intros Hlt. apply mant_normal. lia.
Qed.

(** *** A representable number rounds to itself *)
Lemma bounded_inv (m : positive) (e : Z) :
  bounded prec emax m e = true ->
  expo m e = e /\ e <= 971 /\ -1074 <= e /\ digits m <= 53
  /\ (-1074 < e -> digits m = 53).
Proof.
  unfold bounded, canonical_mantissa. fold (digits m). fold (expo m e).
  intros [H1 H2]%andb_prop. apply Z.eqb_eq in H1. apply Z.leb_le in H2.
  pose proof (digits_pos m).
  unfold expo in *. rewrite fexp_eq in *. change (emax - prec) with 971 in H2. lia.
Qed.

Theorem binary_round_canonical (s : bool) (m : positive) (e : Z) :
  bounded prec emax m e = true ->
  binary_round prec emax s m e = S754_finite s m e.
Proof.
  intros (HE & He & _ & Hd & _)%bounded_inv.
  rewrite binary_round_spec. unfold mant. rewrite HE.
  replace (Z.max (e - e) 0) with 0 by lia.
  rewrite Z.pow_0_r, Z.mul_1_r.
  replace (Fmt.round_half_even (Z.pos m) 1) with (Z.pos m)
    by (symmetry; rewrite <- (Z.mul_1_r (Z.pos m)) at 1; now apply round_half_even_exact).
  pose proof (digits_bounds m) as [_ Hu].
  assert (2 ^ digits m <= 2 ^ 53) by (apply Z.pow_le_mono_r; lia).
  unfold pack.
  destruct (Z.ltb_spec (Z.pos m) (2 ^ 53)); [ | lia].
  destruct (Z.leb_spec e 971); [reflexivity | lia].
Qed.

End Rounding.

(** ** The operations on non-negative numbers *)

Module FloatOps.
Import FloatSpec FloatOrder Rounding.
Local Open Scope Z_scope.

Ltac le_inv H :=
  let k := fresh "k" in let k' := fresh "k" in
  let Hk := fresh "Hk" in let Hk' := fresh "Hk" in
  destruct H as (k & k' & Hk & Hk' & H); cbn [key] in Hk, Hk';
  try discriminate; try (injection Hk as <-); try (injection Hk' as <-);
  cbn [lex_le lex_lt] in H.

Ltac le_intro :=
  eexists _, _; split; [reflexivity | split; [reflexivity | cbn [lex_le lex_lt]; try lia]].

Lemma nonneg_cases (x : spec_float) :
  nonneg x -> finz x \/ x = S754_infinity false.
Proof.
  intros H. destruct x as [s | [] | | [] m e]; cbn; auto; le_inv H; lia.
Qed.

Lemma finz_nonneg (x : spec_float) : finz x -> nonneg x.
Proof. destruct x as [s | [] | | [] m e]; cbn; try tauto; intros _; le_intro. Qed.

Lemma le_infinity (x : spec_float) : nonneg x -> sf_le x (S754_infinity false).
Proof.
  intros H. destruct x as [s | [] | | [] m e]; try (le_inv H; lia); le_intro.
Qed.

Lemma nonneg_infinity : nonneg (S754_infinity false).
Proof. le_intro. Qed.

Lemma le_zero_l (s : bool) (x : spec_float) : nonneg x -> sf_le (S754_zero s) x.
Proof.
  intros H. destruct x as [sx | [] | | [] m e]; try (le_inv H; lia); le_intro.
Qed.

Lemma pack_nonneg (q E : Z) : 0 <= q -> nonneg (pack false q E).
Proof.
  intros Hq. unfold pack, nonneg.
  destruct q; try lia;
    repeat match goal with
           | |- context [?a <? ?b] => destruct (Z.ltb_spec a b)
           | |- context [?a <=? ?b] => destruct (Z.leb_spec a b)
           end; le_intro.
Qed.

Lemma binary_round_nonneg (m : positive) (e : Z) :
  nonneg (binary_round prec emax false m e).
Proof. rewrite binary_round_spec. apply pack_nonneg, mant_range. Qed.

Lemma le_ival (x y : spec_float) :
  valid_binary x = true -> valid_binary y = true -> finz x -> finz y ->
  sf_le x y -> ival x <= ival y.
Proof.
  intros Vx Vy Fx Fy H.
  destruct x as [sx | [] | | [] mx ex], y as [sy | [] | | [] my ey];
    cbn in Fx, Fy; try contradiction; cbn [ival]; try lia.
  - le_inv H. lia.
  - cbn [valid_binary] in Vx, Vy.
    apply bounded_inv in Vx as (_ & _ & Hex & Hdx & _).
    apply bounded_inv in Vy as (_ & _ & Hey & Hdy & Hny).
    pose proof (digits_bounds mx) as [_ Hux].
    pose proof (digits_bounds my) as [Hly _].
    le_inv H. destruct H as [H | [_ [H | [-> H]]]]; try lia.
    + assert (2 ^ digits mx <= 2 ^ 53) by (apply Z.pow_le_mono_r; lia).
      rewrite (Hny ltac:(lia)) in Hly.
      replace (ey + 1074) with ((ex + 1074) + (ey - ex)) by lia.
      rewrite (Z.pow_add_r 2 (ex + 1074) (ey - ex)) by lia.
      assert (0 < 2 ^ (ex + 1074)) by (apply Z.pow_pos_nonneg; lia).
      assert (2 ^ 1 <= 2 ^ (ey - ex)) by (apply Z.pow_le_mono_r; lia).
      assert (Z.pos mx <= Z.pos my * 2 ^ (ey - ex)).
      { change (2 ^ 1) with 2 in *. change (2 ^ (53 - 1)) with (2 ^ 52) in *.
        change (2 ^ 53) with (2 ^ 52 * 2) in *.
        assert (2 ^ 52 * 2 <= Z.pos my * 2 ^ (ey - ex)); [ | lia].
        apply Z.mul_le_mono_nonneg; lia. }
      rewrite (Z.mul_comm (2 ^ (ex + 1074))), Z.mul_assoc.
      apply Z.mul_le_mono_nonneg_r; lia.
    + apply Z.mul_le_mono_nonneg_r; [apply Z.pow_nonneg | ]; lia.
Qed.

(** *** Multiplication *)
Lemma digits_lower (m : positive) (n : Z) : 2 ^ n <= Z.pos m -> n < digits m.
Proof.
  intros H. pose proof (digits_bounds m) as [_ Hu]. pose proof (digits_pos m).
  destruct (Z.ltb_spec n (digits m)); trivial.
  assert (2 ^ digits m <= 2 ^ n) by (apply Z.pow_le_mono_r; lia). lia.
Qed.

Lemma SFmul_finite (sx sy : bool) (mx my : positive) (ex ey : Z) :
  bounded prec emax mx ex = true -> bounded prec emax my ey = true ->
  SFmul prec emax (S754_finite sx mx ex) (S754_finite sy my ey)
  = binary_round prec emax (xorb sx sy) (mx * my) (ex + ey).
Proof.
  intros (_ & _ & Hex & Hdx & Hnx)%bounded_inv (_ & _ & Hey & Hdy & Hny)%bounded_inv.
  cbn [SFmul]. unfold binary_round. rewrite shl_align_le; [reflexivity | ].
  fold (digits (mx * my)). rewrite fexp_eq.
  pose proof (digits_bounds mx) as [Hlx _]. pose proof (digits_bounds my) as [Hly _].
  pose proof (digits_pos mx). pose proof (digits_pos my).
  assert (digits mx + digits my - 2 < digits (mx * my)); [ | lia].
  apply digits_lower. rewrite Pos2Z.inj_mul.
  replace (digits mx + digits my - 2) with ((digits mx - 1) + (digits my - 1)) by lia.
  rewrite Z.pow_add_r by lia. nia.
Qed.

Lemma SFmul_comm (x y : spec_float) : SFmul prec emax x y = SFmul prec emax y x.
Proof.
  destruct x as [sx | sx | | sx mx ex], y as [sy | sy | | sy my ey]; cbn [SFmul];
    try reflexivity; try (now rewrite xorb_comm).
  now rewrite xorb_comm, Pos.mul_comm, Z.add_comm.
Qed.

(** Multiplying by a positive finite number keeps the order. *)
Lemma SFmul_mono_r (x y c : spec_float) :
  valid_binary x = true -> valid_binary y = true -> valid_binary c = true ->
  pos_finite c -> nonneg x -> sf_le x y ->
  sf_le (SFmul prec emax x c) (SFmul prec emax y c)
  /\ nonneg (SFmul prec emax x c).
Proof.
  intros Vx Vy Vc Fc Nx Hxy.
  destruct c as [ | | | [] mc ec]; cbn in Fc; try contradiction. cbn [valid_binary] in Vc.
  assert (Ny : nonneg y) by (apply (le_trans _ x); assumption).
  destruct (nonneg_cases x Nx) as [Fx | ->], (nonneg_cases y Ny) as [Fy | ->].
  - pose proof (le_ival x y Vx Vy Fx Fy Hxy) as Hv.
    destruct x as [sx | [] | | [] mx ex], y as [sy | [] | | [] my ey];
      cbn in Fx, Fy; try contradiction; cbn [valid_binary] in Vx, Vy.
    + cbn [SFmul]. split; le_intro.
    + rewrite SFmul_finite by assumption. cbn [SFmul].
      split; [apply le_zero_l, binary_round_nonneg | le_intro].
    + le_inv Hxy. lia.
    + rewrite !SFmul_finite by assumption. cbn [xorb].
      split; [ | apply binary_round_nonneg].
      pose proof Vx as (_ & _ & Hex & _)%bounded_inv.
      pose proof Vy as (_ & _ & Hey & _)%bounded_inv.
      pose proof Vc as (_ & _ & Hec & _)%bounded_inv.
      apply (binary_round_mono _ _ _ _ (-2148)); try lia.
      cbn [ival] in Hv. rewrite !Pos2Z.inj_mul.
      replace (ex + ec - -2148) with ((ex + 1074) + (ec + 1074)) by lia.
      replace (ey + ec - -2148) with ((ey + 1074) + (ec + 1074)) by lia.
      rewrite (Z.pow_add_r 2 (ex + 1074) (ec + 1074)) by lia.
      rewrite (Z.pow_add_r 2 (ey + 1074) (ec + 1074)) by lia.
      assert (0 < 2 ^ (ec + 1074)) by (apply Z.pow_pos_nonneg; lia).
      nia.
  - destruct x as [sx | [] | | [] mx ex]; cbn in Fx; try contradiction; cbn [valid_binary] in Vx.
    + cbn [SFmul]. split; le_intro.
    + rewrite SFmul_finite by assumption. cbn [SFmul xorb].
      split; [apply le_infinity | ]; apply binary_round_nonneg.
  - destruct y as [sy | [] | | [] my ey]; cbn in Fy; try contradiction; le_inv Hxy; lia.
  - cbn [SFmul xorb]. split; le_intro.
Qed.

(** Multiplying a non-negative number by a larger positive finite
    number gives no less. *)
Lemma SFmul_mono_l (a x y : spec_float) :
  valid_binary a = true -> valid_binary x = true -> valid_binary y = true ->
  nonneg a -> pos_finite x -> pos_finite y -> sf_le x y ->
  sf_le (SFmul prec emax a x) (SFmul prec emax a y).
Proof.
  intros Va Vx Vy Na Fx Fy Hxy.
  destruct (nonneg_cases a Na) as [Fa | ->].
  - destruct a as [sa | [] | | [] ma ea]; cbn in Fa; try contradiction.
    + destruct x as [ | | | [] mx ex], y as [ | | | [] my ey]; cbn in Fx, Fy; try contradiction.
      cbn [SFmul]. le_intro.
    + rewrite (SFmul_comm _ x), (SFmul_comm _ y).
      apply SFmul_mono_r; trivial. now apply finz_nonneg; destruct x as [ | | | []].
  - destruct x as [ | | | [] mx ex], y as [ | | | [] my ey]; cbn in Fx, Fy; try contradiction.
    cbn [SFmul xorb]. le_intro.
Qed.

(** *** Addition *)
Lemma shl_align_value (m : positive) (e e' : Z) :
  e' <= e -> Z.pos (fst (shl_align m e e')) = Z.pos m * 2 ^ (e - e').
Proof.
  intros H. destruct (Z.eq_dec e e') as [-> | Hne].
  - rewrite shl_align_le, Z.sub_diag by lia. cbn [fst]. lia.
  - rewrite shl_align_gt by lia. cbn [fst].
    destruct (digits_shift m (Z.to_pos (e - e'))) as [_ Hv].
    now rewrite Z2Pos.id in Hv by lia.
Qed.

(** The sum of two finite non-negative numbers is zero, or the exact sum
    rounded. *)
Lemma SFadd_repr (x t : spec_float) :
  valid_binary x = true -> valid_binary t = true -> finz x -> finz t ->
  (ival x + ival t = 0 /\ exists s, SFadd prec emax x t = S754_zero s)
  \/ (exists p e0, -1074 <= e0
       /\ SFadd prec emax x t = binary_round prec emax false p e0
       /\ Z.pos p * 2 ^ (e0 + 1074) = ival x + ival t).
Proof.
  intros Vx Vt Fx Ft.
  destruct x as [sx | [] | | [] mx ex], t as [st | [] | | [] mt et];
    cbn in Fx, Ft; try contradiction; cbn [valid_binary] in Vx, Vt.
  - left. split; [reflexivity | ]. destruct sx, st; cbn; eauto.
  - right. exists mt, et. pose proof Vt as (_ & _ & He & _)%bounded_inv.
    split; [lia | ]. split; [ | cbn; lia].
    rewrite binary_round_canonical by assumption. reflexivity.
  - right. exists mx, ex. pose proof Vx as (_ & _ & He & _)%bounded_inv.
    split; [lia | ]. split; [ | cbn; lia].
    rewrite binary_round_canonical by assumption. reflexivity.
  - right.
    pose proof Vx as (_ & _ & Hex & _)%bounded_inv.
    pose proof Vt as (_ & _ & Het & _)%bounded_inv.
    cbn [SFadd cond_Zopp].
    set (ez := Z.min ex et).
    exists (fst (shl_align mx ex ez) + fst (shl_align mt et ez))%positive, ez.
    split; [lia | ]. split; [reflexivity | ].
    rewrite Pos2Z.inj_add, !shl_align_value by lia. cbn [ival].
    rewrite Z.mul_add_distr_r, <- !Z.mul_assoc.
    rewrite <- (Z.pow_add_r 2 (ex - ez) (ez + 1074)) by lia.
    rewrite <- (Z.pow_add_r 2 (et - ez) (ez + 1074)) by lia.
    do 3 f_equal; lia.
Qed.

Lemma SFadd_nonneg (x t : spec_float) :
  valid_binary x = true -> valid_binary t = true -> nonneg x -> nonneg t ->
  nonneg (SFadd prec emax x t).
Proof.
  intros Vx Vt Nx Nt.
  destruct (nonneg_cases x Nx) as [Fx | ->], (nonneg_cases t Nt) as [Ft | ->].
  - destruct (SFadd_repr x t Vx Vt Fx Ft) as [[_ [s ->]] | (p & e0 & _ & -> & _)].
    + le_intro.
    + apply binary_round_nonneg.
  - destruct x as [sx | [] | | [] mx ex]; cbn in Fx; try contradiction; le_intro.
  - destruct t as [st | [] | | [] mt et]; cbn in Ft; try contradiction; le_intro.
  - le_intro.
Qed.

Lemma SFadd_infinity_r (x : spec_float) :
  nonneg x -> SFadd prec emax x (S754_infinity false) = S754_infinity false.
Proof.
  intros [Fx | ->]%nonneg_cases; [ | reflexivity].
  destruct x as [sx | [] | | [] mx ex]; cbn in Fx; try contradiction; reflexivity.
Qed.

Lemma SFadd_infinity_l (t : spec_float) :
  nonneg t -> SFadd prec emax (S754_infinity false) t = S754_infinity false.
Proof.
  intros [Ft | ->]%nonneg_cases; [ | reflexivity].
  destruct t as [st | [] | | [] mt et]; cbn in Ft; try contradiction; reflexivity.
Qed.

Lemma finz_of_le (x y : spec_float) : nonneg x -> sf_le x y -> finz y -> finz x.
Proof.
  intros Nx H Fy. destruct (nonneg_cases x Nx) as [Fx | ->]; trivial.
  destruct y as [sy | [] | | [] my ey]; cbn in Fy; try contradiction; le_inv H; lia.
Qed.

(** Addition of non-negative numbers is monotone in both arguments. *)
Lemma SFadd_mono (x x' t t' : spec_float) :
  valid_binary x = true -> valid_binary x' = true ->
  valid_binary t = true -> valid_binary t' = true ->
  nonneg x -> nonneg t -> sf_le x x' -> sf_le t t' ->
  sf_le (SFadd prec emax x t) (SFadd prec emax x' t').
Proof.
  intros Vx Vx' Vt Vt' Nx Nt Hx Ht.
  assert (Nx' : nonneg x') by (apply (le_trans _ x); assumption).
  assert (Nt' : nonneg t') by (apply (le_trans _ t); assumption).
  pose proof (SFadd_nonneg x t Vx Vt Nx Nt) as Nsum.
  destruct (nonneg_cases x' Nx') as [Fx' | ->];
    [ | rewrite SFadd_infinity_l by assumption; now apply le_infinity].
  destruct (nonneg_cases t' Nt') as [Ft' | ->];
    [ | rewrite SFadd_infinity_r by assumption; now apply le_infinity].
  pose proof (finz_of_le x x' Nx Hx Fx') as Fx.
  pose proof (finz_of_le t t' Nt Ht Ft') as Ft.
  pose proof (le_ival x x' Vx Vx' Fx Fx' Hx) as Hvx.
  pose proof (le_ival t t' Vt Vt' Ft Ft' Ht) as Hvt.
  destruct (SFadd_repr x t Vx Vt Fx Ft) as [[Hz [s ->]] | (p & e0 & He0 & -> & Hp)],
    (SFadd_repr x' t' Vx' Vt' Fx' Ft') as [[Hz' [s' ->]] | (p' & e0' & He0' & -> & Hp')].
  - le_intro.
  - apply le_zero_l, binary_round_nonneg.
  - assert (0 < Z.pos p * 2 ^ (e0 + 1074)); [ | lia].
    apply Z.mul_pos_pos; [lia | apply Z.pow_pos_nonneg; lia].
  - apply (binary_round_mono _ _ _ _ (-1074)); try lia.
    replace (e0 - -1074) with (e0 + 1074) by lia.
    replace (e0' - -1074) with (e0' + 1074) by lia. lia.
Qed.

Lemma pow2_rescale (m1 m2 a1 a2 b1 b2 : Z) :
  0 <= a1 -> 0 <= a2 -> 0 <= b1 -> 0 <= b2 -> a1 - a2 = b1 - b2 ->
  m1 * 2 ^ a1 <= m2 * 2 ^ a2 -> m1 * 2 ^ b1 <= m2 * 2 ^ b2.
Proof.
  intros Ha1 Ha2 Hb1 Hb2 Hd H.
  destruct (Z.le_ge_cases a1 b1) as [Hle | Hge].
  - replace b1 with (a1 + (b1 - a1)) by lia. replace b2 with (a2 + (b1 - a1)) by lia.
    rewrite (Z.pow_add_r 2 a1), (Z.pow_add_r 2 a2), !Z.mul_assoc by lia.
    apply Z.mul_le_mono_nonneg_r; [apply Z.pow_nonneg; lia | exact H].
  - replace a1 with (b1 + (a1 - b1)) in H by lia.
    replace a2 with (b2 + (a1 - b1)) in H by lia.
    rewrite (Z.pow_add_r 2 b1), (Z.pow_add_r 2 b2), !Z.mul_assoc in H by lia.
    apply Z.mul_le_mono_pos_r in H; [exact H | apply Z.pow_pos_nonneg; lia].
Qed.

Lemma sqrt_expo_bounds (m : positive) (e : Z) :
  bounded prec emax m e = true ->
  sqrt_expo m e = Z.div2 (digits m + e + 1) - 53
  /\ -1074 < sqrt_expo m e /\ sqrt_expo m e <= Z.div2 e
  /\ 0 < e - 2 * sqrt_expo m e
  /\ 105 <= digits m + (e - 2 * sqrt_expo m e) <= 106.
Proof.
  intros (_ & _ & He & Hd & _)%bounded_inv. pose proof (digits_pos m).
  unfold sqrt_expo. rewrite fexp_eq, !Z.div2_div.
  pose proof (Z.div_mod (digits m + e + 1) 2 ltac:(lia)).
  pose proof (Z.mod_pos_bound (digits m + e + 1) 2 ltac:(lia)).
  pose proof (Z.div_mod e 2 ltac:(lia)).
  pose proof (Z.mod_pos_bound e 2 ltac:(lia)).
  lia.
Qed.

Lemma sqrt_mant_bounds (m : positive) (e : Z) :
  bounded prec emax m e = true -> 2 ^ 52 <= sqrt_mant m e <= 2 ^ 53.
Proof.
  intros Hb. pose proof (sqrt_expo_bounds m e Hb) as (_ & _ & _ & Hs & Hd).
  pose proof (digits_bounds m) as [Hl Hu]. pose proof (digits_pos m).
  unfold sqrt_mant. cbv zeta.
  set (M := Z.pos m * 2 ^ (e - 2 * sqrt_expo m e)).
  assert (HM : 2 ^ 104 <= M < 2 ^ 106).
  { unfold M. split.
    - apply Z.le_trans with (2 ^ (digits m - 1) * 2 ^ (e - 2 * sqrt_expo m e)).
      + rewrite <- Z.pow_add_r by lia. apply Z.pow_le_mono_r; lia.
      + apply Z.mul_le_mono_nonneg_r; [apply Z.pow_nonneg; lia | exact Hl].
    - apply Z.lt_le_trans with (2 ^ digits m * 2 ^ (e - 2 * sqrt_expo m e)).
      + apply Z.mul_lt_mono_pos_r; [apply Z.pow_pos_nonneg; lia | exact Hu].
      + rewrite <- Z.pow_add_r by lia. apply Z.pow_le_mono_r; lia. }
  pose proof (Z.sqrt_spec M ltac:(lia)) as Hq. cbv zeta in Hq.
  pose proof (Z.sqrt_nonneg M).
  assert (2 ^ 52 <= Z.sqrt M).
  { apply Z.sqrt_le_square; lia. }
  assert (Z.sqrt M < 2 ^ 53).
  { apply Z.sqrt_lt_square; lia. }
  destruct (Z.sqrt M <? M - Z.sqrt M * Z.sqrt M); lia.
Qed.

Lemma shr_record_of_loc_inv (q : Z) (l : location) :
  l <> loc_Inexact Eq ->
  round_nearest_even (shr_m (shr_record_of_loc q l))
    (loc_of_shr_record (shr_record_of_loc q l))
  = match l with loc_Inexact Gt => q + 1 | _ => q end.
Proof. destruct l as [ | []]; intros H; try congruence; reflexivity. Qed.

Lemma SFsqrt_finite (m : positive) (e : Z) :
  bounded prec emax m e = true ->
  SFsqrt prec emax (S754_finite false m e)
  = pack false (sqrt_mant m e) (sqrt_expo m e).
Proof.
  intros Hb. pose proof (sqrt_expo_bounds m e Hb) as (HE & HEm & HE2 & Hs & Hd).
  pose proof (sqrt_mant_bounds m e Hb) as Hq'.
  unfold sqrt_mant in *. cbv zeta in Hq'.
  cbn [SFsqrt]. unfold SFsqrt_core_binary. rewrite digits_Zdigits2.
  fold (sqrt_expo m e). rewrite Z.min_l by exact HE2.
  set (E := sqrt_expo m e) in *.
  destruct (e - 2 * E) as [ | s | s] eqn:Hse; try lia.
  rewrite Z.shiftl_mul_pow2 by lia.
  set (M := Z.pos m * 2 ^ Z.pos s) in *.
  assert (HM : 0 <= M) by (unfold M; apply Z.mul_nonneg_nonneg; [lia | apply Z.pow_nonneg; lia]).
  pose proof (Z.sqrtrem_spec M HM) as Hsr. pose proof (Z.sqrtrem_sqrt M) as Hsq.
  destruct (Z.sqrtrem M) as [q r]. cbn [fst] in Hsq. subst q.
  destruct Hsr as [HMeq Hr].
  replace (M - Z.sqrt M * Z.sqrt M) with r in Hq' |- * by lia.
  set (q := Z.sqrt M) in *.
  assert (Hq : 2 ^ 52 <= q < 2 ^ 53).
  { pose proof (Z.sqrt_spec M HM) as Hspec. cbv zeta in Hspec. fold q in Hspec.
    assert (2 ^ 104 <= M < 2 ^ 106).
    { pose proof (digits_bounds m) as [Hl Hu]. pose proof (digits_pos m).
      unfold M. split.
      - apply Z.le_trans with (2 ^ (digits m - 1) * 2 ^ Z.pos s).
        + rewrite <- Z.pow_add_r by lia. apply Z.pow_le_mono_r; lia.
        + apply Z.mul_le_mono_nonneg_r; [apply Z.pow_nonneg; lia | exact Hl].
      - apply Z.lt_le_trans with (2 ^ digits m * 2 ^ Z.pos s).
        + apply Z.mul_lt_mono_pos_r; [apply Z.pow_pos_nonneg; lia | exact Hu].
        + rewrite <- Z.pow_add_r by lia. apply Z.pow_le_mono_r; lia. }
    split.
    - apply Z.sqrt_le_square; lia.
    - apply Z.sqrt_lt_square; lia. }
  unfold binary_round_aux, shr_fexp at 1.
  destruct q as [ | pq | pq] eqn:Hpq; try lia.
  rewrite digits_Zdigits2.
  assert (Hdq : digits pq = 53) by (apply digits_unique; cbn; lia).
  rewrite Hdq, fexp_eq. replace (Z.max (53 + E - 53) (-1074) - E) with 0 by lia.
  cbn [shr].
  rewrite shr_record_of_loc_inv
    by (destruct (r =? 0); [ | destruct (r <=? Z.pos pq)]; discriminate).
  rewrite (renormalise false).
  - f_equal.
    destruct (Z.eqb_spec r 0), (Z.leb_spec r (Z.pos pq)), (Z.ltb_spec (Z.pos pq) r);
      try lia; reflexivity.
  - destruct (r =? 0); [ | destruct (r <=? Z.pos pq)]; lia.
  - lia.
Qed.

Lemma mag_le (mx my : positive) (ex ey : Z) :
  -1074 <= ex -> -1074 <= ey ->
  Z.pos mx * 2 ^ (ex + 1074) <= Z.pos my * 2 ^ (ey + 1074) ->
  digits mx + ex <= digits my + ey.
Proof.
  intros Hex Hey H.
  pose proof (digits_bounds mx) as [Hl1 _]. pose proof (digits_pos mx).
  pose proof (digits_bounds my) as [_ Hu2]. pose proof (digits_pos my).
  assert (Hp : 2 ^ (digits mx - 1 + (ex + 1074)) < 2 ^ (digits my + (ey + 1074))).
  { rewrite (Z.pow_add_r 2 (digits mx - 1)), (Z.pow_add_r 2 (digits my)) by lia.
    apply Z.le_lt_trans with (Z.pos mx * 2 ^ (ex + 1074)).
    - apply Z.mul_le_mono_nonneg_r; [apply Z.pow_nonneg; lia | exact Hl1].
    - eapply Z.le_lt_trans; [exact H | ].
      apply Z.mul_lt_mono_pos_r; [apply Z.pow_pos_nonneg; lia | exact Hu2]. }
  apply Z.pow_lt_mono_r_iff in Hp; lia.
Qed.

Lemma SFsqrt_mono (x y : spec_float) :
  valid_binary x = true -> valid_binary y = true -> nonneg x -> sf_le x y ->
  sf_le (SFsqrt prec emax x) (SFsqrt prec emax y) /\ nonneg (SFsqrt prec emax x).
Proof.
  intros Vx Vy Nx Hxy.
  assert (Ny : nonneg y) by (apply (le_trans _ x); assumption).
  assert (Hnn : forall z, valid_binary z = true -> nonneg z -> nonneg (SFsqrt prec emax z)).
  { intros z Vz [Fz | ->]%nonneg_cases; [ | le_intro].
    destruct z as [sz | [] | | [] mz ez]; cbn in Fz; try contradiction.
    - le_intro.
    - rewrite SFsqrt_finite by exact Vz.
      apply pack_nonneg. pose proof (sqrt_mant_bounds mz ez Vz). lia. }
  split; [ | now apply Hnn].
  destruct (nonneg_cases y Ny) as [Fy | ->]; [ | now apply le_infinity, Hnn].
  pose proof (finz_of_le x y Nx Hxy Fy) as Fx.
  pose proof (le_ival x y Vx Vy Fx Fy Hxy) as Hv.
  destruct x as [sx | [] | | [] mx ex]; cbn in Fx; try contradiction.
  { apply le_zero_l. now apply Hnn. }
  destruct y as [sy | [] | | [] my ey]; cbn in Fy; try contradiction.
  { le_inv Hxy. lia. }
  cbn [valid_binary] in Vx, Vy. cbn [ival] in Hv.
  rewrite !SFsqrt_finite by assumption.
  pose proof (sqrt_expo_bounds mx ex Vx) as (HEx & _ & _ & Hsx & _).
  pose proof (sqrt_expo_bounds my ey Vy) as (HEy & _ & _ & Hsy & _).
  pose proof (sqrt_mant_bounds mx ex Vx). pose proof (sqrt_mant_bounds my ey Vy).
  pose proof Vx as (_ & _ & Hex & _)%bounded_inv.
  pose proof Vy as (_ & _ & Hey & _)%bounded_inv.
  pose proof (mag_le mx my ex ey Hex Hey Hv) as Hmag.
  assert (HE : sqrt_expo mx ex <= sqrt_expo my ey).
  { rewrite HEx, HEy, !Z.div2_div.
    assert (digits mx + ex + 1 <= digits my + ey + 1) as Hle by lia.
    pose proof (Z.div_le_mono _ _ 2 ltac:(lia) Hle). lia. }
  apply pack_mono; try lia.
  intros Heq. unfold sqrt_mant. cbv zeta. rewrite <- Heq in *.
  set (E := sqrt_expo mx ex) in *.
  assert (HM : Z.pos mx * 2 ^ (ex - 2 * E) <= Z.pos my * 2 ^ (ey - 2 * E)).
  { apply (pow2_rescale _ _ (ex + 1074) (ey + 1074)); try lia. }
  set (Mx := Z.pos mx * 2 ^ (ex - 2 * E)) in *.
  set (My := Z.pos my * 2 ^ (ey - 2 * E)) in *.
  assert (0 <= Mx) by (unfold Mx; apply Z.mul_nonneg_nonneg; [lia | apply Z.pow_nonneg; lia]).
  pose proof (Z.sqrt_le_mono Mx My HM) as Hq.
  pose proof (Z.sqrt_spec Mx ltac:(lia)) as Hsx'. cbv zeta in Hsx'.
  pose proof (Z.sqrt_spec My ltac:(lia)) as Hsy'. cbv zeta in Hsy'.
  destruct (Z.ltb_spec (Z.sqrt Mx) (Mx - Z.sqrt Mx * Z.sqrt Mx)),
    (Z.ltb_spec (Z.sqrt My) (My - Z.sqrt My * Z.sqrt My)); try lia.
  destruct (Z.eq_dec (Z.sqrt Mx) (Z.sqrt My)) as [Hqq | Hqq]; [ | lia].
  rewrite Hqq in *. lia.
Qed.

(** *** Well-formed results *)
Lemma pack_valid (s : bool) (q E : Z) :
  2 ^ 52 <= q <= 2 ^ 53 -> -1074 <= E -> valid_binary (pack s q E) = true.
Proof.
  intros Hq HE. unfold pack. destruct q as [ | p | p]; try lia.
  destruct (Z.ltb_spec (Z.pos p) (2 ^ 53)).
  - destruct (Z.leb_spec E 971); [ | reflexivity].
    cbn [valid_binary]. unfold bounded, canonical_mantissa. fold (digits p).
    assert (Hd : digits p = 53) by (apply digits_unique; cbn; lia).
    rewrite Hd, fexp_eq. apply andb_true_intro. split.
    + apply Z.eqb_eq. lia.
    + apply Z.leb_le. change (emax - prec) with 971. lia.
  - destruct (Z.leb_spec (E + 1) 971); [ | reflexivity].
    cbn [valid_binary]. unfold bounded, canonical_mantissa.
    change (Z.pos (digits2_pos (2 ^ 52))) with 53.
    rewrite fexp_eq. apply andb_true_intro. split.
    + apply Z.eqb_eq. lia.
    + apply Z.leb_le. change (emax - prec) with 971. lia.
Qed.

End FloatOps.

(** ** Primitive floats *)

Module PrimFacts.
Import FloatSpec FloatOrder Rounding FloatOps.

Lemma fle_le (x y : float) : fle x y <-> sf_le (Prim2SF x) (Prim2SF y).
Proof. apply leb_le. Qed.

Lemma flt_lt (x y : float) : flt x y <-> sf_lt (Prim2SF x) (Prim2SF y).
Proof. apply ltb_lt. Qed.

Lemma nn_nonneg (x : float) : nn x <-> nonneg (Prim2SF x).
Proof. apply fle_le. Qed.

Lemma fle_trans (x y z : float) : fle x y -> fle y z -> fle x z.
Proof. rewrite !fle_le. apply le_trans. Qed.

Lemma nn_fle (x y : float) : nn x -> fle x y -> nn y.
Proof. apply fle_trans. Qed.

Lemma fle_refl (x : float) : nn x -> fle x x.
Proof.
  rewrite nn_nonneg, fle_le. intros H. apply le_refl.
  intros E. rewrite E in H. le_inv H.
Qed.

Lemma mul_mono_r (x y c : float) :
  posfin c -> nn x -> fle x y -> fle (x * c) (y * c) /\ nn (x * c).
Proof.
  unfold posfin. rewrite nn_nonneg, !fle_le, nn_nonneg, !mul_spec.
  apply SFmul_mono_r; apply Prim2SF_valid.
Qed.

Lemma mul_mono_l (a x y : float) :
  nn a -> posfin x -> posfin y -> fle x y -> fle (a * x) (a * y).
Proof.
  unfold posfin. rewrite nn_nonneg, !fle_le, !mul_spec.
  apply SFmul_mono_l; apply Prim2SF_valid.
Qed.

Lemma mul_nn (a x : float) : nn a -> posfin x -> nn (a * x).
Proof.
  intros Ha Hx. apply (mul_mono_r a a x Hx Ha). now apply fle_refl.
Qed.

Lemma add_mono (x x' t t' : float) :
  nn x -> nn t -> fle x x' -> fle t t' -> fle (x + t) (x' + t').
Proof.
  rewrite !nn_nonneg, !fle_le, !add_spec.
  apply SFadd_mono; apply Prim2SF_valid.
Qed.

Lemma add_nn (x t : float) : nn x -> nn t -> nn (x + t).
Proof.
  rewrite !nn_nonneg, add_spec. apply SFadd_nonneg; apply Prim2SF_valid.
Qed.

Lemma sqrt_mono (x y : float) :
  nn x -> fle x y -> fle (sqrt x) (sqrt y) /\ nn (sqrt x).
Proof.
  rewrite nn_nonneg, !fle_le, nn_nonneg, !sqrt_spec.
  apply SFsqrt_mono; apply Prim2SF_valid.
Qed.

End PrimFacts.

(** ** Facts about the runtime functions *)

Module PyFacts.
Import FloatSpec FloatOrder Rounding FloatOps PrimFacts.
Local Open Scope Z_scope.

Lemma max_nn (r : float) : nn r -> Py.max r 0 = r.
Proof.
  intros H. unfold Py.max. now rewrite (ltb_false_of_leb 0 r H).
Qed.

Lemma SFmul_one_r (x : spec_float) :
  valid_binary x = true -> SFmul prec emax x (Prim2SF 1) = x.
Proof.
  intros Vx. change (Prim2SF 1) with (S754_finite false (2 ^ 52) (-52)).
  destruct x as [s | s | | s m e];
    [cbn [SFmul]; rewrite ?xorb_false_r; reflexivity .. | ].
  cbn [valid_binary] in Vx.
  rewrite SFmul_finite by (trivial; reflexivity).
  rewrite xorb_false_r, binary_round_spec.
  pose proof Vx as (HE & He & Hem & Hd & _)%bounded_inv.
  pose proof (digits_bounds m) as [Hl Hu]. pose proof (digits_pos m).
  assert (Hdig : digits (m * 2 ^ 52) = digits m + 52).
  { apply digits_unique. rewrite Pos2Z.inj_mul. change (Z.pos (2 ^ 52)) with (2 ^ 52).
    replace (digits m + 52 - 1) with ((digits m - 1) + 52) by lia.
    rewrite (Z.pow_add_r 2 (digits m - 1) 52), (Z.pow_add_r 2 (digits m) 52) by lia. lia. }
  assert (HE' : expo (m * 2 ^ 52) (e + -52) = e).
  { unfold expo in *. rewrite Hdig. rewrite <- HE at 2. f_equal. lia. }
  unfold mant. rewrite HE'.
  replace (Z.max (e + -52 - e) 0) with 0 by lia.
  replace (Z.max (e - (e + -52)) 0) with 52 by lia.
  rewrite Z.pow_0_r, Z.mul_1_r, Pos2Z.inj_mul. change (Z.pos (2 ^ 52)) with (2 ^ 52).
  rewrite round_half_even_exact by lia.
  assert (2 ^ digits m <= 2 ^ 53) by (apply Z.pow_le_mono_r; lia).
  unfold pack.
  destruct (Z.ltb_spec (Z.pos m) (2 ^ 53)); [ | lia].
  destruct (Z.leb_spec e 971); [reflexivity | lia].
Qed.

(** Multiplying by 1.0 changes nothing, whatever the float. *)
Lemma mul_one_r (x : float) : (x * 1)%float = x.
Proof.
  apply Prim2SF_inj. rewrite mul_spec. apply SFmul_one_r, Prim2SF_valid.
Qed.

(** Adding 0.0 keeps the number (it turns [-0.0] into [0.0]). *)
Lemma add_zero_r (x : float) : same_number (x + 0)%float x.
Proof.
  unfold same_number.
  destruct (Prim2SF x) as [[] | s | | s m e] eqn:E.
  - right. rewrite FloatAxioms.eqb_spec, add_spec, E. reflexivity.
  - left. apply Prim2SF_inj. rewrite add_spec, E. reflexivity.
  - left. apply Prim2SF_inj. rewrite add_spec, E. now destruct s.
  - left. apply Prim2SF_inj. rewrite add_spec, E. reflexivity.
  - left. apply Prim2SF_inj. rewrite add_spec, E. reflexivity.
Qed.

(** *** Converting an int *)

Lemma round_int_finite (s : bool) (p : positive) :
  Z.pos p < float_range ->
  exists pm E, pack s (mant p 0) (expo p 0) = S754_finite s pm E
               /\ valid_binary (S754_finite s pm E) = true.
Proof.
  unfold float_range. intros Hp.
  pose proof (digits_pos p). pose proof (digits_bounds p) as [Hl Hu].
  assert (Hd : digits p <= 1024) by (apply digits_le; lia).
  assert (HE : expo p 0 = digits p - 53) by (unfold expo; rewrite fexp_eq; lia).
  pose proof (mant_normal p 0 ltac:(lia)) as Hlo.
  pose proof (mant_range p 0) as [_ Hhi].
  pose proof (pack_valid s (mant p 0) (expo p 0) ltac:(lia) ltac:(lia)) as Hv.
  assert (Hcarry : digits p = 1024 -> mant p 0 < 2 ^ 53).
  { intros Hd'. unfold mant. rewrite HE, Hd'. cbn [Z.max Z.sub Z.add Z.opp Z.pos_sub].
    change (Z.max (0 - (1024 - 53)) 0) with 0. change (Z.max (1024 - 53 - 0) 0) with 971.
    rewrite Z.pow_0_r, Z.mul_1_r. unfold Fmt.round_half_even.
    pose proof (Z.div_mod (Z.pos p) (2 ^ 971) ltac:(lia)) as Hdm.
    pose proof (Z.mod_pos_bound (Z.pos p) (2 ^ 971) ltac:(lia)) as Hr.
    destruct (Z.compare_spec (2 * (Z.pos p mod 2 ^ 971)) (2 ^ 971));
      [destruct (Z.even (Z.pos p / 2 ^ 971)) | | ]; lia. }
  revert Hv. unfold pack.
  destruct (mant p 0) as [ | pm | pm] eqn:Hm; try lia.
  destruct (Z.ltb_spec (Z.pos pm) (2 ^ 53)).
  - destruct (Z.leb_spec (expo p 0) 971); [eauto | lia].
  - destruct (Z.leb_spec (expo p 0 + 1) 971); [eauto | ].
    assert (digits p = 1024) by lia. specialize (Hcarry ltac:(assumption)). lia.
Qed.

(** An int below the float range converts. *)
Lemma float_of_int_returns (q : Z) :
  Z.abs q < float_range -> returns (Py.float_of_int q).
Proof.
  intros Hq. unfold Py.float_of_int, returns.
  destruct q as [ | p | p]; cbn [binary_normalize].
  - eauto.
  - rewrite binary_round_spec.
    destruct (round_int_finite false p ltac:(lia)) as (pm & E & -> & _). eauto.
  - rewrite binary_round_spec.
    destruct (round_int_finite true p ltac:(lia)) as (pm & E & -> & _). eauto.
Qed.

(** A positive int converts to the nearest float, which is positive. *)
Lemma float_of_int_pos (q : Z) :
  1 <= q -> q < float_range ->
  exists qf, Py.float_of_int q = Ret qf
             /\ Prim2SF qf = binary_round prec emax false (Z.to_pos q) 0
             /\ posfin qf.
Proof.
  intros H1 Hq. destruct q as [ | p | p]; try lia.
  unfold Py.float_of_int. cbn [binary_normalize Z.to_pos].
  rewrite binary_round_spec.
  destruct (round_int_finite false p Hq) as (pm & E & -> & Hv).
  eexists. split; [reflexivity | ].
  unfold posfin. rewrite Prim2SF_SF2Prim by exact Hv. split; [reflexivity | exact I].
Qed.

Lemma float_of_int_mono (q q' : Z) (qf qf' : float) :
  1 <= q <= q' -> q' < float_range ->
  Py.float_of_int q = Ret qf -> Py.float_of_int q' = Ret qf' -> fle qf qf'.
Proof.
  intros Hq Hq' E E'.
  destruct (float_of_int_pos q ltac:(lia) ltac:(lia)) as (f & Ef & Hf & _).
  destruct (float_of_int_pos q' ltac:(lia) ltac:(lia)) as (f' & Ef' & Hf' & _).
  rewrite E in Ef. rewrite E' in Ef'. injection Ef as <-. injection Ef' as <-.
  apply fle_le. rewrite Hf, Hf'.
  apply (binary_round_mono _ _ _ _ 0); lia.
Qed.

End PyFacts.

(** ** The emission estimate *)

Module Estimate.
Import FloatSpec FloatOrder Rounding FloatOps PrimFacts PyFacts.

Lemma getitem_misc : Py.getitem EMISSION_FACTORS "Misc / Other" = Ret 0.16%float.
Proof. vm_compute. reflexivity. Qed.

Lemma get_category_factor (category : string) :
  Py.get EMISSION_FACTORS category 0.16%float = category_factor category.
Proof.
  unfold Py.get, category_factor.
  replace (EMISSION_FACTORS !! "Misc / Other") with (Some 0.16%float)
    by (vm_compute; reflexivity).
  now destruct (EMISSION_FACTORS !! category).
Qed.

Lemma get_distance_multiplier (distance_level : string) :
  Py.get DISTANCE_MULTIPLIERS distance_level 1.0%float
  = distance_multiplier distance_level.
Proof.
  unfold Py.get, distance_multiplier.
  now destruct (DISTANCE_MULTIPLIERS !! distance_level).
Qed.

(** [estimate_emission] as the composition of its steps. *)
Lemma estimate_emission_steps (category : string) (price_usd : float)
    (quantity : Z) (distance_level : string) (weight_kg : option float)
    (shipping_speed : string) :
  estimate_emission category price_usd quantity distance_level weight_kg shipping_speed
  = q ← Py.float_of_int quantity;
    Ret (Py.max
           (weight_step weight_kg
              (speed_step shipping_speed
                 (price_usd * category_factor category * q
                  * distance_multiplier distance_level)%float))
           0%float).
Proof.
  unfold estimate_emission. rewrite getitem_misc. cbn [mbind outcome_bind].
  rewrite get_category_factor, get_distance_multiplier. reflexivity.
Qed.

Lemma category_factor_posfin (category : string) : posfin (category_factor category).
Proof.
  unfold category_factor.
  replace (EMISSION_FACTORS !! "Misc / Other") with (Some 0.16%float)
    by (vm_compute; reflexivity).
  destruct (EMISSION_FACTORS !! category) as [v | ] eqn:E; [ | vm_compute; exact I].
  apply elem_of_list_to_map_2 in E.
  repeat (apply elem_of_cons in E as [E | E];
          [injection E as _ ->; vm_compute; exact I | ]).
  now apply elem_of_nil in E.
Qed.

Lemma distance_multiplier_posfin (distance_level : string) :
  posfin (distance_multiplier distance_level).
Proof.
  unfold distance_multiplier.
  destruct (DISTANCE_MULTIPLIERS !! distance_level) as [v | ] eqn:E; [ | vm_compute; exact I].
  apply elem_of_list_to_map_2 in E.
  repeat (apply elem_of_cons in E as [E | E];
          [injection E as _ ->; vm_compute; exact I | ]).
  now apply elem_of_nil in E.
Qed.

Lemma speed_step_multiplier (shipping_speed : string) (x : float) :
  speed_step shipping_speed x = (x * speed_multiplier shipping_speed)%float.
Proof.
  unfold speed_step, speed_multiplier.
  destruct (String.eqb shipping_speed "Express / Overnight"); [reflexivity | ].
  destruct (String.eqb shipping_speed "Two-day"); [reflexivity | ].
  symmetry. apply mul_one_r.
Qed.

Lemma speed_multiplier_posfin (shipping_speed : string) :
  posfin (speed_multiplier shipping_speed).
Proof.
  unfold speed_multiplier.
  destruct (String.eqb shipping_speed "Express / Overnight"); [vm_compute; exact I | ].
  destruct (String.eqb shipping_speed "Two-day"); vm_compute; exact I.
Qed.

(** A float above zero is true. *)
Lemma float_bool_of_pos (a w : float) :
  nn a -> PrimFloat.ltb a w = true -> Py.float_bool w = true.
Proof.
  intros Ha Hw. unfold Py.float_bool.
  destruct (PrimFloat.eqb w 0) eqn:E; [ | reflexivity].
  rewrite FloatAxioms.eqb_spec in E. apply SFeqb_key in E as (k & Hk & Hk0).
  apply nn_nonneg in Ha. apply ltb_lt in Hw.
  change (Prim2SF 0) with (S754_zero false) in *. cbn [key] in Hk0. injection Hk0 as <-.
  destruct Hw as (ka & kw & Hka & Hkw & Hlt), Ha as (k0 & ka' & Hk0 & Hka' & Hle).
  cbn [key] in Hk0. injection Hk0 as <-.
  rewrite Hka in Hka'. injection Hka' as <-. rewrite Hk in Hkw. injection Hkw as <-.
  destruct ka as [[a1 a2] a3]. cbn in Hlt, Hle. lia.
Qed.

Lemma weight_step_term (weight_kg : option float) (x : float) :
  weight_step weight_kg x = (x + weight_term weight_kg)%float
  \/ (weight_step weight_kg x = x /\ weight_term weight_kg = 0%float).
Proof.
  destruct weight_kg as [w | ]; cbn [weight_step weight_term]; [ | now right].
  destruct (PrimFloat.ltb 0 w) eqn:E.
  - rewrite (float_bool_of_pos 0 w) by (trivial; reflexivity). now left.
  - rewrite andb_false_r. now right.
Qed.

Lemma max_max0 (x : float) : Py.max x 0 = max0 x.
Proof. reflexivity. Qed.

Lemma same_number_sym (x y : float) : same_number x y -> same_number y x.
Proof.
  intros [-> | H]; [now left | right].
  rewrite FloatAxioms.eqb_spec in *. apply SFeqb_key in H as (k & Hx & Hy).
  apply SFeqb_key. eauto.
Qed.

Lemma max0_same (x y : float) : same_number x y -> same_number (max0 x) (max0 y).
Proof.
  intros [-> | H]; [now left | ].
  assert (Hlt : PrimFloat.ltb x 0 = PrimFloat.ltb y 0).
  { rewrite FloatAxioms.eqb_spec in H. apply SFeqb_key in H as (k & Hx & Hy).
    rewrite !FloatAxioms.ltb_spec. unfold SFltb. rewrite !SFcompare_key, Hx, Hy.
    reflexivity. }
  unfold max0. rewrite Hlt. destruct (PrimFloat.ltb y 0); [now left | now right].
Qed.

(** *** Each step keeps the order of non-negative results *)

Lemma speed_step_mono (shipping_speed : string) (x y : float) :
  nn x -> fle x y ->
  fle (speed_step shipping_speed x) (speed_step shipping_speed y)
  /\ nn (speed_step shipping_speed x).
Proof.
  intros Hx Hxy. rewrite !speed_step_multiplier.
  apply mul_mono_r; trivial. apply speed_multiplier_posfin.
Qed.

Lemma posfin_1_5 : posfin 1.5%float.
Proof. vm_compute. exact I. Qed.

Lemma sqrt_term_mono (w w' : float) :
  nn w -> fle w w' ->
  fle (PrimFloat.sqrt w * 1.5)%float (PrimFloat.sqrt w' * 1.5)%float
  /\ nn (PrimFloat.sqrt w * 1.5)%float.
Proof.
  intros Hw Hww. destruct (sqrt_mono w w' Hw Hww) as [Hs Hn].
  apply mul_mono_r; trivial. apply posfin_1_5.
Qed.

Lemma weight_step_mono (weight_kg : option float) (x y : float) :
  valid_weight weight_kg -> nn x -> fle x y ->
  fle (weight_step weight_kg x) (weight_step weight_kg y)
  /\ nn (weight_step weight_kg x).
Proof.
  intros Hw Hx Hxy. destruct weight_kg as [w | ]; cbn [weight_step]; [ | now split].
  destruct (Py.float_bool w && PrimFloat.ltb 0 w); [ | now split].
  cbn [valid_weight] in Hw.
  destruct (sqrt_term_mono w w Hw (fle_refl w Hw)) as [Ht Hn].
  split; [now apply add_mono | now apply add_nn].
Qed.

Lemma fle_of_same_number (x y : float) : nn y -> same_number x y -> fle y x.
Proof.
  intros Hy [-> | H]; [now apply fle_refl | ].
  rewrite FloatAxioms.eqb_spec in H. apply SFeqb_key in H as (k & Hx & Hk).
  apply fle_le. exists k, k. repeat split; trivial.
  destruct k as [[a b] c]. cbn. lia.
Qed.

(** Adding a non-negative number does not make a result smaller. *)
Lemma add_nn_ge (x t : float) : nn x -> nn t -> fle x (x + t)%float.
Proof.
  intros Hx Ht. apply (fle_trans _ (x + 0)%float).
  - apply fle_of_same_number; [trivial | apply add_zero_r].
  - apply add_mono; trivial; [reflexivity | now apply fle_refl].
Qed.

Lemma weight_step_mono_weight (w w' : option float) (x : float) :
  nn x -> valid_weight w -> valid_weight w' ->
  fle (weight_value w) (weight_value w') ->
  fle (weight_step w x) (weight_step w' x).
Proof.
  intros Hx Hw Hw' Hww.
  assert (Hge : forall v, valid_weight v -> fle x (weight_step v x)).
  { intros [v | ] Hv; cbn [weight_step]; [ | now apply fle_refl].
    destruct (Py.float_bool v && PrimFloat.ltb 0 v); [ | now apply fle_refl].
    apply add_nn_ge; trivial. now apply (sqrt_term_mono v v Hv), fle_refl. }
  destruct w as [v | ]; cbn [weight_step]; [ | now apply Hge].
  destruct (PrimFloat.ltb 0 v) eqn:Hpos; [ | rewrite andb_false_r; now apply Hge].
  rewrite (float_bool_of_pos 0 v) by (trivial; reflexivity). cbn [andb].
  cbn [valid_weight weight_value] in Hw, Hww.
  assert (Hpos' : flt 0 (weight_value w')).
  { apply flt_lt. apply (lt_le_trans _ (Prim2SF v)); [now apply flt_lt | now apply fle_le]. }
  destruct w' as [v' | ]; cbn [weight_value] in Hww, Hpos';
    [ | now vm_compute in Hpos'].
  unfold flt in Hpos'. cbn [weight_step]. rewrite Hpos'.
  rewrite (float_bool_of_pos 0 v') by (trivial; reflexivity). cbn [andb].
  apply add_mono; trivial.
  - apply (sqrt_term_mono v v Hw), fle_refl, Hw.
  - now apply fle_refl.
  - now apply sqrt_term_mono.
Qed.

(** From the product with the distance multiplier on, the computation
    keeps the order. *)
Lemma tail_mono (shipping_speed : string) (weight_kg : option float) (x y : float) :
  valid_weight weight_kg -> nn x -> fle x y ->
  let tail z := Py.max (weight_step weight_kg (speed_step shipping_speed z)) 0%float in
  fle (tail x) (tail y) /\ nn (tail x).
Proof.
  intros Hw Hx Hxy tail. unfold tail.
  destruct (speed_step_mono shipping_speed x y Hx Hxy) as [H1 N1].
  destruct (weight_step_mono weight_kg _ _ Hw N1 H1) as [H2 N2].
  rewrite !max_nn; [now split | now apply (nn_fle _ _ N2) | trivial].
Qed.

End Estimate.

(** ** The library functions, on known answers *)

Module KnownAnswers.
Local Open Scope Z_scope.

(** The constants derived above are the 64 words and the 8 words of the
    standard, from the first to the last. *)
Lemma sha256_constants :
  length SHA256.K = 64%nat /\ length SHA256.H0 = 8%nat
  /\ head SHA256.K = Some 0x428a2f98 /\ last SHA256.K = Some 0xc67178f2
  /\ head SHA256.H0 = Some 0x6a09e667 /\ last SHA256.H0 = Some 0x5be0cd19.
Proof. vm_compute. repeat split. Qed.

(** The test vectors of FIPS 180-4 for the empty message and for "abc". *)
Lemma sha256_test_vectors :
  SHA256.hexdigest (Str.encode "")
  = "e3b0c44298fc1c149afbf4c8996fb92427ae41e4649b934ca495991b7852b855"
  /\ SHA256.hexdigest (Str.encode "abc")
     = "ba7816bf8f01cfea414140de5dae2223b00361a396177a9cb410ff61f20015ad".
Proof. split; vm_compute; reflexivity. Qed.

(** The first words of [random.Random(42)] and of a seed of three words,
    and the first three draws of [random.Random(0)] from sequences of six,
    five and two elements. *)
Lemma mt19937_first_words :
  (let '(x1, s1) := MT19937.genrand_uint32 (MT19937.Random 42) in
   let '(x2, s2) := MT19937.genrand_uint32 s1 in
   let '(x3, _) := MT19937.genrand_uint32 s2 in
   [x1; x2; x3]) = [2746317213; 478163327; 107420369]
  /\ (let '(x1, s1) := MT19937.genrand_uint32 (MT19937.Random (2 ^ 70 + 12345)) in
      let '(x2, s2) := MT19937.genrand_uint32 s1 in
      let '(x3, _) := MT19937.genrand_uint32 s2 in
      [x1; x2; x3]) = [4124372728; 1880144277; 4058479540]
  /\ ('(i1, s1) ← MT19937.randbelow 64 6 (MT19937.Random 0);
      '(i2, s2) ← MT19937.randbelow 64 5 s1;
      '(i3, _) ← MT19937.randbelow 64 2 s2;
      Ret [i1; i2; i3]) = Ret [3; 3; 0].
Proof. split; [ | split]; vm_compute; reflexivity. Qed.

End KnownAnswers.

(** * The claims of the specification *)

Import FloatSpec.

(** ** The estimator *)

(** C1, at the input where the claim as stated fails: a quantity of
    [2^1024] does not convert to a float, and [estimate_emission] raises
    [OverflowError] instead of returning the value of the formula. *)
Lemma estimate_emission_overflow :
  estimate_emission "Electronics (phone, laptop)" 100 (2 ^ 1024)
    "Local (same city)" None "Standard (5–8 days)" = Raise OverflowError
  /\ ~ returns (estimate_emission "Electronics (phone, laptop)" 100 (2 ^ 1024)
                  "Local (same city)" None "Standard (5–8 days)").
Proof.
  assert (E : estimate_emission "Electronics (phone, laptop)" 100 (2 ^ 1024)
                "Local (same city)" None "Standard (5–8 days)" = Raise OverflowError)
    by (vm_compute; reflexivity).
  split; [exact E | ]. rewrite E. intros [r H]. discriminate.
Qed.

(** C1 (amended): for every input whose quantity is in the range of the
    ints that convert to a float, [estimate_emission] returns the number
    [max(0, price * factor * quantity * distanceMultiplier * speedMultiplier
    + weightTerm)], with the factor of "Misc / Other" for an unknown
    category, the multipliers 1.15, 1.07 and 1.00 and the weight term
    [sqrt(weight) * 1.5] for a weight present and [> 0]; and for
    "Electronics (phone, laptop)", price 100, quantity 1, Local, no weight,
    Standard it returns exactly 30.0. *)
Theorem estimate_emission_formula :
  (forall (category : string) (price_usd : float) (quantity : Z)
          (distance_level : string) (weight_kg : option float)
          (shipping_speed : string),
      (Z.abs quantity < float_range)%Z ->
      exists q r,
        Py.float_of_int quantity = Ret q
        /\ estimate_emission category price_usd quantity distance_level
             weight_kg shipping_speed = Ret r
        /\ same_number r (estimate_formula category price_usd q distance_level
                            weight_kg shipping_speed))
  /\ estimate_emission "Electronics (phone, laptop)" 100 1 "Local (same city)"
       None "Standard (5–8 days)" = Ret 30%float.
Proof.
  split; [ | vm_compute; reflexivity].
  intros category price_usd quantity distance_level weight_kg shipping_speed Hq.
  destruct (PyFacts.float_of_int_returns quantity Hq) as [q Eq].
  exists q. eexists. split; [exact Eq | ].
  rewrite Estimate.estimate_emission_steps, Eq. cbn [mbind outcome_bind].
  split; [reflexivity | ].
  unfold estimate_formula. rewrite Estimate.speed_step_multiplier.
  rewrite Estimate.max_max0.
  destruct (Estimate.weight_step_term weight_kg
              (price_usd * category_factor category * q
               * distance_multiplier distance_level
               * speed_multiplier shipping_speed)%float) as [-> | [-> ->]].
  - now left.
  - apply Estimate.max0_same, Estimate.same_number_sym, PyFacts.add_zero_r.
Qed.

(** The worked example, through the general statement. *)
Lemma estimate_emission_formula_witness :
  (Z.abs 1 < float_range)%Z
  /\ exists q r,
       Py.float_of_int 1 = Ret q
       /\ estimate_emission "Electronics (phone, laptop)" 100 1 "Local (same city)"
            None "Standard (5–8 days)" = Ret r
       /\ same_number r (estimate_formula "Electronics (phone, laptop)" 100 q
                           "Local (same city)" None "Standard (5–8 days)").
Proof.
  split; [reflexivity | ].
  apply (proj1 estimate_emission_formula). reflexivity.
Defined.

(** C2, at the input where the claim as stated fails: for the valid inputs
    price 100, quantity [2^1024] and no weight, [estimate_emission] returns
    no value at all. *)
Lemma estimate_emission_valid_input_raises :
  PrimFloat.leb 0 100 = true /\ (1 <= 2 ^ 1024)%Z /\ valid_weight None
  /\ ~ (exists r, estimate_emission "Books / Media" 100 (2 ^ 1024)
                    "Local (same city)" None "Two-day" = Ret r
                  /\ PrimFloat.leb 0 r = true).
Proof.
  split; [reflexivity | ]. split; [discriminate | ]. split; [exact I | ].
  assert (E : estimate_emission "Books / Media" 100 (2 ^ 1024)
                "Local (same city)" None "Two-day" = Raise OverflowError)
    by (vm_compute; reflexivity).
  rewrite E. intros (r & H & _). discriminate.
Qed.

(** C2 (amended): for a non-negative price, a positive quantity in the
    range of the ints that convert to a float and a weight absent or not
    negative, [estimate_emission] returns a non-negative value, and the
    value does not decrease when the price grows, when the quantity grows
    (within the range) or when the weight grows (an absent weight counting
    as zero), the other arguments being the same. *)
Theorem estimate_emission_monotone
    (category distance_level shipping_speed : string) (price_usd : float)
    (quantity : Z) (weight_kg : option float) :
  nn price_usd -> (1 <= quantity < float_range)%Z -> valid_weight weight_kg ->
  exists r,
    estimate_emission category price_usd quantity distance_level weight_kg
      shipping_speed = Ret r
    /\ nn r
    /\ (forall price_usd', fle price_usd price_usd' ->
          exists r', estimate_emission category price_usd' quantity distance_level
                       weight_kg shipping_speed = Ret r' /\ fle r r')
    /\ (forall quantity', (quantity <= quantity' < float_range)%Z ->
          exists r', estimate_emission category price_usd quantity' distance_level
                       weight_kg shipping_speed = Ret r' /\ fle r r')
    /\ (forall weight_kg', valid_weight weight_kg' ->
          fle (weight_value weight_kg) (weight_value weight_kg') ->
          exists r', estimate_emission category price_usd quantity distance_level
                       weight_kg' shipping_speed = Ret r' /\ fle r r').
Proof.
  intros Hp Hq Hw.
  destruct (PyFacts.float_of_int_pos quantity ltac:(lia) ltac:(lia)) as (q & Eq & _ & Fq).
  pose proof (Estimate.category_factor_posfin category) as Ff.
  pose proof (Estimate.distance_multiplier_posfin distance_level) as Fd.
  pose proof (fun p n w => Estimate.estimate_emission_steps category p n
                             distance_level w shipping_speed) as Hsteps.
  remember (category_factor category) as f eqn:Ef.
  remember (distance_multiplier distance_level) as d eqn:Ed.
  clear Ef Ed.
  (* the product before the shipping-speed step, for a price and a quantity *)
  assert (Hbase : forall p p' x x', nn p -> fle p p' -> posfin x -> posfin x' -> fle x x' ->
            fle (p * f * x * d)%float (p' * f * x' * d)%float /\ nn (p * f * x * d)%float).
  { intros p p' x x' Np Hpp Fx Fx' Hxx.
    destruct (PrimFacts.mul_mono_r p p' f Ff Np Hpp) as [H1 N1].
    destruct (PrimFacts.mul_mono_r _ _ x Fx N1 H1) as [H2 N2].
    pose proof (PrimFacts.mul_mono_l (p' * f)%float x x'
                  (PrimFacts.nn_fle _ _ N1 H1) Fx Fx' Hxx) as H3.
    apply (PrimFacts.mul_mono_r _ _ d Fd N2).
    exact (PrimFacts.fle_trans _ _ _ H2 H3). }
  assert (Fqq : fle q q).
  { apply PrimFacts.fle_le, FloatOrder.le_refl. unfold posfin in Fq.
    intros E. rewrite E in Fq. exact Fq. }
  destruct (Hbase price_usd price_usd q q Hp (PrimFacts.fle_refl _ Hp) Fq Fq Fqq) as [_ Nb].
  destruct (Estimate.tail_mono shipping_speed weight_kg _ _ Hw Nb (PrimFacts.fle_refl _ Nb))
    as [_ Nr].
  cbv zeta in Nr.
  eexists. rewrite Hsteps, Eq. cbn [mbind outcome_bind].
  split; [reflexivity | ]. split; [exact Nr | ]. split; [ | split].
  - intros p' Hpp. eexists.
    rewrite Hsteps, Eq. cbn [mbind outcome_bind].
    split; [reflexivity | ].
    apply (Estimate.tail_mono shipping_speed weight_kg _ _ Hw Nb).
    apply Hbase; assumption.
  - intros quantity' Hq'.
    destruct (PyFacts.float_of_int_pos quantity' ltac:(lia) ltac:(lia)) as (q' & Eq' & _ & Fq').
    eexists. rewrite Hsteps, Eq'. cbn [mbind outcome_bind].
    split; [reflexivity | ].
    apply (Estimate.tail_mono shipping_speed weight_kg _ _ Hw Nb).
    apply Hbase; try assumption; [exact (PrimFacts.fle_refl _ Hp) | ].
    apply (PyFacts.float_of_int_mono quantity quantity'); try assumption; lia.
  - intros weight_kg' Hw' Hww. eexists.
    rewrite Hsteps, Eq. cbn [mbind outcome_bind].
    split; [reflexivity | ].
    destruct (Estimate.speed_step_mono shipping_speed _ _ Nb (PrimFacts.fle_refl _ Nb))
      as [_ Ns].
    destruct (Estimate.weight_step_mono weight_kg _ _ Hw Ns (PrimFacts.fle_refl _ Ns))
      as [_ N1].
    destruct (Estimate.weight_step_mono weight_kg' _ _ Hw' Ns (PrimFacts.fle_refl _ Ns))
      as [_ N2].
    rewrite !PyFacts.max_nn by assumption.
    apply Estimate.weight_step_mono_weight; assumption.
Qed.

(** A concrete purchase to which the statement applies. *)
Lemma estimate_emission_monotone_witness :
  nn 20 /\ (1 <= 2 < float_range)%Z /\ valid_weight (Some 1.5%float)
  /\ exists r,
       estimate_emission "Books / Media" 20 2 "National (within country)"
         (Some 1.5%float) "Express / Overnight" = Ret r
       /\ nn r
       /\ (forall price_usd', fle 20 price_usd' ->
             exists r', estimate_emission "Books / Media" price_usd' 2
                          "National (within country)" (Some 1.5%float)
                          "Express / Overnight" = Ret r' /\ fle r r')
       /\ (forall quantity', (2 <= quantity' < float_range)%Z ->
             exists r', estimate_emission "Books / Media" 20 quantity'
                          "National (within country)" (Some 1.5%float)
                          "Express / Overnight" = Ret r' /\ fle r r')
       /\ (forall weight_kg', valid_weight weight_kg' ->
             fle (weight_value (Some 1.5%float)) (weight_value weight_kg') ->
             exists r', estimate_emission "Books / Media" 20 2
                          "National (within country)" weight_kg'
                          "Express / Overnight" = Ret r' /\ fle r r').
Proof.
  assert (H1 : nn 20) by reflexivity.
  assert (H2 : (1 <= 2 < float_range)%Z) by (split; [lia | reflexivity]).
  assert (H3 : valid_weight (Some 1.5%float)) by reflexivity.
  split; [exact H1 | ]. split; [exact H2 | ]. split; [exact H3 | ].
  exact (estimate_emission_monotone "Books / Media" "National (within country)"
           "Express / Overnight" 20 2 (Some 1.5%float) H1 H2 H3).
Defined.

(** C10: for every distance level that is not a key of the multiplier
    table, the multiplier is 1.0; the call has the outcome of the same call
    with "Local (same city)", whatever the other arguments; and the unknown
    level raises nothing: the only exception the call can meet is the
    [OverflowError] of a quantity that does not convert, as for any level. *)
Theorem estimate_emission_unknown_distance
    (category : string) (price_usd : float) (quantity : Z)
    (distance_level : string) (weight_kg : option float) (shipping_speed : string) :
  distance_level <> "Local (same city)" ->
  distance_level <> "National (within country)" ->
  distance_level <> "International (overseas)" ->
  Py.get DISTANCE_MULTIPLIERS distance_level 1.0%float = 1.0%float
  /\ estimate_emission category price_usd quantity distance_level weight_kg
       shipping_speed
     = estimate_emission category price_usd quantity "Local (same city)"
         weight_kg shipping_speed
  /\ (forall e, estimate_emission category price_usd quantity distance_level
                  weight_kg shipping_speed = Raise e ->
                e = OverflowError /\ Py.float_of_int quantity = Raise OverflowError)
  /\ ((Z.abs quantity < float_range)%Z ->
      returns (estimate_emission category price_usd quantity distance_level
                 weight_kg shipping_speed)).
Proof.
  intros H1 H2 H3.
  assert (Hnone : DISTANCE_MULTIPLIERS !! distance_level = None).
  { apply not_elem_of_list_to_map_1. cbn [fmap list_fmap fst].
    rewrite !not_elem_of_cons. repeat split; try assumption. apply not_elem_of_nil. }
  assert (Hget : Py.get DISTANCE_MULTIPLIERS distance_level 1.0%float = 1.0%float)
    by (unfold Py.get; rewrite Hnone; reflexivity).
  assert (Hlocal : Py.get DISTANCE_MULTIPLIERS "Local (same city)" 1.0%float = 1.0%float)
    by (vm_compute; reflexivity).
  split; [exact Hget | ].
  assert (Hsame : estimate_emission category price_usd quantity distance_level weight_kg
                    shipping_speed
                  = estimate_emission category price_usd quantity "Local (same city)"
                      weight_kg shipping_speed).
  { unfold estimate_emission. rewrite Hget, Hlocal. reflexivity. }
  split; [exact Hsame | ]. split.
  - intros e. rewrite Estimate.estimate_emission_steps.
    destruct (Py.float_of_int quantity) as [q | e' | ] eqn:Eq;
      cbn [mbind outcome_bind]; try discriminate.
    intros [= <-]. revert Eq. unfold Py.float_of_int.
    destruct (binary_normalize prec emax quantity 0 false); try discriminate.
    intros [= <-]. split; reflexivity.
  - intros Hq. destruct (PyFacts.float_of_int_returns quantity Hq) as [q Eq].
    rewrite Estimate.estimate_emission_steps, Eq. cbn [mbind outcome_bind].
    eexists. reflexivity.
Qed.

(** A distance level the table does not know. *)
Lemma estimate_emission_unknown_distance_witness :
  "Mars (outbound)" <> "Local (same city)"
  /\ "Mars (outbound)" <> "National (within country)"
  /\ "Mars (outbound)" <> "International (overseas)"
  /\ Py.get DISTANCE_MULTIPLIERS "Mars (outbound)" 1.0%float = 1.0%float
  /\ estimate_emission "Books / Media" 12.5 3 "Mars (outbound)" None "Two-day"
     = estimate_emission "Books / Media" 12.5 3 "Local (same city)" None "Two-day"
  /\ (forall e, estimate_emission "Books / Media" 12.5 3 "Mars (outbound)" None
                  "Two-day" = Raise e ->
                e = OverflowError /\ Py.float_of_int 3 = Raise OverflowError)
  /\ ((Z.abs 3 < float_range)%Z ->
      returns (estimate_emission "Books / Media" 12.5 3 "Mars (outbound)" None
                 "Two-day")).
Proof.
  assert (H1 : "Mars (outbound)" <> "Local (same city)") by discriminate.
  assert (H2 : "Mars (outbound)" <> "National (within country)") by discriminate.
  assert (H3 : "Mars (outbound)" <> "International (overseas)") by discriminate.
  split; [exact H1 | ]. split; [exact H2 | ]. split; [exact H3 | ].
  exact (estimate_emission_unknown_distance "Books / Media" 12.5 3 "Mars (outbound)"
           None "Two-day" H1 H2 H3).
Defined.

(** C8, at inputs where the claim as stated fails: a negative price and a
    zero quantity are not rejected; [estimate_emission] computes with them
    and returns 0.0 (with a weight, the weight term alone). *)
Lemma estimate_emission_accepts_contract_violations :
  estimate_emission "Books / Media" (-10) 1 "Local (same city)" None "Two-day"
  = Ret 0%float
  /\ estimate_emission "Books / Media" 12.5 0 "Local (same city)" None "Two-day"
     = Ret 0%float
  /\ estimate_emission "Books / Media" 12.5 0 "Local (same city)" (Some 4%float)
       "Two-day" = Ret 3%float.
Proof. repeat split; vm_compute; reflexivity. Qed.

(** C8 (amended): [estimate_emission] validates nothing.  It returns a value
    for every price, negative ones included, and every quantity that
    converts to a float, zero included; an unknown category is computed as
    "Misc / Other", an absent weight as a weight of zero, and an empty item
    name is replaced by the category, all without error. *)
Theorem estimate_emission_no_validation :
  (forall (category : string) (price_usd : float) (quantity : Z)
          (distance_level : string) (weight_kg : option float)
          (shipping_speed : string),
      (Z.abs quantity < float_range)%Z ->
      returns (estimate_emission category price_usd quantity distance_level
                 weight_kg shipping_speed))
  /\ (forall (category : string) (price_usd : float) (quantity : Z)
             (distance_level : string) (weight_kg : option float)
             (shipping_speed : string),
         EMISSION_FACTORS !! category = None ->
         estimate_emission category price_usd quantity distance_level weight_kg
           shipping_speed
         = estimate_emission "Misc / Other" price_usd quantity distance_level
             weight_kg shipping_speed)
  /\ (forall (category : string) (price_usd : float) (quantity : Z)
             (distance_level shipping_speed : string),
         estimate_emission category price_usd quantity distance_level None
           shipping_speed
         = estimate_emission category price_usd quantity distance_level
             (Some 0%float) shipping_speed)
  /\ (forall category : string, feedback_label "" category = category).
Proof.
  split; [ | split; [ | split]].
  - intros category price_usd quantity distance_level weight_kg shipping_speed Hq.
    destruct (PyFacts.float_of_int_returns quantity Hq) as [q Eq].
    rewrite Estimate.estimate_emission_steps, Eq. cbn [mbind outcome_bind].
    eexists. reflexivity.
  - intros category price_usd quantity distance_level weight_kg shipping_speed Hc.
    rewrite !Estimate.estimate_emission_steps.
    assert (Hf : category_factor category = category_factor "Misc / Other").
    { unfold category_factor at 1. rewrite Hc. vm_compute. reflexivity. }
    rewrite Hf. reflexivity.
  - intros category price_usd quantity distance_level shipping_speed.
    rewrite !Estimate.estimate_emission_steps. reflexivity.
  - reflexivity.
Qed.

(** ** The display formatters *)

Module Format.

Lemma length_append (s1 s2 : string) :
  String.length (s1 +:+ s2) = (String.length s1 + String.length s2)%nat.
Proof.
  induction s1 as [ | c s1 IH]; [reflexivity | ].
  simpl. f_equal. exact IH.
Qed.

Lemma frac_digits_length (d : nat) (n : Z) :
  String.length (Fmt.frac_digits d n) = d.
Proof.
  revert n. induction d as [ | d IH]; intros n; cbn [Fmt.frac_digits]; [reflexivity | ].
  rewrite length_append, IH. cbn. lia.
Qed.

(** A finite float formatted with [d] decimals: a sign, the integer part
    and, when [d > 0], a point followed by exactly [d] digits. *)
Lemma fixed_decimals (d : nat) (x : float) (s : bool) (m : positive) (e : Z) :
  Prim2SF x = S754_finite s m e ->
  exists (int frac : string),
    Fmt.fixed d x
    = (if s then "-" else "") +:+ int +:+ (if (d =? 0)%nat then "" else "." +:+ frac)
    /\ String.length frac = d.
Proof.
  intros E. unfold Fmt.fixed. rewrite E. unfold Fmt.decimal.
  eexists _, _. split; [reflexivity | apply frac_digits_length].
Qed.

End Format.

(** C9, at inputs where the claim as stated fails: [format_tonnes] formats
    the product of the kilograms with the float nearest to 1/1000, which is
    not always the quotient by 1000.  4.5 kg is shown as 0.005 t, and
    4.5 / 1000 with three decimals is 0.004.  For the float just below 31.5
    the quotient lies strictly between 0.031 and 0.0315, so that its three
    decimals are 0.031 however a tie is rounded, and 0.032 t is shown. *)
Lemma format_tonnes_is_not_the_quotient :
  (format_tonnes 4.5 = "0.005 t CO2e"
   /\ Fmt.fixed 3 (4.5 / 1000)%float +:+ " t CO2e" = "0.004 t CO2e")
  /\ (let kg := 0x1.f7fffffffffffp+4%float in
      let m := 0x1f7fffffffffff%Z in
      Prim2SF kg = S754_finite false (Z.to_pos m) (-48)
      /\ (31 * 2 ^ 48 <= m /\ 2 * m < 63 * 2 ^ 48)%Z
      /\ format_tonnes kg = "0.032 t CO2e"
      /\ Fmt.fixed 3 (kg / 1000)%float +:+ " t CO2e" = "0.031 t CO2e").
Proof.
  split; [split; vm_compute; reflexivity | ].
  cbv zeta. split; [vm_compute; reflexivity | ].
  split; [split; vm_compute; [discriminate | reflexivity] | ].
  split; vm_compute; reflexivity.
Qed.

(** C9 (amended): [format_kg] renders a value below one kilogram as its
    product with 1000 with no decimals, in grams, and a value of one
    kilogram or more with two decimals, in kilograms; [format_tonnes]
    renders the product of the value with [KG_TO_TONNES], the float nearest
    to 1/1000, with three decimals; a finite value is rendered with exactly
    that many digits after the point; and [format_kg 0.5], [format_kg 1.0]
    and [format_tonnes 1000.0] are the strings of the specification. *)
Theorem format_rendering :
  (forall kg, flt kg 1 ->
     format_kg kg = Fmt.fixed 0 (kg * 1000)%float +:+ " g CO2e")
  /\ (forall kg, fle 1 kg -> format_kg kg = Fmt.fixed 2 kg +:+ " kg CO2e")
  /\ (forall kg, format_tonnes kg = Fmt.fixed 3 (kg * KG_TO_TONNES)%float +:+ " t CO2e")
  /\ (forall (d : nat) (x : float) s m e, Prim2SF x = S754_finite s m e ->
        exists (int frac : string),
          Fmt.fixed d x
          = (if s then "-" else "") +:+ int
            +:+ (if (d =? 0)%nat then "" else "." +:+ frac)
          /\ String.length frac = d)
  /\ format_kg 0.5 = "500 g CO2e"
  /\ format_kg 1.0 = "1.00 kg CO2e"
  /\ format_tonnes 1000.0 = "1.000 t CO2e".
Proof.
  split; [ | split; [ | split; [ | split; [ | split; [ | split]]]]].
  - intros kg H. unfold format_kg, flt in *. now rewrite H.
  - intros kg H. unfold format_kg. now rewrite (FloatOrder.ltb_false_of_leb 1 kg H).
  - reflexivity.
  - apply Format.fixed_decimals.
  - vm_compute. reflexivity.
  - vm_compute. reflexivity.
  - vm_compute. reflexivity.
Qed.

(** ** The seeded selections *)

Module Selection.
Local Open Scope Z_scope.

Lemma agree_refl {A} (m : outcome A) : agree m m.
Proof. intros a b H1 H2. congruence. Qed.

Lemma agree_bind {A B} (m1 m2 : outcome A) (f1 f2 : A -> outcome B) :
  agree m1 m2 -> (forall a, agree (f1 a) (f2 a)) ->
  agree (m1 ≫= f1) (m2 ≫= f2).
Proof.
  intros Hm Hf b1 b2. destruct m1 as [a1 | e1 | ], m2 as [a2 | e2 | ];
    cbn [mbind outcome_bind]; try discriminate.
  intros H1 H2. rewrite (Hm a1 a2 eq_refl eq_refl) in H1. exact (Hf a2 b1 b2 H1 H2).
Qed.

(** The value [_randbelow] returns does not depend on how many redraws
    the run was allowed. *)
Lemma randbelow_loop_agree (fuel1 fuel2 : nat) (n k r : Z) (s : MT19937.state) :
  agree (MT19937.randbelow_loop fuel1 n k r s) (MT19937.randbelow_loop fuel2 n k r s).
Proof.
  revert fuel2 r s. induction fuel1 as [ | fuel1 IH]; intros fuel2 r s a b;
    destruct fuel2 as [ | fuel2]; cbn [MT19937.randbelow_loop];
    destruct (r <? n); try congruence.
  destruct (MT19937.getrandbits k s) as [r' s']. apply IH.
Qed.

Lemma randbelow_agree (fuel1 fuel2 : nat) (n : Z) (s : MT19937.state) :
  agree (MT19937.randbelow fuel1 n s) (MT19937.randbelow fuel2 n s).
Proof.
  unfold MT19937.randbelow.
  destruct (MT19937.getrandbits (MT19937.bit_length n) s) as [r s'].
  apply randbelow_loop_agree.
Qed.

Lemma choice_agree {A} (fuel1 fuel2 : nat) (l : list A) (s : MT19937.state) :
  agree (MT19937.choice fuel1 l s) (MT19937.choice fuel2 l s).
Proof.
  unfold MT19937.choice. destruct (length l =? 0)%nat; [apply agree_refl | ].
  apply agree_bind; [apply randbelow_agree | ]. intros [i s']. apply agree_refl.
Qed.

(** What [_randbelow] returns is below its argument. *)
Lemma randbelow_loop_lt (fuel : nat) (n k r i : Z) (s s' : MT19937.state) :
  MT19937.randbelow_loop fuel n k r s = Ret (i, s') -> i < n.
Proof.
  revert r s. induction fuel as [ | fuel IH]; intros r s; cbn [MT19937.randbelow_loop];
    destruct (Z.ltb_spec r n); try discriminate; try (intros [= <- <-]; assumption).
  destruct (MT19937.getrandbits k s) as [r' s'']. apply IH.
Qed.

Lemma randbelow_lt (fuel : nat) (n i : Z) (s s' : MT19937.state) :
  MT19937.randbelow fuel n s = Ret (i, s') -> i < n.
Proof.
  unfold MT19937.randbelow.
  destruct (MT19937.getrandbits (MT19937.bit_length n) s) as [r s''].
  apply randbelow_loop_lt.
Qed.

(** [choice] from a sequence that is not empty: one draw below its length,
    and the element at that index. *)
Lemma choice_draw (fuel : nat) (l : list string) (s : MT19937.state) :
  l <> [] ->
  MT19937.choice fuel l s
  = '(i, s') ← MT19937.randbelow fuel (Z.of_nat (length l)) s;
    Ret (l !!! Z.to_nat i, s').
Proof.
  intros Hl. unfold MT19937.choice.
  destruct (Nat.eqb_spec (length l) 0) as [E | Hlen]; [now destruct l | ].
  destruct (MT19937.randbelow fuel (Z.of_nat (length l)) s) as [[i s'] | e | ] eqn:E;
    cbn [mbind outcome_bind]; try reflexivity.
  apply randbelow_lt in E.
  assert (Hi : (Z.to_nat i < length l)%nat) by lia.
  now rewrite (list_lookup_lookup_total_lt l _ Hi).
Qed.

Lemma choice_elem {A} (fuel : nat) (l : list A) (s s' : MT19937.state) (x : A) :
  MT19937.choice fuel l s = Ret (x, s') -> x ∈ l.
Proof.
  unfold MT19937.choice. destruct (length l =? 0)%nat; [discriminate | ].
  destruct (MT19937.randbelow fuel (Z.of_nat (length l)) s) as [[i s''] | e | ];
    cbn [mbind outcome_bind]; try discriminate.
  destruct (l !! Z.to_nat i) as [y | ] eqn:E; [ | discriminate].
  intros [= <- <-]. eapply list_elem_of_lookup_2, E.
Qed.

Lemma carries_refl {A} (m : outcome A) : carries m m.
Proof. intros a H. exact H. Qed.

Lemma carries_bind {A B} (m1 m2 : outcome A) (f1 f2 : A -> outcome B) :
  carries m1 m2 -> (forall a, carries (f1 a) (f2 a)) ->
  carries (m1 ≫= f1) (m2 ≫= f2).
Proof.
  intros Hm Hf b. destruct m1 as [a1 | e1 | ]; cbn [mbind outcome_bind];
    try discriminate.
  rewrite (Hm a1 eq_refl). cbn [mbind outcome_bind]. apply Hf.
Qed.

Lemma no_raise_bind {A B} (m : outcome A) (f : A -> outcome B) :
  no_raise m -> (forall a, no_raise (f a)) -> no_raise (m ≫= f).
Proof.
  intros Hm Hf e. destruct m as [a | e' | ]; cbn [mbind outcome_bind].
  - apply Hf.
  - destruct (Hm e' eq_refl).
  - discriminate.
Qed.

(** A longer run of [_randbelow] returns what a shorter one returned. *)
Lemma randbelow_loop_carries (fuel1 fuel2 : nat) (n k r : Z) (s : MT19937.state) :
  (fuel1 <= fuel2)%nat ->
  carries (MT19937.randbelow_loop fuel1 n k r s) (MT19937.randbelow_loop fuel2 n k r s).
Proof.
  revert fuel2 r s. induction fuel1 as [ | fuel1 IH]; intros fuel2 r s Hle a;
    destruct fuel2 as [ | fuel2]; cbn [MT19937.randbelow_loop];
    destruct (r <? n); try congruence; try lia.
  destruct (MT19937.getrandbits k s) as [r' s']. apply IH. lia.
Qed.

Lemma randbelow_carries (fuel1 fuel2 : nat) (n : Z) (s : MT19937.state) :
  (fuel1 <= fuel2)%nat ->
  carries (MT19937.randbelow fuel1 n s) (MT19937.randbelow fuel2 n s).
Proof.
  intros Hle. unfold MT19937.randbelow.
  destruct (MT19937.getrandbits (MT19937.bit_length n) s) as [r s'].
  now apply randbelow_loop_carries.
Qed.

Lemma choice_carries {A} (fuel1 fuel2 : nat) (l : list A) (s : MT19937.state) :
  (fuel1 <= fuel2)%nat ->
  carries (MT19937.choice fuel1 l s) (MT19937.choice fuel2 l s).
Proof.
  intros Hle. unfold MT19937.choice. destruct (length l =? 0)%nat; [apply carries_refl | ].
  apply carries_bind; [now apply randbelow_carries | ]. intros [i s']. apply carries_refl.
Qed.

(** [_randbelow] raises nothing, and neither does [choice] from a sequence
    that is not empty. *)
Lemma randbelow_loop_no_raise (fuel : nat) (n k r : Z) (s : MT19937.state) :
  no_raise (MT19937.randbelow_loop fuel n k r s).
Proof.
  revert r s. induction fuel as [ | fuel IH]; intros r s e;
    cbn [MT19937.randbelow_loop]; destruct (r <? n); try discriminate.
  destruct (MT19937.getrandbits k s) as [r' s']. apply IH.
Qed.

Lemma randbelow_no_raise (fuel : nat) (n : Z) (s : MT19937.state) :
  no_raise (MT19937.randbelow fuel n s).
Proof.
  unfold MT19937.randbelow.
  destruct (MT19937.getrandbits (MT19937.bit_length n) s) as [r s'].
  apply randbelow_loop_no_raise.
Qed.

Lemma choice_no_raise (fuel : nat) (l : list string) (s : MT19937.state) :
  l <> [] -> no_raise (MT19937.choice fuel l s).
Proof.
  intros Hl. rewrite (choice_draw fuel l s Hl).
  apply no_raise_bind; [apply randbelow_no_raise | ]. intros [i s'] e. discriminate.
Qed.

(** The pool of every band holds two remarks. *)
Lemma getitem_intensity (kg_co2 : float) :
  Py.getitem intensity_map (intensity kg_co2) = Ret (intensity_pool kg_co2)
  /\ length (intensity_pool kg_co2) = 2%nat.
Proof.
  unfold intensity_pool, intensity.
  destruct (PrimFloat.ltb kg_co2 0.5); [split; reflexivity | ].
  destruct (PrimFloat.ltb kg_co2 5); [split; reflexivity | ].
  destruct (PrimFloat.ltb kg_co2 50); split; reflexivity.
Qed.

Lemma tip_candidates_nonempty (category : string) : tip_candidates category <> [].
Proof.
  unfold tip_candidates.
  destruct (map snd (List.filter _ TIPS_TEMPLATES)) eqn:E; [discriminate | discriminate].
Qed.

End Selection.

(** A value at or above a threshold is not below a smaller one. *)
Lemma ltb_false_above (a b kg : float) :
  fle a b -> fle b kg -> PrimFloat.ltb kg a = false.
Proof.
  intros Hab Hb. apply FloatOrder.ltb_false_of_leb.
  exact (PrimFacts.fle_trans _ _ _ Hab Hb).
Qed.

(** C4: [choose_feedback] classifies its value into exactly one of four
    bands: below 0.5 mild, from 0.5 and below 5 noticeable, from 5 and below
    50 strong, from 50 epic; 0.4999, 0.5, 4.9999, 5.0, 49.9999 and 50.0 fall
    into mild, noticeable, noticeable, strong, strong and epic; and the
    remark of the message it returns is drawn from the pool of that band. *)
Theorem feedback_intensity_bands :
  (forall kg, flt kg 0.5 -> intensity kg = band_name Mild)
  /\ (forall kg, fle 0.5 kg -> flt kg 5 -> intensity kg = band_name Noticeable)
  /\ (forall kg, fle 5 kg -> flt kg 50 -> intensity kg = band_name Strong)
  /\ (forall kg, fle 50 kg -> intensity kg = band_name Epic)
  /\ (forall kg, exists b, intensity kg = band_name b)
  /\ map intensity [0.4999; 0.5; 4.9999; 5.0; 49.9999; 50.0]%float
     = map band_name [Mild; Noticeable; Noticeable; Strong; Strong; Epic]
  /\ (forall fuel item_name category kg seed_val s,
        choose_feedback fuel item_name category kg seed_val = Ret s ->
        exists tmpl line suffix,
          tmpl ∈ FEEDBACK_TEMPLATES
          /\ intensity_map !! intensity kg = Some (intensity_pool kg)
          /\ line ∈ intensity_pool kg
          /\ suffix ∈ SARCASTIC_SUFFIXES
          /\ s = format_item tmpl item_name +:+ " " +:+ line +:+ " " +:+ suffix).
Proof.
  split; [ | split; [ | split; [ | split; [ | split; [ | split]]]]].
  - intros kg H. unfold intensity, flt in *. now rewrite H.
  - intros kg H1 H2. unfold intensity, flt in *.
    now rewrite (FloatOrder.ltb_false_of_leb _ _ H1), H2.
  - intros kg H1 H2. unfold intensity, flt in *.
    rewrite (ltb_false_above 0.5 5 kg) by (trivial; reflexivity).
    now rewrite (FloatOrder.ltb_false_of_leb _ _ H1), H2.
  - intros kg H. unfold intensity.
    rewrite (ltb_false_above 0.5 50 kg) by (trivial; reflexivity).
    rewrite (ltb_false_above 5 50 kg) by (trivial; reflexivity).
    now rewrite (FloatOrder.ltb_false_of_leb _ _ H).
  - intros kg. unfold intensity.
    destruct (PrimFloat.ltb kg 0.5); [now exists Mild | ].
    destruct (PrimFloat.ltb kg 5); [now exists Noticeable | ].
    destruct (PrimFloat.ltb kg 50); [now exists Strong | now exists Epic].
  - vm_compute. reflexivity.
  - intros fuel item_name category kg seed_val s. unfold choose_feedback.
    destruct (MT19937.choice fuel FEEDBACK_TEMPLATES _) as [[tmpl r1] | | ] eqn:E1;
      cbn [mbind outcome_bind]; try discriminate.
    destruct (MT19937.choice fuel SARCASTIC_SUFFIXES r1) as [[suffix r2] | | ] eqn:E2;
      cbn [mbind outcome_bind]; try discriminate.
    destruct (Selection.getitem_intensity kg) as [Hpool _].
    rewrite Hpool. cbn [mbind outcome_bind].
    destruct (MT19937.choice fuel (intensity_pool kg) r2) as [[line r3] | | ] eqn:E3;
      cbn [mbind outcome_bind]; try discriminate.
    intros [= <-]. exists tmpl, line, suffix.
    apply Selection.choice_elem in E1, E2, E3.
    split; [exact E1 | ]. split; [ | split; [exact E3 | split; [exact E2 | reflexivity]]].
    unfold Py.getitem in Hpool.
    destruct (intensity_map !! intensity kg); [ | discriminate]. now injection Hpool as ->.
Qed.

(** C5: [choose_feedback] and [choose_tip] are functions of their
    arguments, the seed among them: two runs on the same arguments return
    the same string, however many redraws each run of the generator was
    allowed; nothing outside the arguments enters the result.  Neither
    raises, and a run that was allowed more redraws returns what a shorter
    one returned. *)
Theorem selection_is_deterministic :
  (forall item_name category kg seed_val fuel1 fuel2 s1 s2,
     choose_feedback fuel1 item_name category kg seed_val = Ret s1 ->
     choose_feedback fuel2 item_name category kg seed_val = Ret s2 ->
     s1 = s2)
  /\ (forall category distance weight_kg shipping_speed seed_val fuel1 fuel2 s1 s2,
        choose_tip fuel1 category distance weight_kg shipping_speed seed_val = Ret s1 ->
        choose_tip fuel2 category distance weight_kg shipping_speed seed_val = Ret s2 ->
        s1 = s2)
  /\ (forall item_name category kg seed_val fuel1 fuel2,
        no_raise (choose_feedback fuel1 item_name category kg seed_val)
        /\ ((fuel1 <= fuel2)%nat ->
            carries (choose_feedback fuel1 item_name category kg seed_val)
                    (choose_feedback fuel2 item_name category kg seed_val)))
  /\ (forall category distance weight_kg shipping_speed seed_val fuel1 fuel2,
        no_raise (choose_tip fuel1 category distance weight_kg shipping_speed seed_val)
        /\ ((fuel1 <= fuel2)%nat ->
            carries
              (choose_tip fuel1 category distance weight_kg shipping_speed seed_val)
              (choose_tip fuel2 category distance weight_kg shipping_speed seed_val))).
Proof.
  split; [ | split; [ | split]].
  - intros item_name category kg seed_val fuel1 fuel2.
    change (agree (choose_feedback fuel1 item_name category kg seed_val)
              (choose_feedback fuel2 item_name category kg seed_val)).
    unfold choose_feedback.
    apply Selection.agree_bind; [apply Selection.choice_agree | intros [tmpl r1]].
    apply Selection.agree_bind; [apply Selection.choice_agree | intros [suffix r2]].
    apply Selection.agree_bind; [apply Selection.agree_refl | intros pool].
    apply Selection.agree_bind; [apply Selection.choice_agree | intros [line r3]].
    apply Selection.agree_refl.
  - intros category distance weight_kg shipping_speed seed_val fuel1 fuel2.
    change (agree
              (choose_tip fuel1 category distance weight_kg shipping_speed seed_val)
              (choose_tip fuel2 category distance weight_kg shipping_speed seed_val)).
    unfold choose_tip.
    apply Selection.agree_bind; [apply Selection.choice_agree | intros [tip r1]].
    apply Selection.agree_bind; [apply Selection.choice_agree | intros [punch r2]].
    apply Selection.agree_refl.
  - intros item_name category kg seed_val fuel1 fuel2.
    destruct (Selection.getitem_intensity kg) as [Hpool Hlen].
    unfold choose_feedback. rewrite Hpool. split.
    + apply Selection.no_raise_bind;
        [apply Selection.choice_no_raise; discriminate | intros [tmpl r1]].
      apply Selection.no_raise_bind;
        [apply Selection.choice_no_raise; discriminate | intros [suffix r2]].
      cbn [mbind outcome_bind].
      apply Selection.no_raise_bind; [ | intros [line r3] e; discriminate].
      apply Selection.choice_no_raise. intros E. rewrite E in Hlen. discriminate.
    + intros Hle.
      apply Selection.carries_bind; [now apply Selection.choice_carries | intros [tmpl r1]].
      apply Selection.carries_bind; [now apply Selection.choice_carries | intros [suffix r2]].
      cbn [mbind outcome_bind].
      apply Selection.carries_bind; [now apply Selection.choice_carries | intros [line r3]].
      apply Selection.carries_refl.
  - intros category distance weight_kg shipping_speed seed_val fuel1 fuel2.
    unfold choose_tip. split.
    + apply Selection.no_raise_bind;
        [apply Selection.choice_no_raise, Selection.tip_candidates_nonempty
        | intros [tip r1]].
      apply Selection.no_raise_bind;
        [apply Selection.choice_no_raise; discriminate | intros [punch r2] e].
      discriminate.
    + intros Hle.
      apply Selection.carries_bind; [now apply Selection.choice_carries | intros [tip r1]].
      apply Selection.carries_bind; [now apply Selection.choice_carries | intros [punch r2]].
      apply Selection.carries_refl.
Qed.

(** Both selections return, with the same text for two different budgets. *)
Lemma selection_is_deterministic_witness :
  exists s1 s2 t1 t2,
    choose_feedback 8 "AirPods Pro" "Electronics (phone, laptop)" 30 42 = Ret s1
    /\ choose_feedback 64 "AirPods Pro" "Electronics (phone, laptop)" 30 42 = Ret s2
    /\ s1 = s2
    /\ choose_tip 8 "Electronics (phone, laptop)" "International (overseas)"
         (Some 12.5%float) "Express / Overnight" 42 = Ret t1
    /\ choose_tip 64 "Electronics (phone, laptop)" "International (overseas)"
         (Some 12.5%float) "Express / Overnight" 42 = Ret t2
    /\ t1 = t2.
Proof.
  assert (F8 : choose_feedback 8 "AirPods Pro" "Electronics (phone, laptop)" 30 42
               = Ret "You just added AirPods Pro to cart. The clouds sent a thank-you card (unsigned). That's the kind of purchase museums will catalog. (Your carbon ledger has been updated.)")
    by (vm_compute; reflexivity).
  assert (F64 : choose_feedback 64 "AirPods Pro" "Electronics (phone, laptop)" 30 42
                = Ret "You just added AirPods Pro to cart. The clouds sent a thank-you card (unsigned). That's the kind of purchase museums will catalog. (Your carbon ledger has been updated.)")
    by (vm_compute; reflexivity).
  assert (T8 : choose_tip 8 "Electronics (phone, laptop)" "International (overseas)"
                 (Some 12.5%float) "Express / Overnight" 42
               = Ret "Try second-hand or refurbished for Electronics (phone, laptop). Vintage has personality and smaller emissions. Skip express shipping next time — it's pricey for the planet. For heavy items, prefer consolidated shipping or local pickup. (Mood: fashionable, atmosphere: not so much.)")
    by (vm_compute; reflexivity).
  assert (T64 : choose_tip 64 "Electronics (phone, laptop)" "International (overseas)"
                  (Some 12.5%float) "Express / Overnight" 42
                = Ret "Try second-hand or refurbished for Electronics (phone, laptop). Vintage has personality and smaller emissions. Skip express shipping next time — it's pricey for the planet. For heavy items, prefer consolidated shipping or local pickup. (Mood: fashionable, atmosphere: not so much.)")
    by (vm_compute; reflexivity).
  eexists _, _, _, _.
  split; [exact F8 | ]. split; [exact F64 | ].
  split; [exact (proj1 selection_is_deterministic _ _ _ _ _ _ _ _ F8 F64) | ].
  split; [exact T8 | ]. split; [exact T64 | ].
  exact (proj1 (proj2 selection_is_deterministic) _ _ _ _ _ _ _ _ _ T8 T64).
Defined.

(** C6: the extra clauses of a tip are decided by three conditions taken
    in a fixed order of priority: express shipping, a weight present and
    above 10, an international distance.  A clause is appended only when
    its condition holds, at most two are appended, and they are the first
    two that qualify in that order; the tip returned is the chosen template,
    these clauses when there is one, and the punchline. *)
Theorem tip_extras_priority
    (distance : string) (weight_kg : option float) (shipping_speed : string) :
  let express := String.eqb shipping_speed "Express / Overnight" in
  let heavy := match weight_kg with
               | Some w => PrimFloat.ltb 10 w
               | None => false
               end in
  let international := String.eqb distance "International (overseas)" in
  take 2 (tip_extras distance weight_kg shipping_speed)
  = first_two_qualifying express heavy international
  /\ (length (first_two_qualifying express heavy international) <= 2)%nat
  /\ (forall fuel category seed_val s,
        choose_tip fuel category distance weight_kg shipping_speed seed_val = Ret s ->
        exists tip punch,
          tip ∈ tip_candidates category
          /\ punch ∈ PUNCHLINES
          /\ s = (match first_two_qualifying express heavy international with
                  | [] => Str.replace "{category}" category tip
                  | clauses => Str.replace "{category}" category tip
                               +:+ " " +:+ Str.join " " clauses
                  end) +:+ " " +:+ punch).
Proof.
  intros express heavy international.
  assert (Hheavy : match weight_kg with
                   | Some w => Py.float_bool w && PrimFloat.ltb 10 w
                   | None => false
                   end = heavy).
  { unfold heavy. destruct weight_kg as [w | ]; [ | reflexivity].
    destruct (PrimFloat.ltb 10 w) eqn:E; [ | apply andb_false_r].
    now rewrite (Estimate.float_bool_of_pos 10 w) by (trivial; reflexivity). }
  assert (Hextras : tip_extras distance weight_kg shipping_speed
                    = map snd (List.filter fst
                        [ (express, "Skip express shipping next time — it's pricey for the planet.");
                          (heavy, "For heavy items, prefer consolidated shipping or local pickup.");
                          (international, "Check if a local equivalent exists to avoid long-haul transport.") ])).
  { unfold tip_extras. fold express. fold international.
    replace (match weight_kg with
             | Some w => if Py.float_bool w && PrimFloat.ltb 10 w then _ else _
             | None => _
             end)
      with (if heavy
            then ((if express
                   then ([] ++ ["Skip express shipping next time — it's pricey for the planet."])%list
                   else []) ++ ["For heavy items, prefer consolidated shipping or local pickup."])%list
            else (if express
                  then ([] ++ ["Skip express shipping next time — it's pricey for the planet."])%list
                  else []))
      by (rewrite <- Hheavy; now destruct weight_kg).
    now destruct express, heavy, international. }
  split; [now rewrite Hextras | ]. split.
  { unfold first_two_qualifying. rewrite length_take. lia. }
  intros fuel category seed_val s. unfold choose_tip.
  destruct (MT19937.choice fuel (tip_candidates category) _) as [[tip r1] | | ] eqn:E1;
    cbn [mbind outcome_bind]; try discriminate.
  destruct (MT19937.choice fuel PUNCHLINES r1) as [[punch r2] | | ] eqn:E2;
    cbn [mbind outcome_bind]; try discriminate.
  intros [= <-]. exists tip, punch.
  apply Selection.choice_elem in E1, E2.
  split; [exact E1 | ]. split; [exact E2 | ].
  unfold first_two_qualifying. rewrite Hextras.
  now destruct express, heavy, international.
Qed.

(** C7, at the input where the claim as stated fails: with seed 0,
    [choose_feedback] returns the remark and the suffix that the second draw
    from five suffixes and the third draw from two remarks select; drawing
    the remark second and the suffix third, as the claim says, gives another
    message. *)
Lemma feedback_draws_suffix_before_remark :
  choose_feedback 64 "AirPods Pro" "Electronics (phone, laptop)" 30 0
  = Ret "You ordered AirPods Pro. If guilt were measurable, it'd be in tonnes. That's the kind of purchase museums will catalog. (Ask again in 5–10 business years.)"
  /\ choose_feedback_in_stated_order 64 "AirPods Pro" "Electronics (phone, laptop)" 30 0
     = Ret "You ordered AirPods Pro. If guilt were measurable, it'd be in tonnes. Atmosphere: concerned. (Your carbon ledger has been updated.)"
  /\ choose_feedback 64 "AirPods Pro" "Electronics (phone, laptop)" 30 0
     <> choose_feedback_in_stated_order 64 "AirPods Pro" "Electronics (phone, laptop)" 30 0.
Proof.
  assert (E1 : choose_feedback 64 "AirPods Pro" "Electronics (phone, laptop)" 30 0
               = Ret "You ordered AirPods Pro. If guilt were measurable, it'd be in tonnes. That's the kind of purchase museums will catalog. (Ask again in 5–10 business years.)")
    by (vm_compute; reflexivity).
  assert (E2 : choose_feedback_in_stated_order 64 "AirPods Pro"
                 "Electronics (phone, laptop)" 30 0
               = Ret "You ordered AirPods Pro. If guilt were measurable, it'd be in tonnes. Atmosphere: concerned. (Your carbon ledger has been updated.)")
    by (vm_compute; reflexivity).
  split; [exact E1 | ]. split; [exact E2 | ]. rewrite E1, E2. discriminate.
Qed.

(** C7 (amended): the draws of the seeded generator are, in order: for the
    feedback, the template among six, then the suffix among five, then the
    remark among the two of the band; for the tip, seeded with the seed plus
    7, the template among the candidates, then the punchline among five, the
    extra clauses taking no draw. *)
Theorem selection_draw_order :
  (forall fuel item_name category kg seed_val,
     choose_feedback fuel item_name category kg seed_val
     = '(i1, r1) ← MT19937.randbelow fuel 6 (MT19937.Random seed_val);
       '(i2, r2) ← MT19937.randbelow fuel 5 r1;
       '(i3, r3) ← MT19937.randbelow fuel 2 r2;
       Ret (format_item (FEEDBACK_TEMPLATES !!! Z.to_nat i1) item_name
            +:+ " " +:+ intensity_pool kg !!! Z.to_nat i3
            +:+ " " +:+ SARCASTIC_SUFFIXES !!! Z.to_nat i2))
  /\ (forall fuel category distance weight_kg shipping_speed seed_val,
        choose_tip fuel category distance weight_kg shipping_speed seed_val
        = '(i1, r1) ← MT19937.randbelow fuel
                        (Z.of_nat (length (tip_candidates category)))
                        (MT19937.Random (seed_val + 7));
          '(i2, r2) ← MT19937.randbelow fuel 5 r1;
          Ret ((match tip_extras distance weight_kg shipping_speed with
                | [] => Str.replace "{category}" category
                          (tip_candidates category !!! Z.to_nat i1)
                | extras => Str.replace "{category}" category
                              (tip_candidates category !!! Z.to_nat i1)
                            +:+ " " +:+ Str.join " " (take 2 extras)
                end) +:+ " " +:+ PUNCHLINES !!! Z.to_nat i2)).
Proof.
  split.
  - intros fuel item_name category kg seed_val. unfold choose_feedback.
    destruct (Selection.getitem_intensity kg) as [Hpool Hlen].
    rewrite (Selection.choice_draw fuel FEEDBACK_TEMPLATES) by discriminate.
    change (Z.of_nat (length FEEDBACK_TEMPLATES)) with 6%Z.
    destruct (MT19937.randbelow fuel 6 _) as [[i1 r1] | | ];
      cbn [mbind outcome_bind]; try reflexivity.
    rewrite (Selection.choice_draw fuel SARCASTIC_SUFFIXES) by discriminate.
    change (Z.of_nat (length SARCASTIC_SUFFIXES)) with 5%Z.
    destruct (MT19937.randbelow fuel 5 r1) as [[i2 r2] | | ];
      cbn [mbind outcome_bind]; try reflexivity.
    rewrite Hpool. cbn [mbind outcome_bind].
    rewrite (Selection.choice_draw fuel (intensity_pool kg))
      by (intros E; rewrite E in Hlen; discriminate).
    rewrite Hlen. change (Z.of_nat 2) with 2%Z.
    destruct (MT19937.randbelow fuel 2 r2) as [[i3 r3] | | ];
      cbn [mbind outcome_bind]; reflexivity.
  - intros fuel category distance weight_kg shipping_speed seed_val. unfold choose_tip.
    rewrite (Selection.choice_draw fuel (tip_candidates category))
      by apply Selection.tip_candidates_nonempty.
    destruct (MT19937.randbelow fuel _ _) as [[i1 r1] | | ];
      cbn [mbind outcome_bind]; try reflexivity.
    rewrite (Selection.choice_draw fuel PUNCHLINES) by discriminate.
    change (Z.of_nat (length PUNCHLINES)) with 5%Z.
    destruct (MT19937.randbelow fuel 5 r1) as [[i2 r2] | | ];
      cbn [mbind outcome_bind]; try reflexivity.
    now destruct (tip_extras distance weight_kg shipping_speed).
Qed.

(** ** The seed *)

Module Seed.
Local Open Scope Z_scope.

Lemma hex_value_digit (d : Z) : 0 <= d < 16 -> Str.hex_value (SHA256.hex_digit d) = d.
Proof.
  intros Hd. unfold Str.hex_value, SHA256.hex_digit.
  rewrite nat_ascii_embedding by (destruct (d <? 10); lia).
  destruct (Z.ltb_spec d 10).
  - rewrite Z2Nat.id by lia.
    destruct (Z.leb_spec 48 (48 + d)), (Z.leb_spec (48 + d) 57); cbn [andb]; lia.
  - rewrite Z2Nat.id by lia.
    destruct (Z.leb_spec 48 (87 + d)), (Z.leb_spec (87 + d) 57); cbn [andb]; try lia;
      destruct (Z.leb_spec 97 (87 + d)), (Z.leb_spec (87 + d) 102); cbn [andb]; lia.
Qed.

Lemma be_bytes_range (n : nat) (x : Z) : Forall (fun b => 0 <= b < 256) (SHA256.be_bytes n x).
Proof.
  unfold SHA256.be_bytes. apply Forall_map, Forall_forall. intros i _. cbn beta.
  change 255 with (Z.ones 8). rewrite Z.land_ones by lia.
  apply Z.mod_pos_bound. lia.
Qed.

Lemma digest_range (msg : list Z) : Forall (fun b => 0 <= b < 256) (SHA256.digest msg).
Proof.
  unfold SHA256.digest. apply Forall_concat, Forall_map, Forall_forall.
  intros w _. apply be_bytes_range.
Qed.

Lemma hex_fold (bs : list Z) (acc : Z) :
  Forall (fun b => 0 <= b < 256) bs ->
  fold_left (fun a c => a * 16 + Str.hex_value c)
    (concat (map (fun b => [SHA256.hex_digit (b / 16); SHA256.hex_digit (b mod 16)]) bs))
    acc
  = fold_left (fun a b => a * 256 + b) bs acc.
Proof.
  intros H. revert acc. induction H as [ | b bs Hb _ IH]; intros acc; [reflexivity | ].
  cbn [map concat app fold_left]. rewrite IH. f_equal.
  rewrite !hex_value_digit.
  - pose proof (Z.div_mod b 16 ltac:(lia)). lia.
  - apply Z.mod_pos_bound. lia.
  - split; [apply Z.div_pos; lia | apply Z.div_lt_upper_bound; lia].
Qed.

(** Reading the hexadecimal digest as an int is reading the 32 bytes of the
    digest as one big-endian integer. *)
Lemma int_of_hexdigest (msg : list Z) :
  Str.int_of_hex (SHA256.hexdigest msg) = SHA256.be_word (SHA256.digest msg).
Proof.
  unfold Str.int_of_hex, SHA256.hexdigest, SHA256.be_word.
  rewrite list_ascii_of_string_of_list_ascii. apply hex_fold, digest_range.
Qed.

(** *** The conversions that can raise *)

Lemma mapM_cons {A B} (f : A -> outcome B) (x : A) (l : list A) :
  mapM f (x :: l) = (y ← f x; k ← mapM f l; mret (y :: k)).
Proof. reflexivity. Qed.

(** The number of digits of a decimal text: the text of [m > 0] has at
    most [k] digits exactly when [m < 10^k]. *)
Lemma go_length_ge (n : N) (s : string) :
  (String.length s <= String.length (pretty_N_go n s))%nat.
Proof.
  revert s. induction (N.lt_wf 0 n) as [n _ IH]. intros s.
  destruct (N.eq_dec n 0%N) as [-> | Hn].
  - rewrite pretty_N_go_0. lia.
  - rewrite pretty_N_go_step by lia.
    assert (Hlt : (0 <= n `div` 10 < n)%N)
      by (split; [apply N.le_0_l | apply N.div_lt; lia]).
    pose proof (IH _ Hlt (String (pretty_N_char (n `mod` 10)%N) s)) as H.
    cbn [String.length] in H. lia.
Qed.

Lemma go_length_le (k : nat) (n : N) (s : string) :
  (0 < n < 10 ^ N.of_nat k)%N ->
  (String.length (pretty_N_go n s) <= k + String.length s)%nat.
Proof.
  revert n s. induction k as [ | k IH]; intros n s [Hpos Hlt].
  - cbn in Hlt. lia.
  - rewrite pretty_N_go_step by lia.
    destruct (N.eq_dec (n `div` 10)%N 0%N) as [E | E].
    + rewrite E, pretty_N_go_0. cbn [String.length]. lia.
    + assert (Hd : (0 < n `div` 10 < 10 ^ N.of_nat k)%N).
      { split; [apply N.neq_0_lt_0; exact E | ]. apply N.Div0.div_lt_upper_bound.
        rewrite Nat2N.inj_succ, N.pow_succ_r' in Hlt. exact Hlt. }
      pose proof (IH _ (String (pretty_N_char (n `mod` 10)%N) s) Hd) as H.
      cbn [String.length] in H. lia.
Qed.

Lemma go_length_gt (k : nat) (n : N) (s : string) :
  (10 ^ N.of_nat k <= n)%N ->
  (k + String.length s < String.length (pretty_N_go n s))%nat.
Proof.
  revert n s. induction k as [ | k IH]; intros n s Hle.
  - cbn in Hle. rewrite pretty_N_go_step by lia.
    pose proof (go_length_ge (n `div` 10)%N
                  (String (pretty_N_char (n `mod` 10)%N) s)) as H.
    cbn [String.length] in H. lia.
  - rewrite Nat2N.inj_succ, N.pow_succ_r' in Hle.
    assert (Hpos : (0 < 10 ^ N.of_nat k)%N)
      by (apply N.neq_0_lt_0, N.pow_nonzero; lia).
    rewrite pretty_N_go_step by lia.
    assert (Hd : (10 ^ N.of_nat k <= n `div` 10)%N)
      by (apply N.div_le_lower_bound; lia).
    pose proof (IH (n `div` 10)%N (String (pretty_N_char (n `mod` 10)%N) s) Hd) as H.
    cbn [String.length] in H. lia.
Qed.

Lemma of_int_positive (p : positive) :
  Str.of_int (Z.pos p) = pretty_N_go (N.pos p) "".
Proof. reflexivity. Qed.

Lemma pow_of_nat (k : Z) :
  0 <= k -> Z.of_N (10 ^ N.of_nat (Z.to_nat k)) = 10 ^ k.
Proof.
  intros Hk. rewrite N2Z.inj_pow, nat_N_Z, Z2Nat.id by exact Hk. reflexivity.
Qed.

Lemma decimal_digits_le (k m : Z) :
  0 <= k -> 0 < m < 10 ^ k -> Z.of_nat (String.length (Str.of_int m)) <= k.
Proof.
  intros Hk [Hpos Hlt]. destruct m as [ | p | p]; try lia.
  rewrite of_int_positive.
  assert (H : (0 < N.pos p < 10 ^ N.of_nat (Z.to_nat k))%N).
  { split; [reflexivity | ]. apply N2Z.inj_lt. now rewrite pow_of_nat. }
  pose proof (go_length_le (Z.to_nat k) (N.pos p) "" H) as L.
  cbn [String.length] in L. lia.
Qed.

Lemma decimal_digits_gt (k m : Z) :
  0 <= k -> 10 ^ k <= m -> k < Z.of_nat (String.length (Str.of_int m)).
Proof.
  intros Hk Hle.
  assert (Hpos : 0 < 10 ^ k) by (apply Z.pow_pos_nonneg; lia).
  destruct m as [ | p | p]; try lia.
  rewrite of_int_positive.
  assert (H : (10 ^ N.of_nat (Z.to_nat k) <= N.pos p)%N).
  { apply N2Z.inj_le. now rewrite pow_of_nat. }
  pose proof (go_length_gt (Z.to_nat k) (N.pos p) "" H) as L.
  cbn [String.length] in L. lia.
Qed.

Lemma str_of_int_fits (n : Z) :
  Z.abs n < 10 ^ Str.max_str_digits -> Str.str_of_int n = Ret (Str.of_int n).
Proof.
  intros H. unfold Str.str_of_int.
  destruct (Z.ltb_spec Str.max_str_digits
              (Z.of_nat (String.length (Str.of_int (Z.abs n))))) as [Hlt | _];
    [exfalso | reflexivity].
  destruct (Z.eq_dec (Z.abs n) 0) as [E | E].
  - rewrite E in Hlt. change (Str.of_int 0) with "0" in Hlt.
    cbn [String.length] in Hlt. unfold Str.max_str_digits in Hlt. lia.
  - pose proof (Z.abs_nonneg n) as Hn.
    assert (Hd : Z.of_nat (String.length (Str.of_int (Z.abs n))) <= Str.max_str_digits).
    { apply decimal_digits_le; [discriminate | ]. split; [ | exact H].
      destruct (Z.abs n); [now elim E | reflexivity | now elim Hn]. }
    apply (Z.lt_irrefl Str.max_str_digits). eapply Z.lt_le_trans; eassumption.
Qed.

Lemma str_of_int_raises (n : Z) :
  10 ^ Str.max_str_digits <= Z.abs n -> Str.str_of_int n = Raise ValueError.
Proof.
  intros H. unfold Str.str_of_int.
  pose proof (decimal_digits_gt Str.max_str_digits (Z.abs n) ltac:(discriminate) H) as Hd.
  destruct (Z.ltb_spec Str.max_str_digits
              (Z.of_nat (String.length (Str.of_int (Z.abs n))))) as [_ | Hle];
    [reflexivity | ].
  exfalso. apply (Z.lt_irrefl Str.max_str_digits). eapply Z.lt_le_trans; eassumption.
Qed.

(** [str] returns the string form, or raises [ValueError]. *)
Lemma str_cases (float_repr : float -> string) (v : pyval) :
  str float_repr v = Ret (string_form float_repr v)
  \/ str float_repr v = Raise ValueError.
Proof.
  destruct v as [s | n | x]; [now left | | now left].
  unfold str, string_form, Str.str_of_int.
  destruct (_ <? _); [now right | now left].
Qed.

Lemma within_str_digits_cons (v : pyval) (parts : list pyval) :
  within_str_digits (v :: parts) ->
  (forall n, v = PyInt n -> Z.abs n < 10 ^ Str.max_str_digits)
  /\ within_str_digits parts.
Proof.
  intros H. split.
  - intros n ->. apply H. now left.
  - intros n Hn. apply H. now right.
Qed.

Lemma mapM_str_fits (float_repr : float -> string) (parts : list pyval) :
  within_str_digits parts ->
  mapM (str float_repr) parts = Ret (map (string_form float_repr) parts).
Proof.
  induction parts as [ | v parts IH]; intros H; [reflexivity | ].
  apply within_str_digits_cons in H. destruct H as [Hv Hrest].
  rewrite mapM_cons, (IH Hrest).
  destruct v as [s | n | x]; try reflexivity.
  cbn [str string_form]. rewrite (str_of_int_fits n (Hv n eq_refl)). reflexivity.
Qed.

Lemma mapM_str_raises (float_repr : float -> string) (parts : list pyval) :
  (exists n, In (PyInt n) parts /\ 10 ^ Str.max_str_digits <= Z.abs n) ->
  mapM (str float_repr) parts = Raise ValueError.
Proof.
  induction parts as [ | v parts IH]; intros (n & Hin & Hn); [destruct Hin | ].
  rewrite mapM_cons. destruct Hin as [-> | Hin].
  - cbn [str]. rewrite (str_of_int_raises n Hn). reflexivity.
  - rewrite IH by (exists n; now split).
    destruct (str_cases float_repr v) as [-> | ->]; reflexivity.
Qed.

Lemma join_parts_fits (float_repr : float -> string) (parts : list pyval) :
  within_str_digits parts ->
  join_parts float_repr parts
  = Ret (Str.join "|" (map (string_form float_repr) parts)).
Proof. intros H. unfold join_parts. now rewrite mapM_str_fits. Qed.

Lemma join_parts_raises (float_repr : float -> string) (parts : list pyval) :
  (exists n, In (PyInt n) parts /\ 10 ^ Str.max_str_digits <= Z.abs n) ->
  join_parts float_repr parts = Raise ValueError.
Proof. intros H. unfold join_parts. now rewrite mapM_str_raises. Qed.

(** Either every int of the fields has at most 4300 digits, or one of them
    has more. *)
Lemma digits_cases (parts : list pyval) :
  within_str_digits parts
  \/ exists n, In (PyInt n) parts /\ 10 ^ Str.max_str_digits <= Z.abs n.
Proof.
  induction parts as [ | v parts [IH | (n & Hin & Hn)]].
  - left. intros n [].
  - assert (Hv : (forall n, v = PyInt n -> Z.abs n < 10 ^ Str.max_str_digits)
                 \/ exists n, v = PyInt n /\ 10 ^ Str.max_str_digits <= Z.abs n).
    { destruct v as [s | n | x]; [left; discriminate | | left; discriminate].
      destruct (Z.lt_ge_cases (Z.abs n) (10 ^ Str.max_str_digits)) as [Hlt | Hge].
      - left. intros n' E. injection E as <-. exact Hlt.
      - right. exists n. now split. }
    destruct Hv as [Hv | (n & -> & Hn)].
    + left. intros n [-> | Hin]; [now apply Hv | now apply IH].
    + right. exists n. split; [now left | exact Hn].
  - right. exists n. split; [now right | exact Hn].
Qed.

(** The seed is the digest of the bytes of the joined text and the stamp,
    read as a big-endian integer and reduced. *)
Lemma seed_of_digest (float_repr : float -> string) (now : datetime)
    (parts : list pyval) :
  deterministic_seed float_repr now parts
  = (base ← join_parts float_repr parts;
     bytes ← Str.encode_utf8 (base +:+ strftime_YmdHM now);
     mret (SHA256.be_word (SHA256.digest bytes) mod 2 ^ 32)).
Proof.
  unfold deterministic_seed.
  destruct (join_parts float_repr parts) as [base | e | ]; try reflexivity.
  cbn [mbind outcome_bind].
  destruct (Str.encode_utf8 _) as [bytes | e | ]; try reflexivity.
  cbn [mbind outcome_bind]. now rewrite int_of_hexdigest.
Qed.

(** A seed that is returned is a 32-bit number. *)
Lemma seed_range (float_repr : float -> string) (now : datetime)
    (parts : list pyval) (seed : Z) :
  deterministic_seed float_repr now parts = Ret seed -> 0 <= seed < 2 ^ 32.
Proof.
  unfold deterministic_seed.
  destruct (join_parts float_repr parts) as [base | e | ]; try discriminate.
  cbn [mbind outcome_bind].
  destruct (Str.encode_utf8 _) as [bytes | e | ]; try discriminate.
  cbn [mbind outcome_bind]. intros E. injection E as <-.
  apply Z.mod_pos_bound. reflexivity.
Qed.

(** With ints of at most 4300 digits, only the encoding can fail. *)
Lemma seed_within_digits (float_repr : float -> string) (now : datetime)
    (parts : list pyval) :
  within_str_digits parts ->
  let text := Str.join "|" (map (string_form float_repr) parts)
              +:+ strftime_YmdHM now in
  deterministic_seed float_repr now parts
  = if Str.has_surrogate (Str.encode text) then Raise UnicodeEncodeError
    else Ret (SHA256.be_word (SHA256.digest (Str.encode text)) mod 2 ^ 32).
Proof.
  intros H text. rewrite seed_of_digest, (join_parts_fits float_repr parts H).
  cbn [mbind outcome_bind]. fold text. unfold Str.encode_utf8.
  now destruct (Str.has_surrogate (Str.encode text)).
Qed.

Lemma seed_same_minute (float_repr : float -> string) (now now' : datetime)
    (parts : list pyval) :
  same_minute now now' ->
  deterministic_seed float_repr now' parts = deterministic_seed float_repr now parts.
Proof.
  intros (Hy & Hm & Hd & Hh & Hmin). unfold deterministic_seed, strftime_YmdHM.
  now rewrite Hy, Hm, Hd, Hh, Hmin.
Qed.

End Seed.

(** C3, at inputs where the claim as stated fails: [deterministic_seed]
    does fail for some inputs. An int field of 4301 digits makes [str]
    raise [ValueError], and a text field that holds the surrogate U+D800
    makes [.encode("utf-8")] raise [UnicodeEncodeError]; neither call
    returns a seed. *)
Lemma deterministic_seed_raises :
  let repr := fun _ : float => "0.0" in
  let t := {| year := 2026; month := 11; day := 6; hour := 0; minute := 12;
              second := 3; microsecond := 141592 |} in
  let lone_surrogate := String "237" (String "160" (String "128" "")) in
  deterministic_seed repr t [PyInt (10 ^ 4300)] = Raise ValueError
  /\ ~ returns (deterministic_seed repr t [PyInt (10 ^ 4300)])
  /\ deterministic_seed repr t [PyStr lone_surrogate] = Raise UnicodeEncodeError
  /\ ~ returns (deterministic_seed repr t [PyStr lone_surrogate]).
Proof.
  intros repr t lone_surrogate.
  assert (E1 : deterministic_seed repr t [PyInt (10 ^ 4300)] = Raise ValueError).
  { rewrite Seed.seed_of_digest, Seed.join_parts_raises; [reflexivity | ].
    exists (10 ^ 4300)%Z. split; [now left | ].
    rewrite Z.abs_eq by (apply Z.pow_nonneg; discriminate). apply Z.le_refl. }
  assert (E2 : deterministic_seed repr t [PyStr lone_surrogate]
               = Raise UnicodeEncodeError)
    by (vm_compute; reflexivity).
  split; [exact E1 | ]. split; [rewrite E1; intros [r H]; discriminate | ].
  split; [exact E2 | ]. rewrite E2. intros [r H]. discriminate.
Qed.

(** C3 (amended): [deterministic_seed] converts its arguments to their
    string forms from left to right and raises [ValueError] when one of
    them is an int of more than 4300 digits. Otherwise it joins the string
    forms with ["|"] and appends the clock's year, month, day, hour and
    minute; it raises [UnicodeEncodeError] when that text holds a surrogate
    code point, and otherwise hashes its bytes with SHA-256, reads the
    digest as an integer and returns it reduced modulo [2^32]. So every seed
    that is returned is in [[0, 2^32)], and two calls on the same arguments
    within the same minute have the same outcome: the same seed, or the same
    exception. *)
Theorem deterministic_seed_properties
    (float_repr : float -> string) (now : datetime) (parts : list pyval) :
  let text :=
    Str.join "|" (map (string_form float_repr) parts) +:+ strftime_YmdHM now in
  ((exists n, In (PyInt n) parts /\ (10 ^ 4300 <= Z.abs n)%Z) ->
     deterministic_seed float_repr now parts = Raise ValueError)
  /\ ((forall n, In (PyInt n) parts -> (Z.abs n < 10 ^ 4300)%Z) ->
      Str.has_surrogate (Str.encode text) = true ->
      deterministic_seed float_repr now parts = Raise UnicodeEncodeError)
  /\ ((forall n, In (PyInt n) parts -> (Z.abs n < 10 ^ 4300)%Z) ->
      Str.has_surrogate (Str.encode text) = false ->
      deterministic_seed float_repr now parts
      = Ret (SHA256.be_word (SHA256.digest (Str.encode text)) mod 2 ^ 32)%Z)
  /\ (forall seed, deterministic_seed float_repr now parts = Ret seed ->
        (0 <= seed < 2 ^ 32)%Z)
  /\ (forall now', same_minute now now' ->
        deterministic_seed float_repr now' parts
        = deterministic_seed float_repr now parts).
Proof.
  intros text. split; [ | split; [ | split; [ | split]]].
  - intros H. rewrite Seed.seed_of_digest, (Seed.join_parts_raises float_repr parts H).
    reflexivity.
  - intros H Hs. rewrite (Seed.seed_within_digits float_repr now parts H).
    fold text. now rewrite Hs.
  - intros H Hs. rewrite (Seed.seed_within_digits float_repr now parts H).
    fold text. now rewrite Hs.
  - intros seed. apply Seed.seed_range.
  - intros now'. apply Seed.seed_same_minute.
Qed.

(** A purchase submitted twice within the minute 2026-11-06 00:12. *)
Lemma deterministic_seed_witness :
  let repr := fun x : float => if PrimFloat.eqb x 49.99 then "49.99" else "0.0" in
  let parts := [PyStr "AirPods"; PyStr "Electronics (phone, laptop)"; PyFloat 49.99;
                PyInt 1; PyFloat 0; PyStr "Local (same city)"; PyStr "Two-day"] in
  let t := {| year := 2026; month := 11; day := 6; hour := 0; minute := 12;
              second := 3; microsecond := 141592 |} in
  let t' := {| year := 2026; month := 11; day := 6; hour := 0; minute := 12;
               second := 58; microsecond := 0 |} in
  same_minute t t'
  /\ deterministic_seed repr t parts = Ret 3441241667%Z
  /\ (0 <= 3441241667 < 2 ^ 32)%Z
  /\ deterministic_seed repr t' parts = deterministic_seed repr t parts.
Proof.
  intros repr parts t t'.
  assert (H : same_minute t t') by (repeat split).
  assert (E : deterministic_seed repr t parts = Ret 3441241667%Z)
    by (vm_compute; reflexivity).
  split; [exact H | ]. split; [exact E | ].
  split; [exact (proj1 (proj2 (proj2 (proj2
                   (deterministic_seed_properties repr t parts)))) _ E) | ].
  exact (proj2 (proj2 (proj2 (proj2 (deterministic_seed_properties repr t parts)))) t' H).
Defined.

(** * Further properties of the code *)

(** ** The estimate and its tables *)

Module Tables.
Import FloatOrder Rounding FloatOps PrimFacts PyFacts Estimate.

(** The estimate grows with each of the three table entries it multiplies. *)
Lemma estimate_emission_mono_tables (c c' d d' s s' : string) (price_usd : float)
    (quantity : Z) (weight_kg : option float) :
  nn price_usd -> (1 <= quantity < float_range)%Z -> valid_weight weight_kg ->
  fle (category_factor c) (category_factor c') ->
  fle (distance_multiplier d) (distance_multiplier d') ->
  fle (speed_multiplier s) (speed_multiplier s') ->
  exists r r',
    estimate_emission c price_usd quantity d weight_kg s = Ret r
    /\ estimate_emission c' price_usd quantity d' weight_kg s' = Ret r'
    /\ fle r r' /\ nn r.
Proof.
  intros Hp Hq Hw Hf Hd Hs.
  destruct (float_of_int_pos quantity ltac:(lia) ltac:(lia)) as (q & Eq & _ & Fq).
  rewrite !estimate_emission_steps, Eq. cbn [mbind outcome_bind].
  rewrite !speed_step_multiplier.
  pose proof (category_factor_posfin c) as Ff.
  pose proof (category_factor_posfin c') as Ff'.
  pose proof (distance_multiplier_posfin d) as Fd.
  pose proof (distance_multiplier_posfin d') as Fd'.
  pose proof (speed_multiplier_posfin s) as Fs.
  pose proof (speed_multiplier_posfin s') as Fs'.
  remember (category_factor c) as f eqn:E1.
  remember (category_factor c') as f' eqn:E2.
  remember (distance_multiplier d) as m eqn:E3.
  remember (distance_multiplier d') as m' eqn:E4.
  remember (speed_multiplier s) as v eqn:E5.
  remember (speed_multiplier s') as v' eqn:E6.
  clear E1 E2 E3 E4 E5 E6.
  (* price * factor *)
  pose proof (mul_nn price_usd f Hp Ff) as N1.
  pose proof (mul_nn price_usd f' Hp Ff') as N1'.
  pose proof (mul_mono_l price_usd f f' Hp Ff Ff' Hf) as H1.
  (* ... * quantity *)
  destruct (mul_mono_r _ _ q Fq N1 H1) as [H2 N2].
  pose proof (mul_nn _ q N1' Fq) as N2'.
  (* ... * distance multiplier *)
  destruct (mul_mono_r _ _ m Fd N2 H2) as [H3 N3].
  pose proof (mul_mono_l _ m m' N2' Fd Fd' Hd) as H3'.
  pose proof (fle_trans _ _ _ H3 H3') as H4.
  pose proof (mul_nn _ m' N2' Fd') as N4'.
  (* ... * speed multiplier *)
  destruct (mul_mono_r _ _ v Fs N3 H4) as [H5 N5].
  pose proof (mul_mono_l _ v v' N4' Fs Fs' Hs) as H5'.
  pose proof (fle_trans _ _ _ H5 H5') as H6.
  (* the weight term and the final maximum *)
  destruct (weight_step_mono weight_kg _ _ Hw N5 H6) as [H7 N7].
  eexists _, _. split; [reflexivity | ]. split; [reflexivity | ].
  rewrite !max_nn; [split; assumption | exact (nn_fle _ _ N7 H7) | exact N7].
Qed.

Lemma category_factor_bounds (category : string) :
  fle 0.04 (category_factor category) /\ fle (category_factor category) 0.55.
Proof.
  unfold category_factor.
  replace (EMISSION_FACTORS !! "Misc / Other") with (Some 0.16%float)
    by (vm_compute; reflexivity).
  destruct (EMISSION_FACTORS !! category) as [v | ] eqn:E; [ | split; vm_compute; reflexivity].
  apply elem_of_list_to_map_2 in E.
  repeat (apply elem_of_cons in E as [E | E];
          [injection E as _ ->; split; vm_compute; reflexivity | ]).
  now apply elem_of_nil in E.
Qed.

Lemma distance_multiplier_bounds (distance_level : string) :
  fle 1 (distance_multiplier distance_level)
  /\ fle (distance_multiplier distance_level) 1.4.
Proof.
  unfold distance_multiplier.
  destruct (DISTANCE_MULTIPLIERS !! distance_level) as [v | ] eqn:E;
    [ | split; vm_compute; reflexivity].
  apply elem_of_list_to_map_2 in E.
  repeat (apply elem_of_cons in E as [E | E];
          [injection E as _ ->; split; vm_compute; reflexivity | ]).
  now apply elem_of_nil in E.
Qed.

Lemma speed_multiplier_bounds (shipping_speed : string) :
  fle 1 (speed_multiplier shipping_speed)
  /\ fle (speed_multiplier shipping_speed) 1.15.
Proof.
  unfold speed_multiplier.
  destruct (String.eqb shipping_speed "Express / Overnight");
    [split; vm_compute; reflexivity | ].
  destruct (String.eqb shipping_speed "Two-day"); split; vm_compute; reflexivity.
Qed.

End Tables.

Module Edges.
Import FloatOrder Rounding FloatOps PrimFacts PyFacts Estimate.
Local Open Scope Z_scope.

(** An int at or beyond the float range rounds to an infinity. *)
Lemma round_int_overflow (s : bool) (p : positive) :
  float_range <= Z.pos p -> pack s (mant p 0) (expo p 0) = S754_infinity s.
Proof.
  unfold float_range. intros Hp.
  pose proof (digits_bounds p) as [Hl Hu].
  assert (Hd : 1023 < digits p) by (apply digits_lower; lia).
  assert (HE : expo p 0 = digits p - 53) by (unfold expo; rewrite fexp_eq; lia).
  pose proof (mant_normal p 0 ltac:(lia)) as Hlo.
  pose proof (mant_range p 0) as [_ Hhi].
  assert (Hcarry : digits p = 1024 -> mant p 0 = 2 ^ 53).
  { intros Hd'. revert Hhi. unfold mant. rewrite HE, Hd'.
    change (Z.max (0 - (1024 - 53)) 0) with 0. change (Z.max (1024 - 53 - 0) 0) with 971.
    rewrite Z.pow_0_r, Z.mul_1_r. unfold Fmt.round_half_even.
    pose proof (Z.div_mod (Z.pos p) (2 ^ 971) ltac:(lia)) as Hdm.
    pose proof (Z.mod_pos_bound (Z.pos p) (2 ^ 971) ltac:(lia)) as Hr.
    assert (H1 : 2 ^ 53 - 1 <= Z.pos p / 2 ^ 971).
    { apply Z.div_le_lower_bound; lia. }
    destruct (Z.compare_spec (2 * (Z.pos p mod 2 ^ 971)) (2 ^ 971)) as [He | Hlt | Hgt].
    - destruct (Z.even (Z.pos p / 2 ^ 971)) eqn:Ev; [ | lia].
      intros Hle. assert (Z.pos p / 2 ^ 971 = 2 ^ 53 - 1 \/ Z.pos p / 2 ^ 971 = 2 ^ 53) as [E | E] by lia;
        [rewrite E in Ev; discriminate Ev | exact E].
    - intros Hle.
      assert (Z.pos p / 2 ^ 971 = 2 ^ 53 - 1 \/ Z.pos p / 2 ^ 971 = 2 ^ 53) as [E | E] by lia;
        [ | exact E].
      rewrite E in Hdm. lia.
    - lia. }
  unfold pack. destruct (mant p 0) as [ | pm | pm] eqn:Hm; try lia.
  destruct (Z.ltb_spec (Z.pos pm) (2 ^ 53)).
  - destruct (Z.leb_spec (expo p 0) 971); [ | reflexivity].
    assert (digits p = 1024) by lia. specialize (Hcarry ltac:(assumption)). lia.
  - destruct (Z.leb_spec (expo p 0 + 1) 971); [lia | reflexivity].
Qed.

Lemma float_of_int_overflow (q : Z) :
  float_range <= Z.abs q -> Py.float_of_int q = Raise OverflowError.
Proof.
  intros Hq. unfold Py.float_of_int.
  destruct q as [ | p | p]; cbn [binary_normalize].
  - vm_compute in Hq. now destruct Hq.
  - rewrite binary_round_spec, round_int_overflow by lia. reflexivity.
  - rewrite binary_round_spec, round_int_overflow by lia. reflexivity.
Qed.

(** A number that is not below zero is at least zero, or is a NaN. *)
Lemma not_below_zero (z : float) :
  PrimFloat.ltb z 0 = false -> nn z \/ Prim2SF z = S754_nan.
Proof.
  intros H. destruct (key (Prim2SF z)) as [[[a b] c] | ] eqn:Hk.
  - left. apply nn_nonneg. exists (0, 0, 0), (a, b, c).
    split; [reflexivity | split; [exact Hk | ]].
    assert (Hn : ~ sf_lt (Prim2SF z) (Prim2SF 0)).
    { intros Hlt. apply ltb_lt in Hlt. congruence. }
    cbn [lex_le].
    destruct (Z_lt_le_dec a 0) as [Ha | Ha].
    { exfalso. apply Hn. exists (a, b, c), (0, 0, 0). repeat split; trivial. cbn. lia. }
    destruct (Prim2SF z) as [[] | [] | | [] m e]; cbn [key] in Hk; try discriminate;
      injection Hk as <- <- <-; lia.
  - right. destruct (Prim2SF z) as [[] | [] | | [] m e]; cbn [key] in Hk;
      try discriminate; reflexivity.
Qed.

(** The product of a number that is not positive with a positive finite one
    is not positive. *)
Lemma SFmul_nonpos (x c : spec_float) :
  valid_binary x = true -> valid_binary c = true ->
  sf_le x (S754_zero false) -> pos_finite c ->
  sf_le (SFmul prec emax x c) (S754_zero false).
Proof.
  intros Vx Vc Hx Hc.
  destruct c as [ | | | [] mc ec]; try contradiction.
  destruct Hx as (k & k0 & Hk & Hk0 & Hle). cbn [key] in Hk0. injection Hk0 as <-.
  destruct x as [sx | [] | | [] mx ex]; cbn [key] in Hk; try discriminate;
    injection Hk as <-; cbn [lex_le] in Hle; try lia.
  - cbn [SFmul]. exists (0, 0, 0), (0, 0, 0). repeat split; cbn; lia.
  - cbn [SFmul xorb]. exists (-2, 0, 0), (0, 0, 0). repeat split; cbn; lia.
  - rewrite SFmul_finite
      by (cbn [valid_binary] in Vx, Vc; assumption).
    cbn [xorb]. rewrite binary_round_spec.
    pose proof (mant_range (mx * mc) (ex + ec)) as [Hlo Hhi].
    unfold pack.
    destruct (mant (mx * mc) (ex + ec)) as [ | q | q]; try lia.
    + exists (0, 0, 0), (0, 0, 0). repeat split; cbn; lia.
    + destruct (Z.pos q <? 2 ^ 53).
      * destruct (expo (mx * mc) (ex + ec) <=? 971);
          eexists _, (0, 0, 0); (split; [reflexivity | split; [reflexivity | cbn; lia]]).
      * destruct (expo (mx * mc) (ex + ec) + 1 <=? 971);
          eexists _, (0, 0, 0); (split; [reflexivity | split; [reflexivity | cbn; lia]]).
Qed.

Lemma mul_nonpos (x c : float) : fle x 0 -> posfin c -> fle (x * c) 0.
Proof.
  intros Hx Hc. apply fle_le. rewrite mul_spec.
  apply SFmul_nonpos; try apply Prim2SF_valid; [exact (proj1 (fle_le x 0) Hx) | exact Hc].
Qed.

(** A number that is neither above nor below zero is zero. *)
Lemma max_nonpos (z : float) : fle z 0 -> PrimFloat.eqb (Py.max z 0) 0 = true.
Proof.
  intros Hz. unfold Py.max. destruct (PrimFloat.ltb z 0) eqn:E; [reflexivity | ].
  destruct (not_below_zero z E) as [Hn | Hn].
  - rewrite FloatAxioms.eqb_spec. apply SFeqb_key.
    apply fle_le in Hz. apply nn_nonneg in Hn.
    destruct Hz as (k & k0 & Hk & Hk0 & Hle), Hn as (k0' & k' & Hk0' & Hk' & Hle').
    change (Prim2SF 0) with (S754_zero false) in *. cbn [key] in Hk0, Hk0'.
    injection Hk0 as <-. injection Hk0' as <-.
    rewrite Hk in Hk'. injection Hk' as <-.
    destruct k as [[a b] c]. cbn [lex_le] in Hle, Hle'.
    exists (0, 0, 0). split; [ | reflexivity].
    rewrite Hk. f_equal.
    destruct (Prim2SF z) as [[] | [] | | [] m e]; cbn [key] in Hk; try discriminate;
      injection Hk as <- <- <-; try reflexivity; lia.
  - apply fle_le in Hz. destruct Hz as (k & _ & Hk & _). rewrite Hn in Hk. discriminate.
Qed.

End Edges.

(** X1: whatever its arguments (a negative price or weight, an unknown
    category), [estimate_emission] never returns a number below zero: what
    it returns is at least zero, or is a NaN. *)
Theorem estimate_emission_never_negative
    (category : string) (price_usd : float) (quantity : Z)
    (distance_level : string) (weight_kg : option float) (shipping_speed : string)
    (r : float) :
  estimate_emission category price_usd quantity distance_level weight_kg
    shipping_speed = Ret r ->
  PrimFloat.ltb r 0 = false /\ (nn r \/ PrimFloat.is_nan r = true).
Proof.
  rewrite Estimate.estimate_emission_steps.
  destruct (Py.float_of_int quantity) as [q | e | ]; cbn [mbind outcome_bind];
    try discriminate.
  intros [= <-]. unfold Py.max.
  remember (weight_step weight_kg _) as z eqn:Ez. clear Ez.
  destruct (PrimFloat.ltb z 0) eqn:E.
  - split; [reflexivity | left; reflexivity].
  - split; [exact E | ].
    destruct (Edges.not_below_zero z E) as [H | H]; [now left | right].
    unfold PrimFloat.is_nan. rewrite FloatAxioms.eqb_spec, H. reflexivity.
Qed.

(** A refund of ten dollars. *)
Lemma estimate_emission_never_negative_witness :
  estimate_emission "Books / Media" (-10) 3 "Local (same city)" None "Two-day" = Ret 0%float
  /\ PrimFloat.ltb 0 0 = false /\ (nn 0 \/ PrimFloat.is_nan 0 = true).
Proof.
  assert (E : estimate_emission "Books / Media" (-10) 3 "Local (same city)" None "Two-day"
              = Ret 0%float) by (vm_compute; reflexivity).
  split; [exact E | ].
  exact (estimate_emission_never_negative _ _ _ _ _ _ _ E).
Defined.

(** X2: for a price that is not negative, a quantity from 1 on that
    converts and a weight absent or not negative, the estimate does not
    decrease from a local to a national to an international delivery, nor
    from standard to two-day to express shipping, the other arguments being
    the same. *)
Theorem estimate_emission_ordered_by_shipping
    (category : string) (price_usd : float) (quantity : Z)
    (distance_level : string) (weight_kg : option float) (shipping_speed : string) :
  nn price_usd -> (1 <= quantity < float_range)%Z -> valid_weight weight_kg ->
  (exists local national international,
      estimate_emission category price_usd quantity "Local (same city)" weight_kg
        shipping_speed = Ret local
      /\ estimate_emission category price_usd quantity "National (within country)"
           weight_kg shipping_speed = Ret national
      /\ estimate_emission category price_usd quantity "International (overseas)"
           weight_kg shipping_speed = Ret international
      /\ fle local national /\ fle national international)
  /\ (exists standard two_day express,
        estimate_emission category price_usd quantity distance_level weight_kg
          "Standard (5–8 days)" = Ret standard
        /\ estimate_emission category price_usd quantity distance_level weight_kg
             "Two-day" = Ret two_day
        /\ estimate_emission category price_usd quantity distance_level weight_kg
             "Express / Overnight" = Ret express
        /\ fle standard two_day /\ fle two_day express).
Proof.
  intros Hp Hq Hw.
  pose proof (fun c d s c' d' s' =>
                Tables.estimate_emission_mono_tables c c' d d' s s' price_usd quantity
                  weight_kg Hp Hq Hw) as Hmono.
  assert (Hf : fle (category_factor category) (category_factor category)).
  { apply PrimFacts.fle_le, FloatOrder.le_refl.
    pose proof (Estimate.category_factor_posfin category) as F. unfold posfin in F.
    intros E. rewrite E in F. exact F. }
  assert (Hd : fle (distance_multiplier distance_level) (distance_multiplier distance_level)).
  { apply PrimFacts.fle_le, FloatOrder.le_refl.
    pose proof (Estimate.distance_multiplier_posfin distance_level) as F. unfold posfin in F.
    intros E. rewrite E in F. exact F. }
  assert (Hs : fle (speed_multiplier shipping_speed) (speed_multiplier shipping_speed)).
  { apply PrimFacts.fle_le, FloatOrder.le_refl.
    pose proof (Estimate.speed_multiplier_posfin shipping_speed) as F. unfold posfin in F.
    intros E. rewrite E in F. exact F. }
  split.
  - destruct (Hmono category "Local (same city)" shipping_speed
                category "National (within country)" shipping_speed
                Hf ltac:(vm_compute; reflexivity) Hs) as (l & n & El & En & Hln & _).
    destruct (Hmono category "National (within country)" shipping_speed
                category "International (overseas)" shipping_speed
                Hf ltac:(vm_compute; reflexivity) Hs) as (n' & i & En' & Ei & Hni & _).
    rewrite En in En'. injection En' as <-.
    exists l, n, i. split; [exact El | ]. split; [exact En | ]. split; [exact Ei | ].
    split; assumption.
  - destruct (Hmono category distance_level "Standard (5–8 days)"
                category distance_level "Two-day"
                Hf Hd ltac:(vm_compute; reflexivity)) as (s & t & Es & Et & Hst & _).
    destruct (Hmono category distance_level "Two-day"
                category distance_level "Express / Overnight"
                Hf Hd ltac:(vm_compute; reflexivity)) as (t' & x & Et' & Ex & Htx & _).
    rewrite Et in Et'. injection Et' as <-.
    exists s, t, x. split; [exact Es | ]. split; [exact Et | ]. split; [exact Ex | ].
    split; assumption.
Qed.

(** Two shirts of 400 g. *)
Lemma estimate_emission_ordered_by_shipping_witness :
  nn 49.99 /\ (1 <= 2 < float_range)%Z /\ valid_weight (Some 0.4%float)
  /\ (exists local national international,
         estimate_emission "Clothing (fast fashion)" 49.99 2 "Local (same city)"
           (Some 0.4%float) "Two-day" = Ret local
         /\ estimate_emission "Clothing (fast fashion)" 49.99 2
              "National (within country)" (Some 0.4%float) "Two-day" = Ret national
         /\ estimate_emission "Clothing (fast fashion)" 49.99 2
              "International (overseas)" (Some 0.4%float) "Two-day" = Ret international
         /\ fle local national /\ fle national international)
  /\ (exists standard two_day express,
        estimate_emission "Clothing (fast fashion)" 49.99 2 "National (within country)"
          (Some 0.4%float) "Standard (5–8 days)" = Ret standard
        /\ estimate_emission "Clothing (fast fashion)" 49.99 2 "National (within country)"
             (Some 0.4%float) "Two-day" = Ret two_day
        /\ estimate_emission "Clothing (fast fashion)" 49.99 2 "National (within country)"
             (Some 0.4%float) "Express / Overnight" = Ret express
        /\ fle standard two_day /\ fle two_day express).
Proof.
  assert (H1 : nn 49.99) by reflexivity.
  assert (H2 : (1 <= 2 < float_range)%Z) by (split; [lia | reflexivity]).
  assert (H3 : valid_weight (Some 0.4%float)) by reflexivity.
  split; [exact H1 | ]. split; [exact H2 | ]. split; [exact H3 | ].
  exact (estimate_emission_ordered_by_shipping "Clothing (fast fashion)" 49.99 2
           "National (within country)" (Some 0.4%float) "Two-day" H1 H2 H3).
Defined.

(** X3: for such a purchase, whatever the category, the distance level and
    the shipping speed (known to the tables or not), the estimate lies
    between the one of a subscription delivered locally at standard speed
    and the one of a flight booked overseas with express shipping. *)
Theorem estimate_emission_table_bounds
    (category : string) (price_usd : float) (quantity : Z)
    (distance_level : string) (weight_kg : option float) (shipping_speed : string) :
  nn price_usd -> (1 <= quantity < float_range)%Z -> valid_weight weight_kg ->
  exists least r most,
    estimate_emission "Services / Subscriptions" price_usd quantity "Local (same city)"
      weight_kg "Standard (5–8 days)" = Ret least
    /\ estimate_emission category price_usd quantity distance_level weight_kg
         shipping_speed = Ret r
    /\ estimate_emission "Flight / Travel booking (ticket)" price_usd quantity
         "International (overseas)" weight_kg "Express / Overnight" = Ret most
    /\ fle least r /\ fle r most.
Proof.
  intros Hp Hq Hw.
  destruct (Tables.category_factor_bounds category) as [Hc1 Hc2].
  destruct (Tables.distance_multiplier_bounds distance_level) as [Hd1 Hd2].
  destruct (Tables.speed_multiplier_bounds shipping_speed) as [Hs1 Hs2].
  destruct (Tables.estimate_emission_mono_tables
              "Services / Subscriptions" category "Local (same city)" distance_level
              "Standard (5–8 days)" shipping_speed price_usd quantity weight_kg
              Hp Hq Hw Hc1 Hd1 Hs1) as (lo & r & Elo & Er & Hlo & _).
  destruct (Tables.estimate_emission_mono_tables
              category "Flight / Travel booking (ticket)" distance_level
              "International (overseas)" shipping_speed "Express / Overnight"
              price_usd quantity weight_kg Hp Hq Hw Hc2 Hd2 Hs2)
    as (r' & hi & Er' & Ehi & Hhi & _).
  rewrite Er in Er'. injection Er' as <-.
  exists lo, r, hi. split; [exact Elo | ]. split; [exact Er | ]. split; [exact Ehi | ].
  split; assumption.
Qed.

(** A category, a distance and a speed the tables do not know. *)
Lemma estimate_emission_table_bounds_witness :
  nn 120 /\ (1 <= 1 < float_range)%Z /\ valid_weight None
  /\ exists least r most,
       estimate_emission "Services / Subscriptions" 120 1 "Local (same city)"
         None "Standard (5–8 days)" = Ret least
       /\ estimate_emission "Atlantis souvenirs" 120 1 "Orbital" None "Teleport" = Ret r
       /\ estimate_emission "Flight / Travel booking (ticket)" 120 1
            "International (overseas)" None "Express / Overnight" = Ret most
       /\ fle least r /\ fle r most.
Proof.
  assert (H1 : nn 120) by reflexivity.
  assert (H2 : (1 <= 1 < float_range)%Z) by (split; [lia | reflexivity]).
  split; [exact H1 | ]. split; [exact H2 | ]. split; [exact I | ].
  exact (estimate_emission_table_bounds "Atlantis souvenirs" 120 1 "Orbital" None
           "Teleport" H1 H2 I).
Defined.

(** X4: for a price that is not negative and a quantity from 1 on that
    converts, a weight above zero adds [sqrt(weight) * 1.5] to the estimate
    of the same purchase without weight, the same amount whatever the
    category, the price, the distance and the speed; a weight that is zero,
    negative or a NaN is ignored. *)
Theorem estimate_emission_weight_surcharge
    (category : string) (price_usd : float) (quantity : Z)
    (distance_level : string) (w : float) (shipping_speed : string) :
  nn price_usd -> (1 <= quantity < float_range)%Z ->
  exists r,
    estimate_emission category price_usd quantity distance_level None shipping_speed
    = Ret r
    /\ estimate_emission category price_usd quantity distance_level (Some w)
         shipping_speed
       = Ret (if PrimFloat.ltb 0 w then (r + PrimFloat.sqrt w * 1.5)%float else r).
Proof.
  intros Hp Hq.
  destruct (PyFacts.float_of_int_pos quantity ltac:(lia) ltac:(lia)) as (q & Eq & _ & Fq).
  rewrite !Estimate.estimate_emission_steps, Eq. cbn [mbind outcome_bind weight_step].
  pose proof (Estimate.category_factor_posfin category) as Ff.
  pose proof (Estimate.distance_multiplier_posfin distance_level) as Fd.
  remember (category_factor category) as f eqn:E1.
  remember (distance_multiplier distance_level) as d eqn:E2.
  clear E1 E2.
  assert (Nb : nn (price_usd * f * q * d)%float).
  { apply PrimFacts.mul_nn; [ | exact Fd]. apply PrimFacts.mul_nn; [ | exact Fq].
    apply PrimFacts.mul_nn; [exact Hp | exact Ff]. }
  destruct (Estimate.speed_step_mono shipping_speed _ _ Nb (PrimFacts.fle_refl _ Nb))
    as [_ Nz].
  remember (speed_step shipping_speed (price_usd * f * q * d)%float) as z eqn:Ez.
  clear Ez. exists z. rewrite (PyFacts.max_nn z Nz). split; [reflexivity | ].
  destruct (PrimFloat.ltb 0 w) eqn:Hw.
  - assert (N0 : nn 0) by reflexivity.
    rewrite (Estimate.float_bool_of_pos 0 w N0 Hw). cbn [andb].
    assert (Nw : nn w).
    { apply PrimFacts.nn_nonneg. apply FloatOrder.ltb_lt in Hw.
      destruct Hw as (k & k' & Hk & Hk' & Hl). exists k, k'.
      split; [exact Hk | split; [exact Hk' | ]].
      destruct k as [[a b] c], k' as [[a' b'] c']. cbn in *. lia. }
    destruct (Estimate.sqrt_term_mono w w Nw (PrimFacts.fle_refl w Nw)) as [_ Nt].
    now rewrite (PyFacts.max_nn _ (PrimFacts.add_nn _ _ Nz Nt)).
  - rewrite andb_false_r. now rewrite (PyFacts.max_nn z Nz).
Qed.

(** Three books of four kilograms. *)
Lemma estimate_emission_weight_surcharge_witness :
  nn 12.5 /\ (1 <= 3 < float_range)%Z
  /\ exists r,
       estimate_emission "Books / Media" 12.5 3 "Local (same city)" None "Two-day" = Ret r
       /\ estimate_emission "Books / Media" 12.5 3 "Local (same city)" (Some 4%float)
            "Two-day"
          = Ret (if PrimFloat.ltb 0 4 then (r + PrimFloat.sqrt 4 * 1.5)%float else r).
Proof.
  assert (H1 : nn 12.5) by reflexivity.
  assert (H2 : (1 <= 3 < float_range)%Z) by (split; [lia | reflexivity]).
  split; [exact H1 | ]. split; [exact H2 | ].
  exact (estimate_emission_weight_surcharge "Books / Media" 12.5 3 "Local (same city)"
           4 "Two-day" H1 H2).
Defined.

(** X5: a price that is zero or negative, with a quantity from 1 on that
    converts and no weight, gives an estimate equal to zero, whatever the
    category, the distance and the speed. *)
Theorem estimate_emission_refund_is_zero
    (category : string) (price_usd : float) (quantity : Z)
    (distance_level shipping_speed : string) :
  fle price_usd 0 -> (1 <= quantity < float_range)%Z ->
  exists r,
    estimate_emission category price_usd quantity distance_level None shipping_speed
    = Ret r
    /\ PrimFloat.eqb r 0 = true.
Proof.
  intros Hp Hq.
  destruct (PyFacts.float_of_int_pos quantity ltac:(lia) ltac:(lia)) as (q & Eq & _ & Fq).
  rewrite Estimate.estimate_emission_steps, Eq. cbn [mbind outcome_bind weight_step].
  rewrite Estimate.speed_step_multiplier.
  pose proof (Estimate.category_factor_posfin category) as Ff.
  pose proof (Estimate.distance_multiplier_posfin distance_level) as Fd.
  pose proof (Estimate.speed_multiplier_posfin shipping_speed) as Fs.
  remember (category_factor category) as f eqn:E1.
  remember (distance_multiplier distance_level) as d eqn:E2.
  remember (speed_multiplier shipping_speed) as v eqn:E3.
  clear E1 E2 E3.
  eexists. split; [reflexivity | ].
  apply Edges.max_nonpos.
  apply Edges.mul_nonpos; [ | exact Fs].
  apply Edges.mul_nonpos; [ | exact Fd].
  apply Edges.mul_nonpos; [ | exact Fq].
  apply Edges.mul_nonpos; [exact Hp | exact Ff].
Qed.

(** A refund shipped overseas. *)
Lemma estimate_emission_refund_is_zero_witness :
  fle (-19.99) 0 /\ (1 <= 2 < float_range)%Z
  /\ exists r,
       estimate_emission "Packaged goods" (-19.99) 2 "International (overseas)" None
         "Express / Overnight" = Ret r
       /\ PrimFloat.eqb r 0 = true.
Proof.
  assert (H1 : fle (-19.99) 0) by reflexivity.
  assert (H2 : (1 <= 2 < float_range)%Z) by (split; [lia | reflexivity]).
  split; [exact H1 | ]. split; [exact H2 | ].
  exact (estimate_emission_refund_is_zero "Packaged goods" (-19.99) 2
           "International (overseas)" "Express / Overnight" H1 H2).
Defined.

(** X6: [estimate_emission] raises exactly when the quantity does not
    convert to a float, that is when its absolute value is at least
    [2^1024 - 2^970]; the exception is then [OverflowError], whatever the
    other arguments; for every other quantity it returns. *)
Theorem estimate_emission_raises_exactly
    (category : string) (price_usd : float) (quantity : Z)
    (distance_level : string) (weight_kg : option float) (shipping_speed : string) :
  ((float_range <= Z.abs quantity)%Z <->
   estimate_emission category price_usd quantity distance_level weight_kg
     shipping_speed = Raise OverflowError)
  /\ ((Z.abs quantity < float_range)%Z <->
      returns (estimate_emission category price_usd quantity distance_level weight_kg
                 shipping_speed))
  /\ (forall e, estimate_emission category price_usd quantity distance_level weight_kg
                  shipping_speed = Raise e -> e = OverflowError).
Proof.
  rewrite Estimate.estimate_emission_steps.
  destruct (Z_lt_le_dec (Z.abs quantity) float_range) as [Hq | Hq].
  - destruct (PyFacts.float_of_int_returns quantity Hq) as [q Eq].
    rewrite Eq. cbn [mbind outcome_bind].
    split; [split; [lia | discriminate] | ].
    split; [split; [intros _; eexists; reflexivity | intros _; exact Hq] | ].
    discriminate.
  - rewrite (Edges.float_of_int_overflow quantity Hq). cbn [mbind outcome_bind].
    split; [split; [reflexivity | intros _; exact Hq] | ].
    split; [split; [lia | intros [r H]; discriminate] | ].
    now intros e [= <-].
Qed.

(** ** What the formatters show *)

Module Shown.
Import FloatOrder Rounding FloatOps PrimFacts PyFacts.
Local Open Scope Z_scope.

Lemma fixed_shown (d : nat) (x : float) :
  unsigned_finite (Prim2SF x) ->
  Fmt.fixed d x = Fmt.decimal d (shown d (Prim2SF x)).
Proof.
  intros Hx. unfold Fmt.fixed, shown. pose proof (Prim2SF_valid x) as Hv.
  destruct (Prim2SF x) as [[] | | | [] m e]; try contradiction.
  - reflexivity.
  - cbn [valid_binary] in Hv. apply bounded_inv in Hv as (_ & _ & He & _).
    change (("" +:+ ?s)%string) with s. f_equal. cbn [ival].
    assert (H10 : 0 < 10 ^ Z.of_nat d) by (apply Z.pow_pos_nonneg; lia).
    apply round_half_even_ratio; try (apply Z.pow_pos_nonneg; lia).
    destruct (Z_lt_le_dec e 0) as [Hneg | Hpos].
    + rewrite (Z.max_r e 0), (Z.max_l (- e) 0), Z.pow_0_r by lia.
      replace 1074 with ((e + 1074) + - e) at 1 by lia.
      rewrite (Z.pow_add_r 2 (e + 1074) (- e)) by lia. ring.
    + rewrite (Z.max_r (- e) 0), (Z.max_l e 0), Z.pow_0_r by lia.
      rewrite (Z.pow_add_r 2 e 1074) by lia. ring.
Qed.

Lemma unsigned_finz (x : spec_float) : unsigned_finite x -> finz x.
Proof. now destruct x as [[] | | | [] m e]. Qed.

Lemma shown_mono (d : nat) (x y : float) :
  unsigned_finite (Prim2SF x) -> unsigned_finite (Prim2SF y) -> fle x y ->
  shown d (Prim2SF x) <= shown d (Prim2SF y).
Proof.
  intros Hx Hy Hxy. unfold shown.
  apply round_half_even_mono_num; [apply Z.pow_pos_nonneg; lia | ].
  apply Z.mul_le_mono_nonneg_r; [apply Z.pow_nonneg; lia | ].
  apply le_ival; try apply Prim2SF_valid; try (now apply unsigned_finz).
  now apply fle_le.
Qed.

(** Between two numbers printed with the same digits, every number is
    printed with these digits. *)
Lemma fixed_between (d : nat) (a x b : float) :
  unsigned_finite (Prim2SF a) -> unsigned_finite (Prim2SF x) ->
  unsigned_finite (Prim2SF b) ->
  fle a x -> fle x b -> shown d (Prim2SF a) = shown d (Prim2SF b) ->
  Fmt.fixed d x = Fmt.fixed d a.
Proof.
  intros Ha Hx Hb Hax Hxb Hab.
  rewrite !fixed_shown by assumption. f_equal.
  pose proof (shown_mono d a x Ha Hx Hax). pose proof (shown_mono d x b Hx Hb Hxb). lia.
Qed.

(** A number between two positive finite ones is positive and finite. *)
Lemma posfin_between (a x b : float) :
  posfin a -> posfin b -> fle a x -> fle x b -> posfin x.
Proof.
  unfold posfin. intros Ha Hb Hax Hxb.
  apply fle_le in Hax as (ka & kx & Hka & Hkx & Hle1).
  apply fle_le in Hxb as (kx' & kb & Hkx' & Hkb & Hle2).
  rewrite Hkx in Hkx'. injection Hkx' as <-.
  destruct (Prim2SF a) as [ | | | [] ma ea]; try contradiction.
  destruct (Prim2SF b) as [ | | | [] mb eb]; try contradiction.
  cbn [key] in Hka, Hkb. injection Hka as <-. injection Hkb as <-.
  destruct (Prim2SF x) as [[] | [] | | [] m e]; cbn [key] in Hkx; try discriminate;
    injection Hkx as <-; cbn [lex_le] in Hle1, Hle2; try lia.
  exact I.
Qed.

(** A number above zero and at most a positive finite one is positive and
    finite. *)
Lemma posfin_above_zero (x b : float) :
  posfin b -> flt 0 x -> fle x b -> posfin x.
Proof.
  unfold posfin. intros Hb H0 Hxb.
  apply flt_lt in H0 as (k0 & kx & Hk0 & Hkx & Hlt).
  apply fle_le in Hxb as (kx' & kb & Hkx' & Hkb & Hle2).
  rewrite Hkx in Hkx'. injection Hkx' as <-.
  change (Prim2SF 0) with (S754_zero false) in Hk0. cbn [key] in Hk0. injection Hk0 as <-.
  destruct (Prim2SF b) as [ | | | [] mb eb]; try contradiction.
  cbn [key] in Hkb. injection Hkb as <-.
  destruct (Prim2SF x) as [[] | [] | | [] m e]; cbn [key] in Hkx; try discriminate;
    injection Hkx as <-; cbn [lex_lt lex_le] in Hlt, Hle2; try lia.
  exact I.
Qed.

(** The product of two positive finite numbers, when it does not exceed a
    finite number, is printed without a sign. *)
Lemma mul_unsigned (x y b : float) :
  posfin x -> posfin y -> unsigned_finite (Prim2SF b) -> fle (x * y) b ->
  unsigned_finite (Prim2SF (x * y)).
Proof.
  unfold posfin. intros Hx Hy Hb Hle.
  apply fle_le in Hle as (kp & kb & Hkp & Hkb & Hle).
  revert Hkp. rewrite mul_spec.
  pose proof (Prim2SF_valid x) as Vx. pose proof (Prim2SF_valid y) as Vy.
  destruct (Prim2SF x) as [ | | | [] mx ex]; try contradiction.
  destruct (Prim2SF y) as [ | | | [] my ey]; try contradiction.
  rewrite SFmul_finite by assumption. cbn [xorb]. rewrite binary_round_spec.
  pose proof (mant_range (mx * my) (ex + ey)) as [Hlo Hhi].
  unfold pack. destruct (mant (mx * my) (ex + ey)) as [ | q | q]; try lia.
  - intros _. exact I.
  - assert (Hfin : key (S754_infinity false) = Some kp -> False).
    { intros [= <-].
      destruct (Prim2SF b) as [[] | | | [] mb eb]; try contradiction;
        cbn [key] in Hkb; injection Hkb as <-; cbn [lex_le] in Hle; lia. }
    destruct (Z.pos q <? 2 ^ 53).
    + destruct (expo (mx * my) (ex + ey) <=? 971); [intros _; exact I | ].
      intros H. destruct (Hfin H).
    + destruct (expo (mx * my) (ex + ey) + 1 <=? 971); [intros _; exact I | ].
      intros H. destruct (Hfin H).
Qed.

End Shown.

(** X7: what the two formatters show near their thresholds.  Every
    emission above zero and up to half a gram is shown as "0 g CO2e"; every
    value from 0.9995 kg and below 1 kg is shown as "1000 g CO2e", not in
    kilograms; every value from 1 kg to 1.005 kg is shown as
    "1.00 kg CO2e"; and every emission above zero and up to 499.9 g is
    shown as "0.000 t CO2e". *)
Theorem display_plateaus :
  (forall kg, flt 0 kg -> fle kg 0.0005 -> format_kg kg = "0 g CO2e")
  /\ (forall kg, fle 0.9995 kg -> flt kg 1 -> format_kg kg = "1000 g CO2e")
  /\ (forall kg, fle 1 kg -> fle kg 1.005 -> format_kg kg = "1.00 kg CO2e")
  /\ (forall kg, flt 0 kg -> fle kg 0.4999 -> format_tonnes kg = "0.000 t CO2e").
Proof.
  assert (F1000 : posfin 1000) by exact I.
  assert (Hweak : forall x y, flt x y -> fle x y).
  { intros x y H. apply PrimFacts.fle_le. apply PrimFacts.flt_lt in H.
    destruct H as (k & k' & Hk & Hk' & Hl). exists k, k'.
    split; [exact Hk | split; [exact Hk' | ]].
    destruct k as [[a b] c], k' as [[a' b'] c']. cbn in *. lia. }
  split; [ | split; [ | split]].
  - intros kg H0 H1.
    assert (Fk : posfin kg) by (apply (Shown.posfin_above_zero kg 0.0005); [exact I | | ]; assumption).
    assert (Hlt : PrimFloat.ltb kg 1 = true).
    { apply FloatOrder.ltb_lt. apply (FloatOrder.le_lt_trans _ (Prim2SF 0.0005)).
      - apply PrimFacts.fle_le. exact H1.
      - apply FloatOrder.ltb_lt. vm_compute. reflexivity. }
    unfold format_kg. rewrite Hlt.
    destruct (PrimFacts.mul_mono_r kg 0.0005 1000 F1000 (Hweak _ _ H0) H1) as [Hup Np].
    assert (Hb : unsigned_finite (Prim2SF (0.0005 * 1000)%float)) by (vm_compute; exact I).
    assert (Ha : unsigned_finite (Prim2SF 0)) by exact I.
    assert (Hs : shown 0 (Prim2SF 0) = shown 0 (Prim2SF (0.0005 * 1000)%float))
      by (vm_compute; reflexivity).
    pose proof (Shown.mul_unsigned kg 1000 _ Fk F1000 Hb Hup) as Hx.
    rewrite (Shown.fixed_between 0 0 _ _ Ha Hx Hb Np Hup Hs).
    vm_compute. reflexivity.
  - intros kg H0 H1.
    assert (Hle : fle kg 1) by (apply Hweak; exact H1).
    assert (Fk : posfin kg)
      by (apply (Shown.posfin_between 0.9995 kg 1); [exact I | exact I | | ]; assumption).
    unfold format_kg. unfold flt in H1. rewrite H1.
    assert (N0 : nn 0.9995) by (vm_compute; reflexivity).
    destruct (PrimFacts.mul_mono_r 0.9995 kg 1000 F1000 N0 H0) as [Hlo _].
    destruct (PrimFacts.mul_mono_r kg 1 1000 F1000 (PrimFacts.nn_fle _ _ N0 H0) Hle)
      as [Hup _].
    assert (Hb : unsigned_finite (Prim2SF (1 * 1000)%float)) by (vm_compute; exact I).
    assert (Ha : unsigned_finite (Prim2SF (0.9995 * 1000)%float)) by (vm_compute; exact I).
    assert (Hs : shown 0 (Prim2SF (0.9995 * 1000)%float)
                 = shown 0 (Prim2SF (1 * 1000)%float))
      by (vm_compute; reflexivity).
    pose proof (Shown.mul_unsigned kg 1000 _ Fk F1000 Hb Hup) as Hx.
    rewrite (Shown.fixed_between 0 _ _ _ Ha Hx Hb Hlo Hup Hs).
    vm_compute. reflexivity.
  - intros kg H0 H1.
    assert (Fk : posfin kg)
      by (apply (Shown.posfin_between 1 kg 1.005); [exact I | exact I | | ]; assumption).
    unfold format_kg. rewrite (FloatOrder.ltb_false_of_leb 1 kg H0).
    assert (Hb : unsigned_finite (Prim2SF 1.005)) by (vm_compute; exact I).
    assert (Ha : unsigned_finite (Prim2SF 1)) by (vm_compute; exact I).
    assert (Hs : shown 2 (Prim2SF 1) = shown 2 (Prim2SF 1.005)) by (vm_compute; reflexivity).
    assert (Hx : unsigned_finite (Prim2SF kg)).
    { unfold posfin in Fk. now destruct (Prim2SF kg) as [ | | | [] m e]. }
    rewrite (Shown.fixed_between 2 _ _ _ Ha Hx Hb H0 H1 Hs).
    vm_compute. reflexivity.
  - intros kg H0 H1.
    assert (Fk : posfin kg)
      by (apply (Shown.posfin_above_zero kg 0.4999); [exact I | | ]; assumption).
    assert (Ft : posfin KG_TO_TONNES) by (vm_compute; exact I).
    unfold format_tonnes. cbv zeta.
    destruct (PrimFacts.mul_mono_r kg 0.4999 KG_TO_TONNES Ft (Hweak _ _ H0) H1)
      as [Hup Np].
    assert (Hb : unsigned_finite (Prim2SF (0.4999 * KG_TO_TONNES)%float))
      by (vm_compute; exact I).
    assert (Ha : unsigned_finite (Prim2SF 0)) by exact I.
    assert (Hs : shown 3 (Prim2SF 0) = shown 3 (Prim2SF (0.4999 * KG_TO_TONNES)%float))
      by (vm_compute; reflexivity).
    pose proof (Shown.mul_unsigned kg KG_TO_TONNES _ Fk Ft Hb Hup) as Hx.
    rewrite (Shown.fixed_between 3 0 _ _ Ha Hx Hb Np Hup Hs).
    vm_compute. reflexivity.
Qed.

(** ** The minute stamp and the text of the seed *)

Module Stamp.
Local Open Scope Z_scope.

(** The decimal text of a positive int, digit by digit. *)
Lemma of_int_pos (y : Z) : 0 < y -> Str.of_int y = pretty_N_go (Z.to_N y) "".
Proof.
  intros Hy. destruct y as [ | p | p]; try lia.
  unfold Str.of_int, pretty, pretty_Z, pretty, pretty_N. cbn [Z.to_N].
  destruct (decide (N.pos p = 0%N)); [discriminate | reflexivity].
Qed.

Lemma year_length (y : Z) : 1000 <= y <= 9999 -> String.length (Str.of_int y) = 4%nat.
Proof.
  intros Hy. rewrite of_int_pos by lia.
  assert (Hx : (1000 <= Z.to_N y <= 9999)%N) by lia.
  remember (Z.to_N y) as x eqn:Ex. clear Ex Hy y.
  assert (H1 : (100 <= x / 10 <= 999)%N).
  { split; [apply N.div_le_lower_bound; lia | ].
    apply N.lt_succ_r, N.Div0.div_lt_upper_bound; lia. }
  assert (H2 : (10 <= x / 10 / 10 <= 99)%N).
  { split; [apply N.div_le_lower_bound; lia | ].
    apply N.lt_succ_r, N.Div0.div_lt_upper_bound; lia. }
  assert (H3 : (1 <= x / 10 / 10 / 10 <= 9)%N).
  { split; [apply N.div_le_lower_bound; lia | ].
    apply N.lt_succ_r, N.Div0.div_lt_upper_bound; lia. }
  assert (H4 : (x / 10 / 10 / 10 / 10 = 0)%N) by (apply N.div_small; lia).
  rewrite (pretty_N_go_step x) by lia.
  rewrite (pretty_N_go_step (x / 10)) by lia.
  rewrite (pretty_N_go_step (x / 10 / 10)) by lia.
  rewrite (pretty_N_go_step (x / 10 / 10 / 10)) by lia.
  rewrite H4, pretty_N_go_0. reflexivity.
Qed.

(** A field of at most two digits, padded to two characters. *)
Lemma zfill_digits (n : Z) :
  0 <= n <= 99 ->
  Str.zfill 2 (Str.of_int n)
  = String (pretty_N_char (Z.to_N n / 10))
      (String (pretty_N_char (Z.to_N n mod 10)) "").
Proof.
  intros Hn. destruct (Z.eq_dec n 0) as [-> | Hn0]; [reflexivity | ].
  rewrite of_int_pos by lia.
  assert (Hx : (1 <= Z.to_N n <= 99)%N) by lia.
  remember (Z.to_N n) as x eqn:Ex. clear Ex Hn Hn0 n.
  rewrite (pretty_N_go_step x) by lia.
  destruct (N.lt_ge_cases x 10) as [Hlt | Hge].
  - rewrite (N.div_small x 10 Hlt), pretty_N_go_0. reflexivity.
  - assert (H1 : (1 <= x / 10 <= 9)%N).
    { split; [apply N.div_le_lower_bound; lia | ].
      apply N.lt_succ_r, N.Div0.div_lt_upper_bound; lia. }
    rewrite (pretty_N_go_step (x / 10)) by lia.
    rewrite (N.div_small (x / 10) 10), pretty_N_go_0 by lia.
    rewrite (N.mod_small (x / 10) 10) by lia. reflexivity.
Qed.

Lemma zfill_length (n : Z) :
  0 <= n <= 99 -> String.length (Str.zfill 2 (Str.of_int n)) = 2%nat.
Proof. intros Hn. now rewrite zfill_digits. Qed.

Lemma zfill_inj (n n' : Z) :
  0 <= n <= 99 -> 0 <= n' <= 99 ->
  Str.zfill 2 (Str.of_int n) = Str.zfill 2 (Str.of_int n') -> n = n'.
Proof.
  intros Hn Hn'. rewrite !zfill_digits by assumption. intros [= H1 H2].
  assert (Hd : forall x : N, (x <= 99)%N -> (x / 10 < 10)%N /\ (x mod 10 < 10)%N).
  { intros x Hx. split; [apply N.Div0.div_lt_upper_bound; lia | apply N.mod_lt; lia]. }
  destruct (Hd (Z.to_N n) ltac:(lia)) as [Ha Hb].
  destruct (Hd (Z.to_N n') ltac:(lia)) as [Ha' Hb'].
  apply pretty_N_char_inj in H1; trivial. apply pretty_N_char_inj in H2; trivial.
  pose proof (N.div_mod (Z.to_N n) 10 ltac:(lia)).
  pose proof (N.div_mod (Z.to_N n') 10 ltac:(lia)).
  lia.
Qed.

(** Two concatenations that agree, with first parts of the same length,
    agree part by part. *)
Lemma append_inj (a a' b b' : string) :
  String.length a = String.length a' -> a +:+ b = a' +:+ b' -> a = a' /\ b = b'.
Proof.
  revert a'. induction a as [ | c a IH]; intros [ | c' a'] Hl E; try discriminate.
  - now split.
  - cbn in Hl, E. injection E as -> E. destruct (IH a' ltac:(lia) E) as [-> ->].
    now split.
Qed.

(** Different strings have different bytes. *)
Lemma encode_inj (s s' : string) : Str.encode s = Str.encode s' -> s = s'.
Proof.
  unfold Str.encode. revert s'.
  induction s as [ | c s IH]; intros [ | c' s']; cbn [list_ascii_of_string map];
    try discriminate; [reflexivity | ].
  intros [= Hc Hs]. apply Nat2Z.inj in Hc.
  rewrite <- (ascii_nat_embedding c), <- (ascii_nat_embedding c'), Hc.
  f_equal. now apply IH.
Qed.

End Stamp.

(** X8: for clock readings with a year of four digits and the other
    fields in their ranges, the stamp [strftime("%Y%m%d%H%M")] has twelve
    characters, two readings have the same stamp exactly when they fall in
    the same minute, and so the bytes that [deterministic_seed] hashes for
    the same fields differ exactly when the minute differs. *)
Theorem strftime_YmdHM_minute (t t' : datetime) :
  valid_clock t -> valid_clock t' ->
  String.length (strftime_YmdHM t) = 12%nat
  /\ (strftime_YmdHM t = strftime_YmdHM t' <-> same_minute t t')
  /\ (forall base : string,
        Str.encode (base +:+ strftime_YmdHM t) = Str.encode (base +:+ strftime_YmdHM t')
        <-> same_minute t t').
Proof.
  intros (Hy & Hm & Hd & Hh & Hmin) (Hy' & Hm' & Hd' & Hh' & Hmin').
  pose proof (Stamp.year_length _ Hy) as Ly. pose proof (Stamp.year_length _ Hy') as Ly'.
  pose proof (Stamp.zfill_length (month t) ltac:(lia)) as Lm.
  pose proof (Stamp.zfill_length (month t') ltac:(lia)) as Lm'.
  pose proof (Stamp.zfill_length (day t) ltac:(lia)) as Ld.
  pose proof (Stamp.zfill_length (day t') ltac:(lia)) as Ld'.
  pose proof (Stamp.zfill_length (hour t) ltac:(lia)) as Lh.
  pose proof (Stamp.zfill_length (hour t') ltac:(lia)) as Lh'.
  pose proof (Stamp.zfill_length (minute t) ltac:(lia)) as Ln.
  assert (Hstamp : strftime_YmdHM t = strftime_YmdHM t' <-> same_minute t t').
  { unfold strftime_YmdHM, same_minute. split.
    - intros E.
      apply Stamp.append_inj in E as [Ey E]; [ | congruence].
      apply Stamp.append_inj in E as [Em E]; [ | congruence].
      apply Stamp.append_inj in E as [Ed E]; [ | congruence].
      apply Stamp.append_inj in E as [Eh En]; [ | congruence].
      split; [exact (pretty_Z_inj _ _ Ey) | ].
      split; [apply Stamp.zfill_inj; trivial; lia | ].
      split; [apply Stamp.zfill_inj; trivial; lia | ].
      split; apply Stamp.zfill_inj; trivial; lia.
    - intros (-> & -> & -> & -> & ->). reflexivity. }
  split; [ | split; [exact Hstamp | ]].
  - unfold strftime_YmdHM. rewrite !Format.length_append, Ly, Lm, Ld, Lh, Ln. reflexivity.
  - intros base. rewrite <- Hstamp. split.
    + intros E. apply Stamp.encode_inj in E.
      now apply (Stamp.append_inj base base) in E.
    + now intros ->.
Qed.

(** The last microsecond of a minute and the first of the next. *)
Lemma strftime_YmdHM_minute_witness :
  let t := {| year := 2026; month := 11; day := 6; hour := 9; minute := 5;
              second := 59; microsecond := 999999 |} in
  let t' := {| year := 2026; month := 11; day := 6; hour := 9; minute := 6;
               second := 0; microsecond := 0 |} in
  valid_clock t /\ valid_clock t'
  /\ strftime_YmdHM t = "202611060905"
  /\ String.length (strftime_YmdHM t) = 12%nat
  /\ (strftime_YmdHM t = strftime_YmdHM t' <-> same_minute t t')
  /\ (forall base : string,
        Str.encode (base +:+ strftime_YmdHM t) = Str.encode (base +:+ strftime_YmdHM t')
        <-> same_minute t t').
Proof.
  intros t t'.
  assert (H : valid_clock t) by (unfold valid_clock, t; cbn; lia).
  assert (H' : valid_clock t') by (unfold valid_clock, t'; cbn; lia).
  split; [exact H | ]. split; [exact H' | ]. split; [vm_compute; reflexivity | ].
  exact (strftime_YmdHM_minute t t' H H').
Defined.

Module Join.

Lemma append_assoc (a b c : string) : (a +:+ b) +:+ c = a +:+ (b +:+ c).
Proof.
  induction a as [ | x a IH]; [reflexivity | ].
  change (String x ((a +:+ b) +:+ c) = String x (a +:+ (b +:+ c))). now rewrite IH.
Qed.

Lemma join_cons (sep x y : string) (rest : list string) :
  Str.join sep (x :: y :: rest) = x +:+ sep +:+ Str.join sep (y :: rest).
Proof. reflexivity. Qed.

End Join.

(** X9: [deterministic_seed] only sees the fields joined by ["|"]: lists of
    fields for which the joining has the same outcome (the same joined
    text, or the same exception) have the same outcome of the seed.  A
    separator inside a field is not told apart from the one between two
    fields, and an int gives what [deterministic_seed] gives on [str] of
    it: the [ValueError] of [str], or, for an int of at most 4300 digits,
    the seed of its decimal text. *)
Theorem deterministic_seed_reads_joined_text
    (float_repr : float -> string) (now : datetime) :
  (forall parts parts',
      join_parts float_repr parts = join_parts float_repr parts' ->
      deterministic_seed float_repr now parts = deterministic_seed float_repr now parts')
  /\ (forall a b c rest,
        deterministic_seed float_repr now (PyStr (a +:+ "|" +:+ b) :: PyStr c :: rest)
        = deterministic_seed float_repr now (PyStr a :: PyStr (b +:+ "|" +:+ c) :: rest))
  /\ (forall n rest,
        deterministic_seed float_repr now (PyInt n :: rest)
        = (s ← str float_repr (PyInt n);
           deterministic_seed float_repr now (PyStr s :: rest)))
  /\ (forall n rest,
        (Z.abs n < 10 ^ 4300)%Z ->
        deterministic_seed float_repr now (PyInt n :: rest)
        = deterministic_seed float_repr now (PyStr (Str.of_int n) :: rest)).
Proof.
  assert (H : forall parts parts',
             join_parts float_repr parts = join_parts float_repr parts' ->
             deterministic_seed float_repr now parts
             = deterministic_seed float_repr now parts').
  { intros parts parts' E. unfold deterministic_seed. now rewrite E. }
  assert (Hint : forall n rest,
             deterministic_seed float_repr now (PyInt n :: rest)
             = (s ← str float_repr (PyInt n);
                deterministic_seed float_repr now (PyStr s :: rest))).
  { intros n rest. unfold deterministic_seed, join_parts.
    rewrite Seed.mapM_cons. cbn [str].
    destruct (Str.str_of_int n) as [s | e | ]; reflexivity. }
  split; [exact H | ]. split; [ | split; [exact Hint | ]].
  - intros a b c rest. apply H. unfold join_parts.
    rewrite !Seed.mapM_cons. cbn [str mbind outcome_bind].
    destruct (mapM (str float_repr) rest) as [texts | e | ];
      cbn [mbind outcome_bind mret outcome_ret]; try reflexivity.
    f_equal. destruct texts as [ | r rs].
    + cbn [Str.join]. now rewrite !Join.append_assoc.
    + rewrite !Join.join_cons. now rewrite !Join.append_assoc.
  - intros n rest Hn. rewrite Hint. cbn [str].
    rewrite (Seed.str_of_int_fits n Hn). reflexivity.
Qed.

(** ** The tips *)

Module Tips.

(** The candidates are the templates whose condition admits the category:
    the fallback to all templates is never taken. *)
Lemma tip_candidates_filter (category : string) :
  tip_candidates category
  = map snd (List.filter (fun ct => match fst ct with
                                    | None => true
                                    | Some cats => str_in category cats
                                    end) TIPS_TEMPLATES).
Proof.
  unfold tip_candidates.
  destruct (map snd (List.filter _ TIPS_TEMPLATES)) eqn:E; [discriminate E | reflexivity].
Qed.

Lemma str_in_elem (x : string) (l : list string) : str_in x l = true <-> x ∈ l.
Proof.
  unfold str_in. rewrite existsb_exists, list_elem_of_In. split.
  - intros (y & Hy & E). apply String.eqb_eq in E. now subst.
  - intros H. exists x. split; [exact H | apply String.eqb_refl].
Qed.

(** Counting the candidates only looks at the conditions. *)
Lemma length_filter_fst {A B} (g : A -> bool) (l : list (A * B)) :
  length (map snd (List.filter (fun ct => g (fst ct)) l))
  = length (List.filter g (map fst l)).
Proof.
  induction l as [ | [a b] l IH]; [reflexivity | ].
  cbn [List.filter map fst]. destruct (g a); cbn [map length]; now rewrite IH.
Qed.

End Tips.

(** X10: the candidate tips of [choose_tip] are exactly the templates
    whose condition is absent or lists the category, so that the fallback
    to all templates is never taken: the five unconditional tips for every
    category, and one more for the seven categories a template names. *)
Theorem tip_candidates_relevant (category : string) :
  (forall tip,
      tip ∈ tip_candidates category
      <-> exists cond, (cond, tip) ∈ TIPS_TEMPLATES
                       /\ match cond with
                          | None => True
                          | Some cats => category ∈ cats
                          end)
  /\ length (tip_candidates category)
     = (if str_in category
             [ "Flight / Travel booking (ticket)"; "Electronics (phone, laptop)";
               "Clothing (fast fashion)"; "Clothing (sustainable)";
               "Groceries / Animal-based"; "Furniture / Home goods"; "Packaged goods" ]
        then 6 else 5)%nat.
Proof.
  rewrite Tips.tip_candidates_filter. split.
  - intros tip. rewrite list_elem_of_In, in_map_iff. split.
    + intros ([cond t] & <- & H). apply filter_In in H as [Hin Hc].
      exists cond. split; [now apply list_elem_of_In | ].
      cbn [fst] in Hc. destruct cond as [cats | ]; [now apply Tips.str_in_elem | exact I].
    + intros (cond & Hin & Hc). exists (cond, tip). split; [reflexivity | ].
      apply filter_In. split; [now apply list_elem_of_In | ].
      cbn [fst]. destruct cond as [cats | ]; [now apply Tips.str_in_elem | reflexivity].
  - rewrite (Tips.length_filter_fst
               (fun cond => match cond with
                            | None => true
                            | Some cats => str_in category cats
                            end)).
    replace (map fst TIPS_TEMPLATES)
      with [ None; None; Some ["Flight / Travel booking (ticket)"];
             Some ["Electronics (phone, laptop)"];
             Some ["Clothing (fast fashion)"; "Clothing (sustainable)"];
             Some ["Groceries / Animal-based"]; Some ["Furniture / Home goods"];
             Some ["Packaged goods"]; @None (list string); None; None ]
      by reflexivity.
    unfold str_in. cbn [List.filter existsb].
    repeat match goal with
           | |- context [String.eqb category ?s] =>
               destruct (String.eqb_spec category s) as [-> | ?];
               [vm_compute; reflexivity | ]
           end.
    reflexivity.
Qed.

(** ** Division by a positive constant *)

Module FloatDiv.
Import FloatOrder Rounding FloatOps PrimFacts.
Local Open Scope Z_scope.

(** The location [SFdiv] computes from a remainder. *)
Lemma new_location_loc_of (D r : Z) :
  0 < D -> 0 <= r < D -> new_location D r = loc_of r D.
Proof.
  intros HD Hr. unfold new_location, new_location_even, new_location_odd, loc_of.
  destruct (Z.even D) eqn:Ev; [reflexivity | ].
  destruct (Z.eqb_spec r 0); [reflexivity | ]. f_equal.
  rewrite <- Z.negb_odd in Ev. apply negb_false_iff in Ev.
  apply Z.odd_spec in Ev as [k Hk].
  destruct (Z.compare_spec (2 * r + 1) D), (Z.compare_spec (2 * r) D);
    try reflexivity; lia.
Qed.

Lemma shr_record_of_loc_stands (q : Z) (l : location) :
  shr_m (shr_record_of_loc q l) = q
  /\ loc_of_shr_record (shr_record_of_loc q l) = l.
Proof. destruct l as [ | []]; split; reflexivity. Qed.

Lemma stands_for_init (N D : Z) :
  0 <= N -> 0 < D ->
  stands_for N D (shr_record_of_loc (N / D) (new_location D (N mod D))).
Proof.
  intros HN HD. rewrite new_location_loc_of by (trivial; apply Z.mod_pos_bound; lia).
  apply shr_record_of_loc_stands.
Qed.

Lemma stands_for_step (N D : Z) (r : shr_record) :
  0 <= N -> 0 < D -> stands_for N D r -> stands_for N (D * 2) (shr_1 r).
Proof.
  intros HN HD [Hm Hloc]. destruct r as [m rb sb]. cbn [shr_m] in Hm.
  assert (Hm0 : 0 <= m) by (subst m; apply Z.div_pos; lia).
  rewrite shr_1_nonneg by assumption.
  pose proof (Z.div_mod N D ltac:(lia)) as HNd.
  pose proof (Z.mod_pos_bound N D HD) as Hrem.
  pose proof (Z.div_mod m 2 ltac:(lia)) as Hmd.
  pose proof (Z.mod_pos_bound m 2 ltac:(lia)) as Hbit.
  rewrite <- Hm in HNd.
  set (rem := N mod D) in *.
  assert (Hq : N / (D * 2) = m / 2).
  { symmetry. apply (Z.div_unique _ _ _ (rem + D * (m mod 2))); nia. }
  assert (Hr : N mod (D * 2) = rem + D * (m mod 2)).
  { symmetry. apply (Z.mod_unique _ _ (m / 2)); nia. }
  split; cbn [shr_m]; [now rewrite Hq | ].
  rewrite Hr.
  assert (Hs : (rb || sb) = negb (rem =? 0)).
  { unfold loc_of in Hloc. destruct (rem =? 0), rb, sb; cbn in *; congruence. }
  rewrite Hs, Zmod_odd. unfold loc_of.
  destruct (Z.odd m), (Z.eqb_spec rem 0) as [H0 | H0]; cbn [negb loc_of_shr_record];
    match goal with
    | |- context [?x =? 0] => destruct (Z.eqb_spec x 0); try lia
    end;
    try reflexivity;
    match goal with
    | |- context [?x ?= ?y] => destruct (Z.compare_spec x y); try lia
    end; reflexivity.
Qed.

Lemma stands_for_iter (N D : Z) (r : shr_record) (k : nat) :
  0 <= N -> 0 < D -> stands_for N D r ->
  stands_for N (D * 2 ^ Z.of_nat k) (Nat.iter k shr_1 r).
Proof.
  intros HN HD Hr. induction k as [ | k IH].
  - cbn [Nat.iter]. change (2 ^ Z.of_nat 0) with 1. now rewrite Z.mul_1_r.
  - rewrite Nat2Z.inj_succ, Z.pow_succ_r by lia. cbn [Nat.iter].
    replace (D * (2 * 2 ^ Z.of_nat k)) with (D * 2 ^ Z.of_nat k * 2) by ring.
    apply stands_for_step; trivial.
    apply Z.mul_pos_pos; [exact HD | apply Z.pow_pos_nonneg; lia].
Qed.

(** Shifting a record that stands for [N / D] right by [K] digits and
    rounding to nearest even is rounding [N / (D * 2^K)]. *)
Lemma shr_stands (N D e K : Z) (r : shr_record) :
  0 <= N -> 0 < D -> 0 <= K -> stands_for N D r ->
  snd (shr r e K) = e + K
  /\ round_nearest_even (shr_m (fst (shr r e K))) (loc_of_shr_record (fst (shr r e K)))
     = Fmt.round_half_even N (D * 2 ^ K).
Proof.
  intros HN HD HK Hr. destruct K as [ | p | p]; try lia; cbn [shr fst snd].
  - split; [lia | ]. rewrite Z.pow_0_r, Z.mul_1_r.
    destruct Hr as [-> ->]. now apply round_loc_of.
  - split; [reflexivity | ]. rewrite iter_pos_nat.
    destruct (stands_for_iter N D r (Pos.to_nat p) HN HD Hr) as [Hm Hloc].
    rewrite positive_nat_Z in Hm, Hloc. rewrite Hm, Hloc.
    apply round_loc_of. apply Z.mul_pos_pos; [exact HD | now apply Z.pow_pos_nonneg].
Qed.

(** Quotients of equal fractions. *)
Lemma div_ratio (a b a' b' : Z) :
  0 < b -> 0 < b' -> a * b' = a' * b -> a / b = a' / b'.
Proof.
  intros Hb Hb' H.
  rewrite <- (Z.div_mul_cancel_r a b b') by lia.
  rewrite <- (Z.div_mul_cancel_r a' b' b) by lia.
  rewrite H. f_equal. ring.
Qed.

Lemma Zdigits2_bounds (q : Z) :
  0 <= q -> q < 2 ^ Zdigits2 q /\ (0 < q -> 2 ^ (Zdigits2 q - 1) <= q) /\ 0 <= Zdigits2 q.
Proof.
  intros Hq. destruct q as [ | p | p]; try lia.
  - cbn. lia.
  - rewrite digits_Zdigits2. pose proof (digits_bounds p). pose proof (digits_pos p). lia.
Qed.

Lemma shift_cases (m s : Z) :
  0 <= s ->
  match s with
  | Z0 => m
  | Zpos _ => Z.shiftl m s
  | Zneg _ => 0
  end = m * 2 ^ s.
Proof.
  intros Hs. destruct s as [ | p | p]; [ring | | lia].
  apply Z.shiftl_mul_pow2. lia.
Qed.

(** What [SFdiv] computes for two positive finite numbers, the divisor
    having an exponent that is not positive: the quotient rounded at an
    exponent [E], seen as the fraction [A / B] of two integers. *)
Lemma SFdiv_finite (m1 m2 : positive) (e1 e2 : Z) :
  bounded prec emax m1 e1 = true -> bounded prec emax m2 e2 = true -> e2 <= 0 ->
  exists E,
    -1074 <= E
    /\ SFdiv prec emax (S754_finite false m1 e1) (S754_finite false m2 e2)
       = pack false (Fmt.round_half_even (Z.pos m1 * 2 ^ (e1 + 1074 - e2))
                       (Z.pos m2 * 2 ^ (E + 1074))) E
    /\ Z.pos m1 * 2 ^ (e1 + 1074 - e2) / (Z.pos m2 * 2 ^ (E + 1074)) < 2 ^ 53
    /\ (-1074 < E ->
        2 ^ 52 <= Z.pos m1 * 2 ^ (e1 + 1074 - e2) / (Z.pos m2 * 2 ^ (E + 1074))).
Proof.
  intros B1 B2 He2.
  apply bounded_inv in B1 as (_ & _ & He1 & Hd1 & _).
  apply bounded_inv in B2 as (_ & _ & _ & Hd2 & _).
  pose proof (digits_bounds m1) as [Hl1 Hu1]. pose proof (digits_pos m1) as Hp1.
  pose proof (digits_bounds m2) as [Hl2 Hu2]. pose proof (digits_pos m2) as Hp2.
  cbn [SFdiv xorb]. unfold SFdiv_core_binary. rewrite !digits_Zdigits2, fexp_eq.
  set (e' := Z.max (digits m1 + e1 - (digits m2 + e2) - 53) (-1074)).
  assert (He' : e' <= e1 - e2) by (unfold e'; lia).
  assert (Hlo : -1074 <= e') by (unfold e'; lia).
  rewrite (Z.min_l e' (e1 - e2)) by exact He'.
  set (s := e1 - e2 - e').
  assert (Hs : 0 <= s) by (unfold s; lia).
  assert (Hm' : match s with
                | Z0 => Z.pos m1
                | Zpos _ => Z.shiftl (Z.pos m1) s
                | Zneg _ => 0
                end = Z.pos m1 * 2 ^ s).
  { apply shift_cases. exact Hs. }
  rewrite Hm'. set (N := Z.pos m1 * 2 ^ s).
  assert (H2s : 0 < 2 ^ s) by (apply Z.pow_pos_nonneg; lia).
  assert (HN : 0 <= N) by (unfold N; nia).
  unfold Z.div_eucl at 1. fold (Z.div_eucl N (Z.pos m2)).
  pose proof (Z.div_eucl_eq N (Z.pos m2) ltac:(lia)) as Heq.
  assert (Hqr : Z.div_eucl N (Z.pos m2) = (N / Z.pos m2, N mod Z.pos m2)).
  { unfold Z.div, Z.modulo. now destruct (Z.div_eucl N (Z.pos m2)). }
  clear Heq. rewrite Hqr.
  set (q := N / Z.pos m2).
  assert (Hq0 : 0 <= q) by (apply Z.div_pos; lia).
  destruct (Zdigits2_bounds q Hq0) as (Hqu & Hql & Hdq).
  (* the quotient is normal unless the exponent is the least one *)
  assert (Hnorm : -1074 < e' -> 2 ^ 52 <= q).
  { intros Hn. unfold q. apply Z.div_le_lower_bound; [lia | ].
    assert (Es : s = 53 - digits m1 + digits m2) by (unfold s, e' in *; lia).
    unfold N. rewrite Es.
    apply Z.le_trans with (2 ^ digits m2 * 2 ^ 52); [nia | ].
    replace (2 ^ digits m2 * 2 ^ 52) with (2 ^ (digits m1 - 1) * 2 ^ (53 - digits m1 + digits m2)).
    - apply Z.mul_le_mono_nonneg_r; [apply Z.pow_nonneg; lia | exact Hl1].
    - rewrite <- !Z.pow_add_r by lia. f_equal. lia. }
  set (K := Z.max (Zdigits2 q + e' - 53) (-1074) - e').
  assert (HK : 0 <= K).
  { unfold K. destruct (Z_le_gt_dec e' (-1074)) as [Hle | Hgt]; [unfold e' in *; lia | ].
    specialize (Hnorm ltac:(lia)).
    assert (53 <= Zdigits2 q); [ | lia].
    destruct (Z_lt_le_dec (Zdigits2 q) 53) as [Hlt | ]; [ | lia].
    assert (2 ^ Zdigits2 q <= 2 ^ 52) by (apply Z.pow_le_mono_r; lia). lia. }
  exists (e' + K).
  assert (HE : -1074 <= e' + K) by (unfold K; lia).
  split; [exact HE | ].
  assert (H2K : 0 < 2 ^ K) by (apply Z.pow_pos_nonneg; lia).
  assert (Hfrac : N * (Z.pos m2 * 2 ^ (e' + K + 1074))
                  = Z.pos m1 * 2 ^ (e1 + 1074 - e2) * (Z.pos m2 * 2 ^ K)).
  { unfold N. replace (e1 + 1074 - e2) with (s + (e' + 1074)) by (unfold s; lia).
    replace (e' + K + 1074) with (K + (e' + 1074)) by lia.
    rewrite (Z.pow_add_r 2 s (e' + 1074)), (Z.pow_add_r 2 K (e' + 1074)) by lia.
    ring. }
  assert (HB : 0 < Z.pos m2 * 2 ^ (e' + K + 1074)).
  { apply Z.mul_pos_pos; [lia | apply Z.pow_pos_nonneg; lia]. }
  assert (HD : 0 < Z.pos m2 * 2 ^ K) by (apply Z.mul_pos_pos; lia).
  assert (HQ : Z.pos m1 * 2 ^ (e1 + 1074 - e2) / (Z.pos m2 * 2 ^ (e' + K + 1074))
               = q / 2 ^ K).
  { rewrite <- (div_ratio N (Z.pos m2 * 2 ^ K) _ _ HD HB Hfrac).
    unfold q. rewrite Z.div_div by lia. reflexivity. }
  assert (HQu : q / 2 ^ K < 2 ^ 53).
  { apply Z.div_lt_upper_bound; [exact H2K | ].
    rewrite <- Z.pow_add_r by lia.
    apply Z.lt_le_trans with (2 ^ Zdigits2 q); [exact Hqu | ].
    apply Z.pow_le_mono_r; [lia | unfold K; lia]. }
  assert (HQl : -1074 < e' + K -> 2 ^ 52 <= q / 2 ^ K).
  { intros Hn. apply Z.div_le_lower_bound; [exact H2K | ].
    destruct (Z.eq_dec K 0) as [K0 | K0].
    - rewrite K0, Z.pow_0_r, Z.mul_1_l. apply Hnorm. lia.
    - assert (EK : K = Zdigits2 q - 53) by (unfold K in *; lia).
      assert (0 < q).
      { destruct (Z.eq_dec q 0) as [E0 | ]; [ | lia].
        rewrite E0 in EK. cbn in EK. lia. }
      specialize (Hql ltac:(lia)).
      replace (2 ^ K * 2 ^ 52) with (2 ^ (Zdigits2 q - 1)); [exact Hql | ].
      rewrite <- Z.pow_add_r by lia. f_equal. lia. }
  split; [ | split; [rewrite HQ; exact HQu | intros Hn; rewrite HQ; now apply HQl]].
  unfold binary_round_aux, shr_fexp at 1. rewrite fexp_eq. fold K.
  pose proof (stands_for_init N (Z.pos m2) HN ltac:(lia)) as Hinit.
  fold q in Hinit.
  destruct (shr_stands N (Z.pos m2) e' K _ HN ltac:(lia) HK Hinit) as [Hsnd Hrnd].
  destruct (shr (shr_record_of_loc q (new_location (Z.pos m2) (N mod Z.pos m2))) e' K)
    as [mrs e''] eqn:Eshr.
  cbn [fst snd] in Hsnd, Hrnd. subst e''. rewrite Hrnd.
  rewrite (round_half_even_ratio _ _ _ _ HD HB Hfrac).
  apply renormalise; [ | exact HE].
  pose proof (round_half_even_bounds (Z.pos m1 * 2 ^ (e1 + 1074 - e2))
                (Z.pos m2 * 2 ^ (e' + K + 1074)) HB) as Hb.
  rewrite HQ in Hb.
  assert (0 <= q / 2 ^ K) by (apply Z.div_pos; lia). lia.
Qed.

(** A quotient below a bound, as an inequality of integers. *)
Lemma div_lt_inv (a b c : Z) : 0 < b -> a / b < c -> a < b * c.
Proof.
  intros Hb H. pose proof (Z.div_mod a b ltac:(lia)). pose proof (Z.mod_pos_bound a b Hb).
  nia.
Qed.

Lemma div_le_inv (a b c : Z) : 0 < b -> c <= a / b -> b * c <= a.
Proof.
  intros Hb H. pose proof (Z.div_mod a b ltac:(lia)). pose proof (Z.mod_pos_bound a b Hb).
  nia.
Qed.

(** Dividing by a positive finite number (with an exponent that is not
    positive) keeps the order of non-negative numbers. *)
Lemma SFdiv_mono (x x' : spec_float) (m2 : positive) (e2 : Z) :
  valid_binary x = true -> valid_binary x' = true ->
  bounded prec emax m2 e2 = true -> e2 <= 0 ->
  nonneg x -> sf_le x x' ->
  sf_le (SFdiv prec emax x (S754_finite false m2 e2))
        (SFdiv prec emax x' (S754_finite false m2 e2))
  /\ nonneg (SFdiv prec emax x (S754_finite false m2 e2)).
Proof.
  intros Vx Vx' Vy He2 Nx Hxx.
  assert (Nx' : nonneg x') by (apply (le_trans _ x); assumption).
  assert (Hnn : forall z, valid_binary z = true -> nonneg z ->
                          nonneg (SFdiv prec emax z (S754_finite false m2 e2))).
  { intros z Vz Nz. destruct (nonneg_cases z Nz) as [Fz | ->].
    - destruct z as [sz | [] | | [] mz ez]; cbn in Fz; try contradiction.
      + cbn [SFdiv]. le_intro.
      + cbn [valid_binary] in Vz.
        destruct (SFdiv_finite mz m2 ez e2 Vz Vy He2) as (E & HE & -> & Hu & _).
        apply pack_nonneg.
        pose proof (round_half_even_bounds (Z.pos mz * 2 ^ (ez + 1074 - e2))
                      (Z.pos m2 * 2 ^ (E + 1074))
                      ltac:(apply Z.mul_pos_pos; [lia | apply Z.pow_pos_nonneg; lia])) as Hb.
        assert (0 <= Z.pos mz * 2 ^ (ez + 1074 - e2) / (Z.pos m2 * 2 ^ (E + 1074))); [ | lia].
        apply Z.div_pos.
        * apply Z.mul_nonneg_nonneg; [lia | apply Z.pow_nonneg; lia].
        * apply Z.mul_pos_pos; [lia | apply Z.pow_pos_nonneg; lia].
    - cbn [SFdiv xorb]. le_intro. }
  split; [ | now apply Hnn].
  destruct (nonneg_cases x Nx) as [Fx | ->], (nonneg_cases x' Nx') as [Fx' | ->].
  - pose proof (le_ival x x' Vx Vx' Fx Fx' Hxx) as Hv.
    destruct x as [sx | [] | | [] mx ex]; cbn in Fx; try contradiction.
    + cbn [SFdiv]. apply le_zero_l. now apply Hnn.
    + destruct x' as [sx' | [] | | [] mx' ex']; cbn in Fx'; try contradiction.
      { le_inv Hxx. lia. }
      cbn [valid_binary] in Vx, Vx'. cbn [ival] in Hv.
      destruct (SFdiv_finite mx m2 ex e2 Vx Vy He2) as (E1 & HE1 & -> & Hu1 & Hl1).
      destruct (SFdiv_finite mx' m2 ex' e2 Vx' Vy He2) as (E2 & HE2 & -> & Hu2 & Hl2).
      apply bounded_inv in Vx as (_ & _ & Hex & _).
      apply bounded_inv in Vx' as (_ & _ & Hex' & _).
      set (A1 := Z.pos mx * 2 ^ (ex + 1074 - e2)) in *.
      set (A2 := Z.pos mx' * 2 ^ (ex' + 1074 - e2)) in *.
      assert (HA : A1 <= A2).
      { unfold A1, A2.
        replace (ex + 1074 - e2) with ((ex + 1074) + - e2) by lia.
        replace (ex' + 1074 - e2) with ((ex' + 1074) + - e2) by lia.
        rewrite (Z.pow_add_r 2 (ex + 1074) (- e2)), (Z.pow_add_r 2 (ex' + 1074) (- e2)) by lia.
        rewrite !Z.mul_assoc.
        apply Z.mul_le_mono_nonneg_r; [apply Z.pow_nonneg; lia | exact Hv]. }
      assert (HA1 : 0 <= A1).
      { unfold A1. apply Z.mul_nonneg_nonneg; [lia | apply Z.pow_nonneg; lia]. }
      assert (HB : forall E, -1074 <= E -> 0 < Z.pos m2 * 2 ^ (E + 1074)).
      { intros E HE. apply Z.mul_pos_pos; [lia | apply Z.pow_pos_nonneg; lia]. }
      pose proof (HB E1 HE1) as HB1. pose proof (HB E2 HE2) as HB2.
      pose proof (round_half_even_bounds A1 _ HB1) as Hr1.
      pose proof (round_half_even_bounds A2 _ HB2) as Hr2.
      assert (0 <= A1 / (Z.pos m2 * 2 ^ (E1 + 1074))) by (apply Z.div_pos; lia).
      assert (0 <= A2 / (Z.pos m2 * 2 ^ (E2 + 1074))) by (apply Z.div_pos; lia).
      assert (HE : E1 <= E2).
      { destruct (Z_le_gt_dec E1 E2) as [ | Hgt]; [assumption | exfalso].
        specialize (Hl1 ltac:(lia)).
        apply div_le_inv in Hl1; [ | exact HB1]. apply div_lt_inv in Hu2; [ | exact HB2].
        assert (2 * (Z.pos m2 * 2 ^ (E2 + 1074)) <= Z.pos m2 * 2 ^ (E1 + 1074)); [ | nia].
        replace (E1 + 1074) with ((E2 + 1074) + (E1 - E2)) by lia.
        rewrite (Z.pow_add_r 2 (E2 + 1074) (E1 - E2)) by lia.
        assert (2 ^ 1 <= 2 ^ (E1 - E2)) by (apply Z.pow_le_mono_r; lia).
        change (2 ^ 1) with 2 in *.
        assert (0 < 2 ^ (E2 + 1074)) by (apply Z.pow_pos_nonneg; lia). nia. }
      apply pack_mono; try lia.
      intros Heq. rewrite <- Heq. now apply round_half_even_mono_num.
  - change (SFdiv prec emax (S754_infinity false) (S754_finite false m2 e2))
      with (S754_infinity false).
    apply le_infinity. now apply Hnn.
  - destruct x' as [sx' | [] | | [] mx' ex']; cbn in Fx'; try contradiction;
      le_inv Hxx; lia.
  - cbn [SFdiv xorb]. le_intro.
Qed.

(** On primitive floats. *)
Lemma div_mono (x x' c : float) (m : positive) (e : Z) :
  Prim2SF c = S754_finite false m e -> e <= 0 -> nn x -> fle x x' ->
  fle (x / c) (x' / c) /\ nn (x / c).
Proof.
  intros Ec He Hx Hxx. pose proof (Prim2SF_valid c) as Vc. rewrite Ec in Vc.
  cbn [valid_binary] in Vc.
  destruct (SFdiv_mono (Prim2SF x) (Prim2SF x') m e (Prim2SF_valid x) (Prim2SF_valid x')
              Vc He (proj1 (nn_nonneg x) Hx) (proj1 (fle_le x x') Hxx)) as [H N].
  split.
  - apply fle_le. rewrite !div_spec, Ec. exact H.
  - apply nn_nonneg. rewrite div_spec, Ec. exact N.
Qed.

End FloatDiv.

(** ** The form *)

Module Report.
Import FloatOrder PrimFacts PyFacts Estimate.

Lemma choose_feedback_no_raise (fuel : nat) (item_name category : string)
    (kg_co2 : float) (seed_val : Z) :
  no_raise (choose_feedback fuel item_name category kg_co2 seed_val).
Proof.
  destruct (Selection.getitem_intensity kg_co2) as [Hpool Hlen].
  unfold choose_feedback. rewrite Hpool.
  apply Selection.no_raise_bind;
    [apply Selection.choice_no_raise; discriminate | intros [tmpl r1]].
  apply Selection.no_raise_bind;
    [apply Selection.choice_no_raise; discriminate | intros [suffix r2]].
  cbn [mbind outcome_bind].
  apply Selection.no_raise_bind; [ | intros [line r3] e; discriminate].
  apply Selection.choice_no_raise. intros E. rewrite E in Hlen. discriminate.
Qed.

Lemma choose_tip_no_raise (fuel : nat) (category distance : string)
    (weight_kg : option float) (shipping_speed : string) (seed_val : Z) :
  no_raise (choose_tip fuel category distance weight_kg shipping_speed seed_val).
Proof.
  unfold choose_tip.
  apply Selection.no_raise_bind;
    [apply Selection.choice_no_raise, Selection.tip_candidates_nonempty
    | intros [tip r1]].
  apply Selection.no_raise_bind;
    [apply Selection.choice_no_raise; discriminate | intros [punch r2] e].
  discriminate.
Qed.

(** Nine tenths of a non-negative number: not negative, and not more. *)
Lemma offset_le (kg : float) : nn kg -> nn (kg * 0.90)%float /\ fle (kg * 0.90)%float kg.
Proof.
  intros Hk.
  assert (F9 : posfin 0.90) by exact I. assert (F1 : posfin 1) by exact I.
  split; [now apply mul_nn | ].
  rewrite <- (mul_one_r kg) at 2.
  apply mul_mono_l; trivial. vm_compute. reflexivity.
Qed.

(** A value at most another one is below every threshold the other is
    below. *)
Lemma below_of_le (x y t : float) :
  fle x y -> PrimFloat.ltb y t = true -> PrimFloat.ltb x t = true.
Proof.
  intros Hxy Hy. apply ltb_lt. apply (le_lt_trans _ (Prim2SF y)).
  - now apply fle_le.
  - now apply ltb_lt.
Qed.

(** The form's [weight if weight > 0 else None] changes nothing: the
    estimate ignores a weight that is not above zero. *)
Lemma weight_or_none (category : string) (price : float) (quantity : Z)
    (distance : string) (weight : float) (shipping_speed : string) :
  estimate_emission category price quantity distance
    (if PrimFloat.ltb 0 weight then Some weight else None) shipping_speed
  = estimate_emission category price quantity distance (Some weight) shipping_speed.
Proof.
  destruct (PrimFloat.ltb 0 weight) eqn:E; [reflexivity | ].
  rewrite !estimate_emission_steps. cbn [weight_step]. now rewrite E, andb_false_r.
Qed.

(** An int that converts to a float has far fewer than 4300 digits. *)
Lemma float_range_digits (quantity : Z) :
  (Z.abs quantity < float_range)%Z -> (Z.abs quantity < 10 ^ Str.max_str_digits)%Z.
Proof.
  intros H.
  assert (H1 : (float_range < 10 ^ 309)%Z) by (vm_compute; reflexivity).
  assert (H309 : (309 <= Str.max_str_digits)%Z) by discriminate.
  pose proof (Z.pow_le_mono_r 10 309 Str.max_str_digits eq_refl H309) as H2.
  eapply Z.lt_le_trans; [ | exact H2]. eapply Z.lt_trans; eassumption.
Qed.

(** The seed of the form's fields: a 32-bit number, unless the text of the
    fields holds a surrogate. *)
Lemma form_seed_cases (float_repr : float -> string) (now : datetime)
    (item_name category : string) (price : float) (quantity : Z) (weight : float)
    (distance shipping_speed : string) :
  (Z.abs quantity < float_range)%Z ->
  (exists seed,
      deterministic_seed float_repr now
        [PyStr item_name; PyStr category; PyFloat price; PyInt quantity;
         PyFloat weight; PyStr distance; PyStr shipping_speed] = Ret seed
      /\ (0 <= seed < 2 ^ 32)%Z)
  \/ deterministic_seed float_repr now
       [PyStr item_name; PyStr category; PyFloat price; PyInt quantity;
        PyFloat weight; PyStr distance; PyStr shipping_speed]
     = Raise UnicodeEncodeError.
Proof.
  intros Hq. apply float_range_digits in Hq.
  rewrite Seed.seed_within_digits.
  - destruct (Str.has_surrogate _); [now right | left].
    eexists. split; [reflexivity | ]. apply Z.mod_pos_bound. reflexivity.
  - intros n Hin. repeat (destruct Hin as [E | Hin]; [try discriminate | ]).
    + injection E as <-. exact Hq.
    + destruct Hin.
Qed.

End Report.

(** X11: the intensity band of [choose_feedback] grows with the
    emissions: a value at most another one never falls in a stronger band;
    so the estimate after the pretended offset never falls in a stronger
    band than the estimate itself. *)
Theorem intensity_monotone :
  (forall kg kg', fle kg kg' ->
     exists b b', intensity kg = band_name b /\ intensity kg' = band_name b'
                  /\ (band_rank b <= band_rank b')%nat)
  /\ (forall kg, nn kg ->
        exists b b', intensity (kg * 0.90)%float = band_name b
                     /\ intensity kg = band_name b'
                     /\ (band_rank b <= band_rank b')%nat).
Proof.
  assert (Hmono : forall kg kg', fle kg kg' ->
            exists b b', intensity kg = band_name b /\ intensity kg' = band_name b'
                         /\ (band_rank b <= band_rank b')%nat).
  { intros kg kg' H. unfold intensity.
    destruct (PrimFloat.ltb kg' 0.5) eqn:A'.
    { rewrite (Report.below_of_le kg kg' _ H A'). exists Mild, Mild.
      split; [reflexivity | split; [reflexivity | cbn; lia]]. }
    destruct (PrimFloat.ltb kg' 5) eqn:B'.
    { rewrite (Report.below_of_le kg kg' _ H B').
      destruct (PrimFloat.ltb kg 0.5);
        [exists Mild, Noticeable | exists Noticeable, Noticeable];
        (split; [reflexivity | split; [reflexivity | cbn; lia]]). }
    destruct (PrimFloat.ltb kg' 50) eqn:C'.
    { rewrite (Report.below_of_le kg kg' _ H C').
      destruct (PrimFloat.ltb kg 0.5);
        [exists Mild, Strong
        | destruct (PrimFloat.ltb kg 5);
          [exists Noticeable, Strong | exists Strong, Strong]];
        (split; [reflexivity | split; [reflexivity | cbn; lia]]). }
    destruct (PrimFloat.ltb kg 0.5);
      [exists Mild, Epic
      | destruct (PrimFloat.ltb kg 5);
        [exists Noticeable, Epic
        | destruct (PrimFloat.ltb kg 50); [exists Strong, Epic | exists Epic, Epic]]];
      (split; [reflexivity | split; [reflexivity | cbn; lia]]). }
  split; [exact Hmono | ].
  intros kg Hk. apply Hmono. now apply Report.offset_le.
Qed.

(** X12: one submission of the form, for inputs within the bounds of its
    widgets (a price and a weight that are not negative, a quantity from 1
    on that converts): nothing is raised once the seed is returned, and the
    one exception there can be is the [UnicodeEncodeError] of
    [deterministic_seed], for fields whose text holds a surrogate; the seed
    of the report is the one [deterministic_seed] returns and is in
    [[0, 2^32)]; the weight 0 that stands for "unknown" is estimated like
    the weight as it is; the estimate is not negative; and the value after
    the offset is not negative, at most the estimate, and the estimate
    itself when no offset is donated. *)
Theorem submitted_within_bounds
    (float_repr : float -> string) (now : datetime) (fuel : nat)
    (item_name category : string) (price : float) (quantity : Z) (weight : float)
    (distance shipping_speed : string) (donate_offset : bool) :
  nn price -> (1 <= quantity < float_range)%Z -> nn weight ->
  let fields := [PyStr item_name; PyStr category; PyFloat price; PyInt quantity;
                 PyFloat weight; PyStr distance; PyStr shipping_speed] in
  (returns (deterministic_seed float_repr now fields) ->
   no_raise (Form.submitted float_repr now fuel item_name category price quantity
               weight distance shipping_speed donate_offset))
  /\ (forall e,
        Form.submitted float_repr now fuel item_name category price quantity
          weight distance shipping_speed donate_offset = Raise e ->
        e = UnicodeEncodeError
        /\ deterministic_seed float_repr now fields = Raise UnicodeEncodeError)
  /\ (forall rep,
        Form.submitted float_repr now fuel item_name category price quantity
          weight distance shipping_speed donate_offset = Ret rep ->
        deterministic_seed float_repr now fields = Ret (Form.seed_val rep)
        /\ (0 <= Form.seed_val rep < 2 ^ 32)%Z
        /\ estimate_emission category price quantity distance (Some weight)
             shipping_speed = Ret (Form.kg rep)
        /\ nn (Form.kg rep)
        /\ nn (Form.kg_after rep)
        /\ fle (Form.kg_after rep) (Form.kg rep)
        /\ (donate_offset = false -> Form.kg_after rep = Form.kg rep)).
Proof.
  intros Hp Hq Hw fields. unfold Form.submitted. fold fields.
  assert (Hraise : deterministic_seed float_repr now fields = Raise UnicodeEncodeError ->
            forall (k : Z -> outcome Form.report) (e : exn),
              (seed ← deterministic_seed float_repr now fields; k seed) = Raise e ->
              e = UnicodeEncodeError
              /\ deterministic_seed float_repr now fields = Raise UnicodeEncodeError).
  { intros E k e. rewrite E. cbn [mbind outcome_bind]. intros [= <-]. now split. }
  destruct (Report.form_seed_cases float_repr now item_name category price quantity
              weight distance shipping_speed ltac:(lia)) as [(seed & Eseed & Hseed) | Eseed];
    fold fields in Eseed.
  2: { split; [ | split].
       - intros [seed E]. rewrite E in Eseed. discriminate.
       - intros e. apply (Hraise Eseed).
       - intros rep. rewrite Eseed. discriminate. }
  clear Hraise. rewrite Eseed. cbn [mbind outcome_bind].
  rewrite Report.weight_or_none.
  assert (Hvw : valid_weight (Some weight)) by exact Hw.
  assert (Hkg : exists kg, estimate_emission category price quantity distance
                             (Some weight) shipping_speed = Ret kg /\ nn kg).
  { assert (Hf : forall x, posfin x -> fle x x).
    { intros x F. apply PrimFacts.fle_le, FloatOrder.le_refl. unfold posfin in F.
      intros E. rewrite E in F. exact F. }
    destruct (Tables.estimate_emission_mono_tables category category distance distance
                shipping_speed shipping_speed price quantity (Some weight) Hp Hq Hvw
                (Hf _ (Estimate.category_factor_posfin category))
                (Hf _ (Estimate.distance_multiplier_posfin distance))
                (Hf _ (Estimate.speed_multiplier_posfin shipping_speed)))
      as (kg & _ & E & _ & _ & N).
    exists kg. split; assumption. }
  destruct Hkg as (kg & Ekg & Nkg). rewrite Ekg. cbn [mbind outcome_bind].
  assert (Hafter : nn (if donate_offset then (kg * 0.90)%float else kg)
                   /\ fle (if donate_offset then (kg * 0.90)%float else kg) kg).
  { destruct donate_offset; [now apply Report.offset_le | ].
    split; [exact Nkg | now apply PrimFacts.fle_refl]. }
  remember (if donate_offset then (kg * 0.90)%float else kg) as after eqn:Eafter.
  destruct Hafter as [Nafter Hle].
  assert (Hno : no_raise
            (feedback ← choose_feedback fuel (feedback_label item_name category)
                          category after seed;
             tip ← choose_tip fuel category distance (Some weight) shipping_speed seed;
             mret {| Form.seed_val := seed; Form.kg := kg; Form.kg_after := after;
                     Form.feedback := feedback; Form.tip := tip |})).
  { apply Selection.no_raise_bind; [apply Report.choose_feedback_no_raise | intros fb].
    apply Selection.no_raise_bind; [apply Report.choose_tip_no_raise | intros tp e].
    discriminate. }
  split; [intros _; exact Hno | ]. split.
  - intros e E. now elim (Hno e).
  - intros rep.
    destruct (choose_feedback fuel _ category after seed) as [fb | | ];
      cbn [mbind outcome_bind]; try discriminate.
    destruct (choose_tip fuel category distance (Some weight) shipping_speed seed)
      as [tp | | ]; cbn [mbind outcome_bind]; try discriminate.
    intros [= <-]. cbn [Form.seed_val Form.kg Form.kg_after].
    split; [reflexivity | ].
    split; [exact Hseed | ]. split; [reflexivity | ]. split; [exact Nkg | ].
    split; [exact Nafter | ]. split; [exact Hle | ].
    intros ->. exact Eafter.
Qed.

(** A submission that returns. *)
Lemma submitted_within_bounds_witness :
  let repr := fun x : float => if PrimFloat.eqb x 49.99 then "49.99" else "0.0" in
  let t := {| year := 2026; month := 11; day := 6; hour := 0; minute := 12;
              second := 3; microsecond := 141592 |} in
  let fields := [PyStr "AirPods Pro"; PyStr "Electronics (phone, laptop)";
                 PyFloat 49.99; PyInt 1; PyFloat 0; PyStr "Local (same city)";
                 PyStr "Two-day"] in
  nn 49.99 /\ (1 <= 1 < float_range)%Z /\ nn 0
  /\ returns (deterministic_seed repr t fields)
  /\ returns (Form.submitted repr t 64 "AirPods Pro" "Electronics (phone, laptop)"
                49.99 1 0 "Local (same city)" "Two-day" true)
  /\ no_raise (Form.submitted repr t 64 "AirPods Pro" "Electronics (phone, laptop)"
                 49.99 1 0 "Local (same city)" "Two-day" true)
  /\ (forall rep,
        Form.submitted repr t 64 "AirPods Pro" "Electronics (phone, laptop)"
          49.99 1 0 "Local (same city)" "Two-day" true = Ret rep ->
        deterministic_seed repr t fields = Ret (Form.seed_val rep)
        /\ (0 <= Form.seed_val rep < 2 ^ 32)%Z
        /\ estimate_emission "Electronics (phone, laptop)" 49.99 1 "Local (same city)"
             (Some 0%float) "Two-day" = Ret (Form.kg rep)
        /\ nn (Form.kg rep)
        /\ nn (Form.kg_after rep)
        /\ fle (Form.kg_after rep) (Form.kg rep)
        /\ (true = false -> Form.kg_after rep = Form.kg rep)).
Proof.
  intros repr t fields.
  assert (H1 : nn 49.99) by reflexivity.
  assert (H2 : (1 <= 1 < float_range)%Z) by (split; [lia | reflexivity]).
  assert (H3 : nn 0) by reflexivity.
  assert (H4 : returns (deterministic_seed repr t fields))
    by (vm_compute; eexists; reflexivity).
  pose proof (submitted_within_bounds repr t 64 "AirPods Pro"
                "Electronics (phone, laptop)" 49.99 1 0 "Local (same city)" "Two-day"
                true H1 H2 H3) as (Hno & _ & Hrep).
  split; [exact H1 | ]. split; [exact H2 | ]. split; [exact H3 | ].
  split; [exact H4 | ].
  split; [vm_compute; eexists; reflexivity | ].
  split; [exact (Hno H4) | exact Hrep].
Defined.

(** X13: the session's history after a series of submissions holds all of
    them, the newest first; the list shown has the seven newest, or all of
    them when there are fewer, the entry at place [i] being the one
    submitted [i] submissions before the last. *)
Theorem history_newest_first {A} (entries : list A) :
  let history := fold_left Form.history_insert entries [] in
  history = reverse entries
  /\ length (Form.history_listed history) = Nat.min 7 (length entries)
  /\ (forall i entry, (i < 7)%nat ->
        (Form.history_listed history !! i = Some entry
         <-> (i < length entries)%nat
             /\ entries !! (length entries - 1 - i)%nat = Some entry)).
Proof.
  assert (H : forall (es h : list A),
             fold_left Form.history_insert es h = (reverse es ++ h)%list).
  { induction es as [ | e es IH]; intros h; [reflexivity | ].
    cbn [fold_left]. rewrite IH, reverse_cons. unfold Form.history_insert.
    now rewrite <- app_assoc. }
  intros history. unfold history. rewrite H, app_nil_r.
  split; [reflexivity | ].
  unfold Form.history_listed. split.
  - rewrite length_take, length_reverse. lia.
  - intros i entry Hi. rewrite lookup_take_lt by lia.
    rewrite reverse_lookup_Some.
    replace (length entries - S i)%nat with (length entries - 1 - i)%nat by lia.
    tauto.
Qed.

(** X14: the three comparisons written under the estimate (kilometres by
    car, tree-years, phone charges) are quotients of the emissions by
    positive constants, the guard on [CAR_KG_PER_KM] always choosing the
    quotient: for emissions that are not negative each of them is not
    negative and does not decrease when the emissions grow, so that none
    grows when the offset is donated. *)
Theorem comparisons_monotone (kg_after kg_after' : float) :
  nn kg_after -> fle kg_after kg_after' ->
  Form.car_km kg_after = (kg_after / CAR_KG_PER_KM)%float
  /\ (nn (Form.car_km kg_after)
      /\ fle (Form.car_km kg_after) (Form.car_km kg_after'))
  /\ (nn (Form.tree_years kg_after)
      /\ fle (Form.tree_years kg_after) (Form.tree_years kg_after'))
  /\ (nn (Form.phone_charges kg_after)
      /\ fle (Form.phone_charges kg_after) (Form.phone_charges kg_after'))
  /\ (fle (Form.car_km (kg_after * 0.90)) (Form.car_km kg_after)
      /\ fle (Form.tree_years (kg_after * 0.90)) (Form.tree_years kg_after)
      /\ fle (Form.phone_charges (kg_after * 0.90)) (Form.phone_charges kg_after)).
Proof.
  intros Hk Hkk.
  assert (Hcar : forall x, Form.car_km x = (x / CAR_KG_PER_KM)%float) by reflexivity.
  assert (Ec : exists m e, Prim2SF CAR_KG_PER_KM = S754_finite false m e /\ (e <= 0)%Z).
  { eexists _, _. split; [vm_compute; reflexivity | vm_compute; discriminate]. }
  assert (Et : exists m e,
             Prim2SF TREE_ABSORPTION_KG_PER_YEAR = S754_finite false m e /\ (e <= 0)%Z).
  { eexists _, _. split; [vm_compute; reflexivity | vm_compute; discriminate]. }
  assert (Ep : exists m e, Prim2SF PHONE_CHARGE_KG = S754_finite false m e /\ (e <= 0)%Z).
  { eexists _, _. split; [vm_compute; reflexivity | vm_compute; discriminate]. }
  destruct Ec as (mc & ec & Ec & Hc), Et as (mt & et & Et & Ht), Ep as (mp & ep & Ep & Hp).
  destruct (Report.offset_le kg_after Hk) as [Noff Hoff].
  split; [apply Hcar | ]. rewrite !Hcar. unfold Form.tree_years, Form.phone_charges.
  split; [split; apply (FloatDiv.div_mono kg_after kg_after' _ mc ec Ec Hc Hk Hkk) | ].
  split; [split; apply (FloatDiv.div_mono kg_after kg_after' _ mt et Et Ht Hk Hkk) | ].
  split; [split; apply (FloatDiv.div_mono kg_after kg_after' _ mp ep Ep Hp Hk Hkk) | ].
  split; [apply (FloatDiv.div_mono _ kg_after _ mc ec Ec Hc Noff Hoff) | ].
  split; [apply (FloatDiv.div_mono _ kg_after _ mt et Et Ht Noff Hoff) | ].
  apply (FloatDiv.div_mono _ kg_after _ mp ep Ep Hp Noff Hoff).
Qed.

(** The estimate of a pair of earphones, and twice as much. *)
Lemma comparisons_monotone_witness :
  nn 14.997 /\ fle 14.997 30
  /\ Form.car_km 14.997 = (14.997 / CAR_KG_PER_KM)%float
  /\ (nn (Form.car_km 14.997) /\ fle (Form.car_km 14.997) (Form.car_km 30))
  /\ (nn (Form.tree_years 14.997) /\ fle (Form.tree_years 14.997) (Form.tree_years 30))
  /\ (nn (Form.phone_charges 14.997)
      /\ fle (Form.phone_charges 14.997) (Form.phone_charges 30))
  /\ (fle (Form.car_km (14.997 * 0.90)) (Form.car_km 14.997)
      /\ fle (Form.tree_years (14.997 * 0.90)) (Form.tree_years 14.997)
      /\ fle (Form.phone_charges (14.997 * 0.90)) (Form.phone_charges 14.997)).
Proof.
  assert (H1 : nn 14.997) by reflexivity.
  assert (H2 : fle 14.997 30) by reflexivity.
  split; [exact H1 | ]. split; [exact H2 | ].
  exact (comparisons_monotone 14.997 30 H1 H2).
Defined.
